(** * The social-media preview pipeline of stampchain.io

    A shallow embedding of the preview generator (the second document of
    [routes/sitemap.xml.ts]): the base64 cache codec, the integer upscale of
    raster stamps, the audio waveform, the client of the Cloudflare browser
    rendering worker, the per-format renderers, the dispatcher, the Redis
    cache layer and the S3 storage path.

    Conventions.  A JavaScript number that holds an integer is a [Z]; the
    32-bit wrap-around of the bitwise operators is written out.  A
    [Uint8Array] is a [list byte].  A JavaScript string is a [string]; its
    characters stand for UTF-16 code units below 256, which is all the
    markers searched by the pipeline need.  Part I holds the model, Part II
    the properties of the specification, Part III further properties of
    the code. *)

From stdpp Require Import gmap strings list pretty.
From Stdlib Require Import ZArith Lia Ascii String.
From Stdlib.Strings Require Import Byte.

Local Open Scope Z_scope.

(* ===================================================================== *)
(** * Part I: the model                                                    *)
(* ===================================================================== *)

(** ** JavaScript values shared by the whole pipeline *)

Definition Uint8Array := list byte.

(** [data[i]] read as a number. *)
Definition byte_to_Z (b : byte) : Z := Z.of_N (Byte.to_N b).

(** [bytes[i] = v]: a typed-array store keeps the value modulo 256. *)
Definition byte_of_Z (v : Z) : byte :=
  default "000"%byte (Byte.of_N (Z.to_N (v mod 256))).

(** [String.fromCharCode(n)] and [s.charCodeAt(i)], on one code unit. *)
Definition fromCharCode (n : Z) : ascii := ascii_of_N (Z.to_N n).
Definition charCode (c : ascii) : Z := Z.of_N (N_of_ascii c).

Definition chars (s : string) : list ascii := list_ascii_of_string s.
Definition str (l : list ascii) : string := string_of_list_ascii l.

(** ** The base64 codec of the cache *)

Module Base64.

Definition alphabet : list ascii :=
  chars "ABCDEFGHIJKLMNOPQRSTUVWXYZabcdefghijklmnopqrstuvwxyz0123456789+/".

Definition enc_char (n : Z) : ascii :=
  nth (Z.to_nat n) alphabet "="%char.

Fixpoint index_of (c : ascii) (l : list ascii) : option Z :=
  match l with
  | [] => None
  | d :: l' => if Ascii.eqb c d then Some 0 else Z.succ <$> index_of c l'
  end.

Definition dec_char (c : ascii) : option Z := index_of c alphabet.

(** The 6-bit groups of a byte sequence, most significant bits first; a
    final group of one or two bytes is completed with zero bits. *)
Fixpoint sextets (l : list Z) : list Z :=
  match l with
  | a :: b :: c :: r =>
      a / 4 :: (a mod 4) * 16 + b / 16 :: (b mod 16) * 4 + c / 64
        :: c mod 64 :: sextets r
  | [a; b] => [a / 4; (a mod 4) * 16 + b / 16; (b mod 16) * 4]
  | [a] => [a / 4; (a mod 4) * 16]
  | [] => []
  end.

Definition padding (n : nat) : list ascii :=
  match (n mod 3)%nat with
  | 1%nat => ["="; "="]%char
  | 2%nat => ["="]%char
  | _ => []
  end.

(** [btoa] of the platform: every code unit of the argument is one byte
    (the embedding's strings have no code unit above 255, for which the
    platform function throws), and the bytes are base64-encoded with
    padding. *)
Definition btoa (binary : string) : string :=
  str ((enc_char <$> sextets (charCode <$> chars binary))
         ++ padding (String.length binary)).

(** Bytes of a sequence of 6-bit groups; the bits left over in a final
    group of two or three are dropped. *)
Fixpoint unsextets (l : list Z) : list Z :=
  match l with
  | s1 :: s2 :: s3 :: s4 :: r =>
      s1 * 4 + s2 / 16 :: (s2 mod 16) * 16 + s3 / 4 :: (s3 mod 4) * 64 + s4
        :: unsextets r
  | [s1; s2; s3] => [s1 * 4 + s2 / 16; (s2 mod 16) * 16 + s3 / 4]
  | [s1; s2] => [s1 * 4 + s2 / 16]
  | _ => []
  end.

Definition is_ascii_whitespace (c : ascii) : bool :=
  let n := charCode c in
  (n =? 9) || (n =? 10) || (n =? 12) || (n =? 13) || (n =? 32).

(** A trailing [=] is removed, if there is one. *)
Definition drop_trailing_eq (l : list ascii) : option (list ascii) :=
  match rev l with
  | c :: r => if Ascii.eqb c "=" then Some (rev r) else None
  | [] => None
  end.

(** One or two trailing [=] are removed. *)
Definition strip_padding (l : list ascii) : list ascii :=
  match drop_trailing_eq l with
  | Some l1 => default l1 (drop_trailing_eq l1)
  | None => l
  end.

(** The first steps of the forgiving base64 decoder: whitespace is
    removed, then padding when the length is a multiple of four. *)
Definition forgiving_prepare (l : list ascii) : list ascii :=
  let data := filter (λ c, is_ascii_whitespace c = false) l in
  if (List.length data mod 4 =? 0)%nat then strip_padding data else data.

(** [atob] of the platform (the forgiving base64 decoder): after the
    preparation, a length of 4k+1 or a character outside the alphabet is
    an error ([None] stands for the thrown [InvalidCharacterError]). *)
Definition atob (b64 : string) : option string :=
  let data := forgiving_prepare (chars b64) in
  if (List.length data mod 4 =? 1)%nat then None
  else vals ← mapM dec_char data;
       Some (str (fromCharCode <$> unsextets vals)).

Definition is_octet (x : Z) : Prop := 0 <= x < 256.
Definition is_sextet (x : Z) : Prop := 0 <= x < 64.

End Base64.

(** [toBase64]: the loop appends one character per byte, then [btoa]. *)
Definition toBase64 (data : Uint8Array) : string :=
  let binary :=
    fold_left (λ binary b, binary +:+ String (fromCharCode (byte_to_Z b)) EmptyString)
              data EmptyString in
  Base64.btoa binary.

(** [fromBase64]: [atob], then each code unit is stored in a fresh
    zero-filled array of the same length. *)
Definition fromBase64 (b64 : string) : option Uint8Array :=
  binary ← Base64.atob b64;
  let n := String.length binary in
  Some (fold_left
          (λ bytes i, <[i := byte_of_Z (charCode (nth i (chars binary) "000"%char))]> bytes)
          (seq 0 n) (replicate n "000"%byte)).

(** ** Exceptions and counted loops *)

(** A thrown value, reduced to what the handlers look at: [error.name] and
    [error.message] (for a thrown value that is no [Error], the name is
    empty and the message is [String(error)]). *)
Record JsError := mkError { err_name : string; err_message : string }.

Inductive result (A : Type) : Type :=
| Ok (a : A)
| Throw (e : JsError).
Arguments Ok {A} a.
Arguments Throw {A} e.

Definition RangeError (msg : string) : JsError := mkError "RangeError" msg.

(** [for (let i = i0; ...; i++) body], for [n] iterations; a [continue] in
    the body is a body that returns its state unchanged, a thrown error
    leaves the loop. *)
Fixpoint for_loop {S : Type} (n : nat) (i : Z) (body : Z → S → result S)
    (s : S) : result S :=
  match n with
  | O => Ok s
  | S n' => match body i s with
            | Ok s' => for_loop n' (i + 1) body s'
            | Throw e => Throw e
            end
  end.

(** [for (let i = lo; i < hi; i++) body]. *)
Definition for_range {S : Type} (lo hi : Z) (body : Z → S → result S)
    (s : S) : result S :=
  for_loop (Z.to_nat (hi - lo)) lo body s.

(** ** Bitmaps of the ImageScript library

    An [Image] is its dimensions and one RGBA value (a 32-bit unsigned
    number) per pixel, row by row.  Pixel coordinates start at 1; both
    accessors throw a [RangeError] outside the image. *)

Module ImageScript.

Record Image := mkImage { width : Z; height : Z; bitmap : list Z }.

Definition ToUint32 (v : Z) : Z := v mod 2 ^ 32.

(** [new Image(w, h)]: all pixels zero. *)
Definition new_Image (w h : Z) : Image :=
  mkImage w h (replicate (Z.to_nat (w * h)) 0).

(** [image.fill(color)]. *)
Definition fill (img : Image) (color : Z) : Image :=
  mkImage (width img) (height img) ((λ _, ToUint32 color) <$> bitmap img).

Definition in_bounds (img : Image) (x y : Z) : bool :=
  (1 <=? x) && (x <=? width img) && (1 <=? y) && (y <=? height img).

Definition offset_of (img : Image) (x y : Z) : nat :=
  Z.to_nat ((y - 1) * width img + (x - 1)).

Definition getPixelAt (img : Image) (x y : Z) : result Z :=
  if in_bounds img x y
  then Ok (default 0 (bitmap img !! offset_of img x y))
  else Throw (RangeError "Tried referencing a pixel outside of the images boundaries").

Definition setPixelAt (img : Image) (x y : Z) (pixel : Z) : result Image :=
  if in_bounds img x y
  then Ok (mkImage (width img) (height img)
                   (<[offset_of img x y := ToUint32 pixel]> (bitmap img)))
  else Throw (RangeError "Tried referencing a pixel outside of the images boundaries").

(** The pixel at [(x, y)], for statements about a bitmap. *)
Definition pix (img : Image) (x y : Z) : Z :=
  default 0 (bitmap img !! offset_of img x y).

(** What the decoders of the library return: at least one pixel in each
    direction, one 32-bit value per pixel. *)
Definition well_formed (img : Image) : Prop :=
  1 <= width img ∧ 1 <= height img
  ∧ Z.of_nat (List.length (bitmap img)) = width img * height img
  ∧ Forall (λ p, 0 <= p < 2 ^ 32) (bitmap img).

End ImageScript.
Import ImageScript.

(** ** The integer upscale of [renderRasterPreview] *)

Definition targetSize : Z := 1200.

Definition rawScale (w h : Z) : Z := Z.max 2 (targetSize / Z.max w h).

(** [Math.min(rawScale, floor(1200 / width), floor(1200 / height))]. *)
Definition scale (w h : Z) : Z :=
  Z.min (rawScale w h) (Z.min (targetSize / w) (targetSize / h)).

Definition scaledWidth (w h : Z) : Z := w * scale w h.
Definition scaledHeight (w h : Z) : Z := h * scale w h.
Definition offsetX (w h : Z) : Z := (targetSize - scaledWidth w h) / 2.
Definition offsetY (w h : Z) : Z := (targetSize - scaledHeight w h) / 2.

(** The body of the [try] block between decoding and encoding: the output
    canvas is created transparent and every source pixel is copied to a
    block of [scale] by [scale] pixels. *)
Definition upscale (sourceImage : Image) : result Image :=
  let w := width sourceImage in
  let h := height sourceImage in
  let scale := scale w h in
  let offsetX := offsetX w h in
  let offsetY := offsetY w h in
  let outputImage := fill (new_Image targetSize targetSize) 0 in
  for_range 0 h (λ y outputImage,
    for_range 0 w (λ x outputImage,
      match getPixelAt sourceImage (x + 1) (y + 1) with
      | Throw e => Throw e
      | Ok pixel =>
        for_range 0 scale (λ dy outputImage,
          let py := offsetY + y * scale + dy + 1 in
          if (py <? 1) || (py >? targetSize) then Ok outputImage
          else
            for_range 0 scale (λ dx outputImage,
              let px := offsetX + x * scale + dx + 1 in
              if (px <? 1) || (px >? targetSize) then Ok outputImage
              else setPixelAt outputImage px py pixel) outputImage)
          outputImage
      end) outputImage) outputImage.

(** The pixel that the upscale is meant to leave at [(px, py)] of the
    canvas: inside the centred copy, the source pixel of the block the point
    lies in; outside, transparent. *)
Definition upscaled_pixel (sourceImage : Image) (px py : Z) : Z :=
  let w := width sourceImage in
  let h := height sourceImage in
  let s := scale w h in
  let ox := offsetX w h in
  let oy := offsetY w h in
  if bool_decide (ox + 1 <= px < ox + 1 + w * s ∧ oy + 1 <= py < oy + 1 + h * s)
  then pix sourceImage ((px - ox - 1) / s + 1) ((py - oy - 1) / s + 1)
  else 0.

(** A canvas: a bitmap of [targetSize] by [targetSize] pixels. *)
Definition is_canvas (img : Image) : Prop :=
  width img = targetSize ∧ height img = targetSize
  ∧ Z.of_nat (List.length (bitmap img)) = targetSize * targetSize.

Definition on_canvas (x y : Z) : Prop :=
  1 <= x <= targetSize ∧ 1 <= y <= targetSize.

(** [img'] is the canvas [img] with the pixels of the region [R] set to the
    values [v], and nothing else changed. *)
Definition paints (img img' : Image) (R : Z → Z → Prop) (v : Z → Z → Z) : Prop :=
  is_canvas img'
  ∧ ∀ qx qy, on_canvas qx qy →
      (R qx qy → pix img' qx qy = v qx qy)
      ∧ (¬ R qx qy → pix img' qx qy = pix img qx qy).

(** ** Strings of the platform *)

(** [s.includes(x)]. *)
Fixpoint includes (s x : string) : bool :=
  String.prefix x s
  || match s with
     | EmptyString => false
     | String _ s' => includes s' x
     end.

(** [s.startsWith(x)]. *)
Definition startsWith (s x : string) : bool := String.prefix x s.

(** [s.toLowerCase()], on the letters A to Z (no other character of a
    string becomes a letter of the markers searched below). *)
Definition lower (c : ascii) : ascii :=
  let n := charCode c in
  if (65 <=? n) && (n <=? 90) then fromCharCode (n + 32) else c.

Definition toLowerCase (s : string) : string := str (lower <$> chars s).

(** [n.toString()] of an integer, and [x || d] on strings. *)
Definition toString (n : Z) : string := pretty n.

Definition or_else (s d : string) : string :=
  if String.eqb s EmptyString then d else s.

(** ** The collaborators of the pipeline

    Everything outside the file is an oracle of the environment: the stamp
    lookup, the content server, the rendering worker, the ImageScript codec
    and the resvg rasterizer.  An oracle is a function: within one request
    a collaborator gives one answer to one question (the worker is asked by
    request and attempt number, the clock by the number of the reading).
    Calls that matter to the routing are recorded as events. *)

Record CfParams := mkCfParams {
  cf_url : option string;
  cf_html : option string;
  cf_viewport : option (Z * Z);
  cf_delay : option Z;
  cf_timeout : option Z
}.

Record HttpResponse := mkResponse {
  status : Z;
  arrayBuffer : result Uint8Array;
  text : string
}.

(** [response.ok]. *)
Definition ok (r : HttpResponse) : bool :=
  (200 <=? status r) && (status r <=? 299).

Record StampData := mkStamp {
  stamp_url : string;
  stamp_mimetype : option string;
  stamp : option Z
}.

Inductive Event :=
| EvLookup (identifier : string)
| EvFetch (url : string)
| EvCfPost (params : CfParams) (fetchTimeout : Z)
| EvSleep (ms : Z)
| EvResvg (svgContent : string).

(** The outcome of the vector path after the markup has been fetched. *)
Record ResvgOutput := mkResvg {
  resvg_png : Uint8Array;
  resvg_width : Z;
  resvg_height : Z;
  resvg_background : string
}.

Record Env := mkEnv {
  isCfWorkerConfigured : bool;
  (** [StampController.getSpecificStamp]; [None] is a stamp not found. *)
  getSpecificStamp : string → result (option StampData);
  (** [fetch(url)] of the stamp content. *)
  fetch : string → result HttpResponse;
  (** The POST to the rendering worker, by request and attempt number; a
      request aborted by the timer is a thrown [AbortError]. *)
  cf_worker : CfParams → Z → result HttpResponse;
  GIF_decode : Uint8Array → result (list Image);
  Image_decode : Uint8Array → result Image;
  (** [image.encode(9)], as it answers during this request: the library
      writes the time of the call into the file. *)
  Image_encode : Image → result Uint8Array;
  (** Resize, composite on a transparent canvas and encode, as done by
      [centerOnCanvas] with the library's smooth interpolation. *)
  Image_center : Image → result Uint8Array;
  (** The vector path from the fetched markup to the PNG, given the
      markup and the animation flag: WASM initialisation, animation
      stripping, the sizing helpers of [svgUtils.ts], wrapping and the
      resvg call. *)
  resvg_render : string → bool → result ResvgOutput;
  cleanHtmlForRendering : string → string;
  (** Two double-precision computations of the waveform, as the engine
      evaluates them: the height of bar [i] for the random draw [r],
      [Math.floor(maxBarHeight * (Math.sin(i / barCount * Math.PI) * 0.7 + 0.3)
      * (0.3 + r / 1000))], and the half width of the play icon at [row],
      [Math.floor(((row + triSize) / (triSize * 2)) * triSize)]. *)
  barHeight : Z → Z → Z;
  halfWidth : Z → Z;
  (** [Date.now()], by the number of readings taken before. *)
  Date_now : nat → Z
}.

(** ** Computations: a trace of events and a value or a thrown error *)

Definition M (A : Type) : Type := (list Event * result A)%type.

Global Instance M_ret : MRet M := λ A a, ([], Ok a).
Global Instance M_bind : MBind M := λ A B k m,
  match m with
  | (t, Ok a) => let '(t', r) := k a in (t ++ t', r)
  | (t, Throw e) => (t, Throw e)
  end.

Definition emit (e : Event) : M unit := ([e], Ok tt).
Definition lift {A} (r : result A) : M A := ([], r).

(** [try { m } catch (e) { h e }]. *)
Definition try_catch {A} (m : M A) (h : JsError → M A) : M A :=
  match m with
  | (t, Throw e) => let '(t', r) := h e in (t ++ t', r)
  | _ => m
  end.

Definition events {A} (m : M A) : list Event := m.1.
Definition outcome {A} (m : M A) : result A := m.2.

(** ** The client of the rendering worker *)

Definition maxRetries : Z := 2.
Definition retryDelays : list Z := [2000; 4000].

(** [retryDelays[attempt]]; a missing entry makes the timer fire at once. *)
Definition retryDelay (attempt : Z) : Z :=
  default 0 (retryDelays !! Z.to_nat attempt).

Definition isAbort (e : JsError) : bool :=
  includes (toLowerCase (err_message e)) "abort"
  || String.eqb (err_name e) "AbortError"
  || String.eqb (err_name e) "TimeoutError".

Definition isRetryable (e : JsError) : bool :=
  negb (isAbort e)
  && (includes (err_message e) "network"
      || includes (err_message e) "ECONNREFUSED"
      || includes (err_message e) "ETIMEDOUT").

(** The [for] loop of [renderWithCloudflare], with [fuel] iterations left. *)
Fixpoint cf_attempts (env : Env) (params : CfParams) (fetchTimeout : Z)
    (fuel : nat) (attempt : Z) : M (option Uint8Array) :=
  match fuel with
  | O => mret None
  | S fuel' =>
    let retry_or_fail (retryable : bool) : M (option Uint8Array) :=
      if retryable && (attempt <? maxRetries)
      then _ ← emit (EvSleep (retryDelay attempt));
           cf_attempts env params fetchTimeout fuel' (attempt + 1)
      else mret None in
    _ ← emit (EvCfPost params fetchTimeout);
    match cf_worker env params attempt with
    | Throw error => retry_or_fail (isRetryable error)
    | Ok response =>
      if ok response then
        match arrayBuffer response with
        | Ok buffer => mret (Some buffer)
        | Throw error => retry_or_fail (isRetryable error)
        end
      else retry_or_fail (500 <=? status response)
    end
  end.

Definition renderWithCloudflare (env : Env) (params : CfParams)
    : M (option Uint8Array) :=
  if negb (isCfWorkerConfigured env) then mret None
  else
    let fetchTimeout := default 30000 (cf_timeout params) in
    cf_attempts env params fetchTimeout (Z.to_nat (maxRetries + 1)) 0.

(** The request sent at each attempt, and the events of a call that made
    [n] attempts: the backoff of [retryDelays] lies between them. *)
Definition cf_post (params : CfParams) : Event :=
  EvCfPost params (default 30000 (cf_timeout params)).

Definition attempts_trace (params : CfParams) (n : nat) : list Event :=
  match n with
  | 0%nat => []
  | 1%nat => [cf_post params]
  | 2%nat => [cf_post params; EvSleep 2000; cf_post params]
  | _ => [cf_post params; EvSleep 2000; cf_post params; EvSleep 4000;
          cf_post params]
  end.

(** The events of [n] attempts, the first of which has number [attempt]. *)
Fixpoint trace_from (params : CfParams) (n : nat) (attempt : Z) : list Event :=
  match n with
  | O => []
  | S n' =>
    cf_post params ::
      match n' with
      | O => []
      | S _ => EvSleep (retryDelay attempt) :: trace_from params n' (attempt + 1)
      end
  end.

(** Outcomes of one attempt: a response with a status of 500 or more or a
    thrown error recognised as a network error; a response with a 4xx
    status or a thrown abort or timeout. *)
Definition server_or_network_error (o : result HttpResponse) : Prop :=
  match o with
  | Ok response => 500 <= status response
  | Throw error => isRetryable error = true
  end.

Definition client_error_or_abort (o : result HttpResponse) : Prop :=
  match o with
  | Ok response => 400 <= status response <= 499
  | Throw error => isAbort error = true
  end.

(** ** Previews and their metadata *)

Record CachedPreview := mkPreview {
  png : string;
  meta : gmap string string
}.

(** [stampNumber?.toString() || "unknown"]. *)
Definition stampLabel (stampNumber : option Z) : string :=
  or_else (default EmptyString (toString <$> stampNumber)) "unknown".

Definition set_meta (k v : string) (p : CachedPreview) : CachedPreview :=
  mkPreview (png p) (<[k := v]> (meta p)).

Definition viewport1200 : option (Z * Z) := Some (1200, 1200).

(** [centerOnCanvas]: decode the screenshot, centre it on the canvas,
    encode, describe.  No caller passes [contentBounds]. *)
Definition centerOnCanvas (env : Env) (screenshotBuffer : Uint8Array)
    (stampNumber : option Z) (stamp_mimetype method : string)
    : M CachedPreview :=
  sourceImage ← lift (Image_decode env screenshotBuffer);
  pngBuffer ← lift (Image_center env sourceImage);
  mret (mkPreview (toBase64 pngBuffer)
    (<["X-Stamp-Number" := stampLabel stampNumber]>
     (<["X-Original-Type" := stamp_mimetype]>
     (<["X-Conversion-Method" := method]>
     (<["X-Content-Size" :=
          toString (width sourceImage) +:+ "x" +:+ toString (height sourceImage)]>
     (<["X-Dimensions" := "1200x1200"%string]> ∅)))))).

(** ** Raster stamps *)

Definition renderRasterPreview (env : Env) (stamp_url stamp_mimetype : string)
    (stampNumber : option Z) : M (option CachedPreview) :=
  _ ← emit (EvFetch stamp_url);
  imageResponse ← lift (fetch env stamp_url);
  if negb (ok imageResponse) then mret None
  else
    imageBytes ← lift (arrayBuffer imageResponse);
    try_catch
      (decoded ←
         (if String.eqb stamp_mimetype "image/gif"
          then gif ← lift (GIF_decode env imageBytes); mret (head gif)
          else sourceImage ← lift (Image_decode env imageBytes);
               mret (Some sourceImage));
       match decoded with
       | None => mret None
       | Some sourceImage =>
         outputImage ← lift (upscale sourceImage);
         pngBuffer ← lift (Image_encode env outputImage);
         mret (Some (mkPreview (toBase64 pngBuffer)
           (<["X-Stamp-Number" := stampLabel stampNumber]>
            (<["X-Original-Type" := stamp_mimetype]>
            (<["X-Conversion-Method" := "imagescript-upscale"%string]>
            (<["X-Original-Size" :=
                 toString (width sourceImage) +:+ "x"
                   +:+ toString (height sourceImage)]>
            (<["X-Scale-Factor" :=
                 toString (scale (width sourceImage) (height sourceImage))]>
            (<["X-Dimensions" := "1200x1200"%string]> ∅))))))))
       end)
      (λ upscaleError, mret None).

(** The page given to the worker for a raster stamp that ImageScript
    could not decode. *)
Definition dq : string := String "034" EmptyString.

Definition imageHtml_head : string :=
  "<!DOCTYPE html>
<html><head><style>
  * { margin: 0; padding: 0; }
  body { background: transparent; display: flex; align-items: center; justify-content: center; width: 1200px; height: 1200px; overflow: hidden; }
  img { max-width: 100%; max-height: 100%; object-fit: contain; image-rendering: pixelated; }
</style></head><body>
<img src=" +:+ dq.

Definition imageHtml_tail : string :=
  dq +:+ " />
</body></html>".

Definition imageHtml (stamp_url : string) : string :=
  imageHtml_head +:+ stamp_url +:+ imageHtml_tail.

Definition renderImageWithChrome (env : Env) (stamp_url stamp_mimetype : string)
    (stampNumber : option Z) : M (option CachedPreview) :=
  cfBuffer ← renderWithCloudflare env
    (mkCfParams None (Some (imageHtml stamp_url)) viewport1200 (Some 2000) None);
  match cfBuffer with
  | Some cfBuffer =>
    result ← centerOnCanvas env cfBuffer stampNumber stamp_mimetype
               "cloudflare-browser";
    mret (Some (set_meta "X-Rendering-Engine" "cloudflare-worker" result))
  | None => mret None
  end.

(** ** Vector stamps *)

Definition renderSvgWithChrome (env : Env) (stamp_url stamp_mimetype : string)
    (stampNumber : option Z) : M (option CachedPreview) :=
  cfBuffer ← renderWithCloudflare env
    (mkCfParams (Some stamp_url) None viewport1200 None None);
  match cfBuffer with
  | Some cfBuffer =>
    result ← centerOnCanvas env cfBuffer stampNumber stamp_mimetype
               "cloudflare-browser";
    mret (Some (set_meta "X-ForeignObject" "true"
                 (set_meta "X-Rendering-Engine" "cloudflare-worker" result)))
  | None => mret None
  end.

Definition hasAnimations (svgContent : string) : bool :=
  includes svgContent "@keyframes"
  || includes svgContent "animation:"
  || includes svgContent "animation-".

Definition renderSvgPreview (env : Env) (stamp_url stamp_mimetype : string)
    (stampNumber : option Z) : M (option CachedPreview) :=
  _ ← emit (EvFetch stamp_url);
  svgResponse ← lift (fetch env stamp_url);
  if negb (ok svgResponse) then mret None
  else
    let svgContent := text svgResponse in
    if includes svgContent "<foreignObject"
    then renderSvgWithChrome env stamp_url stamp_mimetype stampNumber
    else
      _ ← emit (EvResvg svgContent);
      pngData ← lift (resvg_render env svgContent (hasAnimations svgContent));
      mret (Some (mkPreview (toBase64 (resvg_png pngData))
        (<["X-Stamp-Number" := stampLabel stampNumber]>
         (<["X-Original-Type" := stamp_mimetype]>
         (<["X-Conversion-Method" := "resvg-wasm"%string]>
         (<["X-Background" := or_else (resvg_background pngData) "transparent"]>
         (<["X-Dimensions" :=
              toString (resvg_width pngData) +:+ "x"
                +:+ toString (resvg_height pngData)]>
         (<["X-Animations-Stripped" :=
              if hasAnimations svgContent then "true"%string else "false"%string]>
          ∅)))))))).

(** ** Markup stamps: the content sniffing of [renderHtmlPreview] *)

Definition is_quote (c : ascii) : bool :=
  Ascii.eqb c "034" || Ascii.eqb c "'".

(** The class [\s] on code units below 256. *)
Definition is_space (c : ascii) : bool :=
  let n := charCode c in
  ((9 <=? n) && (n <=? 13)) || (n =? 32) || (n =? 160).

Definition is_digit (c : ascii) : bool :=
  let n := charCode c in (48 <=? n) && (n <=? 57).

Fixpoint skip_spaces (l : list ascii) : list ascii :=
  match l with
  | c :: r => if is_space c then skip_spaces r else l
  | [] => []
  end.

(** The longest prefix of characters satisfying [p], and the rest. *)
Fixpoint span (p : ascii → bool) (l : list ascii) : list ascii * list ascii :=
  match l with
  | c :: r => if p c then let '(a, b) := span p r in (c :: a, b) else ([], l)
  | [] => ([], [])
  end.

(** The pattern [src\s*=\s*Q] matched at the head of [l], where [Q] is a
    single or a double quote: what follows the quote. *)
Definition match_src_quote (l : list ascii) : option (list ascii) :=
  match l with
  | c1 :: c2 :: c3 :: r1 =>
    if Ascii.eqb c1 "s" && Ascii.eqb c2 "r" && Ascii.eqb c3 "c" then
      match skip_spaces r1 with
      | e :: r2 =>
        if Ascii.eqb e "=" then
          match skip_spaces r2 with
          | q :: r3 => if is_quote q then Some r3 else None
          | [] => None
          end
        else None
      | [] => None
      end
    else None
  | _ => None
  end.

(** The leftmost position of [l] at which [f] matches. *)
Fixpoint first_match {A} (f : list ascii → option A) (l : list ascii)
    : option A :=
  match f l with
  | Some a => Some a
  | None => match l with
            | _ :: r => first_match f r
            | [] => None
            end
  end.

(** The test of the pattern [src\s*=\s*Q/] on [rawHtml]. *)
Definition hasRelativeScriptSrc (rawHtml : string) : bool :=
  bool_decide (is_Some (first_match
    (λ l, match match_src_quote l with
          | Some (c :: _) => if Ascii.eqb c "/" then Some tt else None
          | _ => None
          end) (chars rawHtml))).

(** The pattern [QA\d{10,}Q] matched at the head of [l]. *)
Definition match_cpid (l : list ascii) : option unit :=
  match l with
  | q :: a :: r =>
    if is_quote q && Ascii.eqb a "A" then
      match span is_digit r with
      | (ds, q' :: _) =>
        if (10 <=? List.length ds)%nat && is_quote q' then Some tt else None
      | _ => None
      end
    else None
  | _ => None
  end.

(** The test of the pattern [Q/s/] or of the pattern [QA\d{10,}Q] on
    [rawHtml]. *)
Definition hasStampContentRef (rawHtml : string) : bool :=
  includes rawHtml (dq +:+ "/s/") || includes rawHtml "'/s/"
  || bool_decide (is_Some (first_match match_cpid (chars rawHtml))).

Definition hasIframe (rawHtml : string) : bool := includes rawHtml "<iframe".

Definition hasExternalRef (rawHtml : string) : bool :=
  includes rawHtml "ordinals.com/" || includes rawHtml "arweave.net/"
  || includes rawHtml "github.io/".

Definition isRecursive (rawHtml : string) : bool :=
  hasIframe rawHtml || hasExternalRef rawHtml || hasRelativeScriptSrc rawHtml
  || hasStampContentRef rawHtml.

Definition hasCanvas (rawHtml : string) : bool :=
  includes rawHtml "<canvas" || includes rawHtml "getContext".

Definition hasAnimation (rawHtml : string) : bool :=
  includes rawHtml "requestAnimationFrame" || includes rawHtml "@keyframes"
  || includes rawHtml "setInterval".

Definition hasAsyncLoad (rawHtml : string) : bool :=
  includes rawHtml "async" || includes rawHtml "await"
  || includes rawHtml ".then(".

Definition isSimpleIframe (rawHtml : string) : bool :=
  hasIframe rawHtml && negb (hasCanvas rawHtml) && negb (hasAnimation rawHtml)
  && negb (hasAsyncLoad rawHtml) && (String.length rawHtml <? 500)%nat.

Definition isComplex (stamp_url rawHtml : string) : bool :=
  (isRecursive rawHtml && negb (isSimpleIframe rawHtml))
  || includes stamp_url "recursive" || includes stamp_url "fractal"
  || hasCanvas rawHtml.

Definition delay (stamp_url rawHtml : string) : Z :=
  if isComplex stamp_url rawHtml then 8000 else 3000.

(** [s.split(sep).pop()]: what follows the last separator found by the
    left-to-right scan; [skip] counts the characters of a separator still
    to be passed over, [acc] holds the current segment in reverse. *)
Fixpoint last_segment (sep : string) (l : list ascii) (skip : nat)
    (acc : list ascii) : list ascii :=
  match l with
  | [] => rev acc
  | c :: r =>
    match skip with
    | S k => last_segment sep r k acc
    | O => if String.prefix sep (str l)
           then last_segment sep r (String.length sep - 1) []
           else last_segment sep r 0 (c :: acc)
    end
  end.

Definition endsWith (s x : string) : bool :=
  String.prefix (str (rev (chars x))) (str (rev (chars s))).

Definition drop_end (n : nat) (s : string) : string :=
  str (take (String.length s - n) (chars s)).

(** [s.replace(/\.html?$/i, empty)]: a final [.htm] or [.html], in any
    case, is removed. *)
Definition strip_html_extension (s : string) : string :=
  if endsWith (toLowerCase s) ".html" then drop_end 5 s
  else if endsWith (toLowerCase s) ".htm" then drop_end 4 s
  else s.

Definition txHash (stamp_url : string) : string :=
  strip_html_extension (str (last_segment "/stamps/" (chars stamp_url) 0 [])).

Definition contentUrl (stamp_url : string) : string :=
  if String.eqb (txHash stamp_url) EmptyString then stamp_url
  else "https://stampchain.io/content/" +:+ txHash stamp_url.

(** The first capture of the leftmost match of [src\s*=\s*Q(N+)Q] in
    [rawHtml], where [N] is any character but a quote. *)
Definition iframeSrcMatch (rawHtml : string) : option string :=
  first_match
    (λ l, match match_src_quote l with
          | Some r =>
            match span (λ c, negb (is_quote c)) r with
            | (c :: cs, _ :: _) => Some (str (c :: cs))
            | _ => None
            end
          | None => None
          end) (chars rawHtml).

Definition renderUrl (stamp_url rawHtml : string) : string :=
  if isSimpleIframe rawHtml then
    match iframeSrcMatch rawHtml with
    | Some iframeSrc =>
      if startsWith iframeSrc "/" then "https://stampchain.io" +:+ iframeSrc
      else iframeSrc
    | None => contentUrl stamp_url
    end
  else contentUrl stamp_url.

Definition MIN_VALID_PNG_SIZE : Z := 5000.

Definition byteLength (b : Uint8Array) : Z := Z.of_nat (List.length b).

Definition renderHtmlPreview (env : Env) (stamp_url stamp_mimetype : string)
    (stampNumber : option Z) : M (option CachedPreview) :=
  if negb (isCfWorkerConfigured env) then mret None
  else
    try_catch
      (_ ← emit (EvFetch stamp_url);
       htmlResponse ← lift (fetch env stamp_url);
       if negb (ok htmlResponse) then mret None
       else
         let rawHtml := text htmlResponse in
         let isRecursive := isRecursive rawHtml in
         let isComplex := isComplex stamp_url rawHtml in
         let delay := delay stamp_url rawHtml in
         let contentUrl := contentUrl stamp_url in
         let renderUrl := renderUrl stamp_url rawHtml in
         cfBuffer ←
           (if isRecursive
            then renderWithCloudflare env
                   (mkCfParams (Some renderUrl) None viewport1200
                               (Some delay) (Some 45000))
            else renderWithCloudflare env
                   (mkCfParams None (Some (cleanHtmlForRendering env rawHtml))
                               viewport1200 (Some delay) None));
         cfBuffer ←
           match cfBuffer with
           | Some buffer =>
             if (byteLength buffer <? MIN_VALID_PNG_SIZE) && negb isRecursive
             then renderWithCloudflare env
                    (mkCfParams (Some contentUrl) None viewport1200
                                (Some 8000) (Some 45000))
             else mret cfBuffer
           | None => mret cfBuffer
           end;
         match cfBuffer with
         | Some buffer =>
           if MIN_VALID_PNG_SIZE <=? byteLength buffer then
             result ← centerOnCanvas env buffer stampNumber stamp_mimetype
                        "cloudflare-browser";
             mret (Some
               (set_meta "X-Recursive"
                  (if isRecursive then "true" else "false")
               (set_meta "X-Rendering-Engine" "cloudflare-worker"
               (set_meta "X-Render-Time"
                  (if isComplex then "extended" else "standard") result))))
           else mret None
         | None => mret None
         end)
      (λ error, mret None).

(** ** Video stamps *)

Definition videoHtml (stamp_url : string) : string :=
  "<!DOCTYPE html>
<html><head><style>
  * { margin: 0; padding: 0; }
  body { background: #14001f; display: flex; align-items: center; justify-content: center; width: 1200px; height: 1200px; overflow: hidden; }
  video { max-width: 100%; max-height: 100%; object-fit: contain; }
</style></head><body>
<video src=" +:+ dq +:+ stamp_url +:+ dq +:+ " muted preload=" +:+ dq
  +:+ "auto" +:+ dq +:+ " autoplay></video>
<script>
  const v = document.querySelector('video');
  v.addEventListener('loadeddata', () => { v.pause(); v.currentTime = 0; });
</script></body></html>".

Definition renderVideoPreview (env : Env) (stamp_url stamp_mimetype : string)
    (stampNumber : option Z) : M (option CachedPreview) :=
  cfBuffer ← renderWithCloudflare env
    (mkCfParams None (Some (videoHtml stamp_url)) viewport1200 (Some 3000) None);
  match cfBuffer with
  | Some cfBuffer =>
    result ← centerOnCanvas env cfBuffer stampNumber stamp_mimetype
               "cloudflare-browser-video";
    mret (Some result)
  | None => mret None
  end.

(** ** Audio stamps: the waveform *)

Definition ToInt32 (x : Z) : Z :=
  let m := x mod 2 ^ 32 in if m <? 2 ^ 31 then m else m - 2 ^ 32.

(** The double nearest to an integer (ties to even): integers below
    [2^53] in magnitude are exact, larger ones keep 53 significant bits. *)
Definition round_to_double (z : Z) : Z :=
  let a := Z.abs z in
  if a <? 2 ^ 53 then z
  else
    let e := Z.log2 a - 52 in
    let q := a / 2 ^ e in
    let r := a mod 2 ^ e in
    let half := 2 ^ (e - 1) in
    let q' := if r <? half then q
              else if half <? r then q + 1
              else if Z.even q then q else q + 1 in
    Z.sgn z * (q' * 2 ^ e).

(** The seed: [seed = ((seed << 5) - seed + stamp_url.charCodeAt(i)) | 0]
    over the characters of the URL. *)
Definition audio_seed (stamp_url : string) : Z :=
  fold_left (λ seed c, ToInt32 (ToInt32 (seed * 32) - seed + charCode c))
            (chars stamp_url) 0.

(** One step of the generator:
    [seed = (seed * 1103515245 + 12345) & 0x7fffffff], computed on doubles. *)
Definition next_seed (seed : Z) : Z :=
  Z.land
    (ToInt32 (round_to_double (round_to_double (seed * 1103515245) + 12345)))
    0x7fffffff.

Definition barCount : Z := 64.
(** [Math.floor(targetSize * 0.7 / barCount)]. *)
Definition barWidth : Z := 13.
Definition gap : Z := 2.
Definition totalWidth : Z := barCount * (barWidth + gap).
Definition startX : Z := (targetSize - totalWidth) / 2.
(** [Math.floor(targetSize * 0.50)]. *)
Definition centerY : Z := 600.
Definition colors : list Z := [0xf59e0bff; 0xf97316ff; 0xef4444ff; 0xec4899ff].
Definition circleR : Z := 60.
Definition triSize : Z := 30.

(** [setPixelAt] behind the guard used for the circle and the triangle. *)
Definition plot (img : Image) (px py color : Z) : result Image :=
  if (1 <=? px) && (px <=? targetSize) && (1 <=? py) && (py <=? targetSize)
  then setPixelAt img px py color
  else Ok img.

(** The bars: the state of the loop is the seed and the image. *)
Definition draw_bars (env : Env) (seed : Z) (outputImage : Image)
    : result (Z * Image) :=
  for_range 0 barCount (λ i '(seed, outputImage),
    let seed := next_seed seed in
    let barHeight := barHeight env i (Z.rem seed 700) in
    let x := startX + i * (barWidth + gap) in
    let seed := next_seed seed in
    let color := default 0 (colors !! Z.to_nat (Z.rem seed 4)) in
    match
      for_range (- barHeight) (barHeight + 1) (λ dy outputImage,
        let py := centerY + dy in
        if (py <? 1) || (py >? targetSize) then Ok outputImage
        else
          for_range 0 barWidth (λ dx outputImage,
            let px := x + dx in
            if (px <? 1) || (px >? targetSize) then Ok outputImage
            else setPixelAt outputImage px py color) outputImage)
        outputImage
    with
    | Ok outputImage => Ok (seed, outputImage)
    | Throw e => Throw e
    end) (seed, outputImage).

Definition draw_circle (outputImage : Image) : result Image :=
  let cx := targetSize / 2 in
  let cy := centerY in
  for_range (- circleR) (circleR + 1) (λ dy outputImage,
    for_range (- circleR) (circleR + 1) (λ dx outputImage,
      if dx * dx + dy * dy <=? circleR * circleR
      then plot outputImage (cx + dx) (cy + dy) 0x14001fcc
      else Ok outputImage) outputImage) outputImage.

Definition draw_triangle (env : Env) (outputImage : Image) : result Image :=
  let cx := targetSize / 2 in
  let cy := centerY in
  for_range (- triSize) (triSize + 1) (λ row outputImage,
    for_range (-5) (halfWidth env row) (λ col outputImage,
      plot outputImage (cx + col + 8) (cy + row) 0xffffffff) outputImage)
    outputImage.

(** The picture as a function of the seed. *)
Definition waveform (env : Env) (seed : Z) : result Image :=
  match draw_bars env seed (fill (new_Image targetSize targetSize) 0x14001fff) with
  | Throw e => Throw e
  | Ok (_, outputImage) =>
    match draw_circle outputImage with
    | Throw e => Throw e
    | Ok outputImage => draw_triangle env outputImage
    end
  end.

Definition renderAudioPreview (env : Env) (stamp_url stamp_mimetype : string)
    (stampNumber : option Z) : M (option CachedPreview) :=
  outputImage ← lift (waveform env (audio_seed stamp_url));
  pngBuffer ← lift (Image_encode env outputImage);
  mret (Some (mkPreview (toBase64 pngBuffer)
    (<["X-Stamp-Number" := stampLabel stampNumber]>
     (<["X-Original-Type" := stamp_mimetype]>
     (<["X-Conversion-Method" := "imagescript-waveform"%string]>
     (<["X-Dimensions" := "1200x1200"%string]> ∅)))))).

(** ** The dispatcher *)

Definition isRasterType (stamp_mimetype : option string) : bool :=
  match stamp_mimetype with
  | Some m => startsWith m "image/" && negb (String.eqb m "image/svg+xml")
  | None => false
  end.

Definition renderPreview (env : Env) (stampIdentifier : string)
    : M (option CachedPreview) :=
  _ ← emit (EvLookup stampIdentifier);
  stampData ← lift (getSpecificStamp env stampIdentifier);
  match stampData with
  | None => mret None
  | Some stampData =>
    let stamp_url := stamp_url stampData in
    let stampNumber := stamp stampData in
    if String.eqb stamp_url EmptyString then mret None
    else
      match stamp_mimetype stampData with
      | None => mret None
      | Some stamp_mimetype =>
        if isRasterType (Some stamp_mimetype) then
          result ← renderRasterPreview env stamp_url stamp_mimetype stampNumber;
          match result with
          | Some result => mret (Some result)
          | None => renderImageWithChrome env stamp_url stamp_mimetype stampNumber
          end
        else if String.eqb stamp_mimetype "image/svg+xml" then
          renderSvgPreview env stamp_url stamp_mimetype stampNumber
        else if String.eqb stamp_mimetype "text/html" then
          renderHtmlPreview env stamp_url stamp_mimetype stampNumber
        else if startsWith stamp_mimetype "audio/" then
          renderAudioPreview env stamp_url stamp_mimetype stampNumber
        else if startsWith stamp_mimetype "video/" then
          renderVideoPreview env stamp_url stamp_mimetype stampNumber
        else mret None
      end
  end.

(** ** The Redis cache layer *)

(** What the cache holds under a key: a preview or the failure sentinel
    [{ failed: true, timestamp }]. *)
Inductive CacheValue :=
| Preview (p : CachedPreview)
| FailedRenderSentinel (timestamp : Z).

(** A call of [renderPreview] made by the cache layer, with its events. *)
Inductive LogEntry :=
| Rendered (stamp : string) (trace : list Event).

(** The state a request runs in: the store (a value and the time-to-live
    it was written with, per key), the number of clock readings taken, the
    renders started so far, and the request-local flag [wasRendered]. *)
Record State := mkState {
  cache : gmap string (CacheValue * Z);
  ticks : nat;
  renders : list LogEntry;
  wasRendered : bool
}.

Definition C (A : Type) : Type := State → result A * State.

Definition pure {A} (a : A) : C A := λ st, (Ok a, st).

Definition and_then {A B} (m : C A) (k : A → C B) : C B := λ st,
  match m st with
  | (Ok a, st') => k a st'
  | (Throw e, st') => (Throw e, st')
  end.

Notation "'let*' x ':=' m 'in' k" := (and_then m (λ x, k))
  (at level 10, x binder, k at level 200).

Definition now (env : Env) : C Z := λ st,
  (Ok (Date_now env (ticks st)),
   mkState (cache st) (S (ticks st)) (renders st) (wasRendered st)).

Definition set_wasRendered (b : bool) : C unit := λ st,
  (Ok tt, mkState (cache st) (ticks st) (renders st) b).

Definition get_wasRendered : C bool := λ st, (Ok (wasRendered st), st).

(** [await renderPreview(stamp)] from the cache layer. *)
Definition call_renderPreview (env : Env) (stamp : string)
    : C (option CachedPreview) := λ st,
  let '(trace, r) := renderPreview env stamp in
  (r, mkState (cache st) (ticks st) (renders st ++ [Rendered stamp trace])
              (wasRendered st)).

(** Modelled from the spec: [dbManager.invalidateCacheByPattern] of
    [databaseManager.ts], the [invalidate(keyPattern)] of the cache store;
    the pattern used here is a plain key. *)
Definition invalidateCacheByPattern (key : string) : C unit := λ st,
  (Ok tt, mkState (delete key (cache st)) (ticks st) (renders st)
                  (wasRendered st)).

(** Modelled from the spec: [dbManager.handleCache] of [databaseManager.ts],
    the check of the store that computes on a miss and persists the result:
    [get(key)] gives the stored value, otherwise [fetchData] runs and its
    result is written with [set(key, value, ttlSeconds)]. *)
Definition handleCache (key : string) (fetchData : C CacheValue) (ttl : Z)
    : C CacheValue := λ st,
  match cache st !! key with
  | Some (v, _) => (Ok v, st)
  | None =>
    match fetchData st with
    | (Ok v, st') =>
      (Ok v, mkState (<[key := (v, ttl)]> (cache st')) (ticks st')
                     (renders st') (wasRendered st'))
    | (Throw e, st') => (Throw e, st')
    end
  end.

Inductive Response :=
| redirect (location : string) (code : Z) (headers : gmap string string)
| binaryResponse (body : Uint8Array) (contentType : string)
                 (headers : gmap string string).

Definition FALLBACK_LOGO : string :=
  "https://stampchain.io/img/logo/stampchain-logo-opengraph.jpg".

Definition FAILED_RENDER_TTL : Z := 3600.

Definition CACHE_success : string := "public, max-age=31536000, immutable".
Definition CACHE_redirect : string := "public, max-age=86400".

Definition fallback (headers : gmap string string) : Response :=
  redirect FALLBACK_LOGO 302 (<["Cache-Control" := CACHE_redirect]> headers).

(** [Math.round(age / 1000)]. *)
Definition round_seconds (age : Z) : Z := (age + 500) / 1000.

(** [fromBase64] where a thrown error matters. *)
Definition decode_png (b64 : string) : C Uint8Array := λ st,
  match fromBase64 b64 with
  | Some bytes => (Ok bytes, st)
  | None => (Throw (mkError "InvalidCharacterError" "Failed to decode base64"), st)
  end.

Definition preview_response (p : CachedPreview) (xcache : string)
    : C Response :=
  let* pngBytes := decode_png (png p) in
  pure (binaryResponse pngBytes "image/png"
          (<["Cache-Control" := CACHE_success]>
             (<["X-Cache" := xcache]> (meta p)))).

(** The sentinel written when a render gave nothing. *)
Definition new_sentinel (env : Env) : C CacheValue :=
  let* t := now env in pure (FailedRenderSentinel t).

(** The key of a stamp in the store. *)
Definition cache_key (stamp : string) : string := "preview:" +:+ stamp.

Definition handleRedisPreview (env : Env) (stamp : string)
    (forceRefresh : bool) : C Response :=
  let cacheKey := cache_key stamp in
  let* _ := (if forceRefresh then invalidateCacheByPattern cacheKey
             else pure tt) in
  let* _ := set_wasRendered false in
  let* cached := handleCache cacheKey
    (let* _ := set_wasRendered true in
     let* result := call_renderPreview env stamp in
     match result with
     | Some result => pure (Preview result)
     | None => new_sentinel env
     end) 604800 in
  match cached with
  | FailedRenderSentinel timestamp =>
    let* t := now env in
    let age := t - timestamp in
    if age <? FAILED_RENDER_TTL * 1000 then
      pure (fallback
        (<["X-Fallback" := "cached-render-failure"%string]>
         (<["X-Failure-Age" := toString (round_seconds age) +:+ "s"]> ∅)))
    else
      let* _ := invalidateCacheByPattern cacheKey in
      let* freshResult := call_renderPreview env stamp in
      match freshResult with
      | Some freshResult =>
        if negb (String.eqb (png freshResult) EmptyString) then
          let* _ := handleCache cacheKey (pure (Preview freshResult)) 604800 in
          preview_response freshResult "retry-after-failure"
        else
          let* _ := handleCache cacheKey (new_sentinel env) 604800 in
          pure (fallback (<["X-Fallback" := "render-failed-retry"%string]> ∅))
      | None =>
        let* _ := handleCache cacheKey (new_sentinel env) 604800 in
        pure (fallback (<["X-Fallback" := "render-failed-retry"%string]> ∅))
      end
  | Preview cached =>
    if negb (String.eqb (png cached) EmptyString) then
      let* wasRendered := get_wasRendered in
      preview_response cached (if wasRendered then "rendered" else "redis-hit")
    else
      pure (fallback
        (<["X-Fallback" := "render-failed-or-unsupported"%string]> ∅))
  end.

(** ** Vocabulary of the properties *)

(** The event of the lightweight vector rasterizer. *)
Definition is_rasterizer_call (e : Event) : bool :=
  match e with
  | EvResvg _ => true
  | _ => false
  end.

(** The pixel decoder gives no image for the bytes of a raster stamp: the
    decoder of the type throws, or the GIF has no frame. *)
Definition decoder_fails (env : Env) (stamp_mimetype : string)
    (imageBytes : Uint8Array) : Prop :=
  if String.eqb stamp_mimetype "image/gif"
  then (∃ e, GIF_decode env imageBytes = Throw e)
       ∨ GIF_decode env imageBytes = Ok []
  else ∃ e, Image_decode env imageBytes = Throw e.

(** The image the decoder gives for the bytes of a raster stamp: the first
    frame of a GIF, the image otherwise. *)
Definition decoded_source (env : Env) (stamp_mimetype : string)
    (imageBytes : Uint8Array) : result (option Image) :=
  if String.eqb stamp_mimetype "image/gif"
  then match GIF_decode env imageBytes with
       | Ok gif => Ok (head gif)
       | Throw e => Throw e
       end
  else match Image_decode env imageBytes with
       | Ok sourceImage => Ok (Some sourceImage)
       | Throw e => Throw e
       end.

(** The request of [renderImageWithChrome] and of [renderSvgWithChrome]. *)
Definition image_request (stamp_url : string) : CfParams :=
  mkCfParams None (Some (imageHtml stamp_url)) viewport1200 (Some 2000) None.

Definition svg_request (stamp_url : string) : CfParams :=
  mkCfParams (Some stamp_url) None viewport1200 None None.

(** The first request of [renderHtmlPreview] for a fetched document. *)
Definition html_request (env : Env) (stamp_url rawHtml : string) : CfParams :=
  if isRecursive rawHtml
  then mkCfParams (Some (renderUrl stamp_url rawHtml)) None viewport1200
                  (Some (delay stamp_url rawHtml)) (Some 45000)
  else mkCfParams None (Some (cleanHtmlForRendering env rawHtml)) viewport1200
                  (Some (delay stamp_url rawHtml)) None.

(** The PNG of a render, in base64 as the cache holds it. *)
Definition preview_png (m : M (option CachedPreview)) : result (option string) :=
  match outcome m with
  | Ok p => Ok (png <$> p)
  | Throw e => Throw e
  end.

(** An environment with another clock. *)
Definition with_clock (env : Env) (clock : nat → Z) : Env :=
  mkEnv (isCfWorkerConfigured env) (getSpecificStamp env) (fetch env)
        (cf_worker env) (GIF_decode env) (Image_decode env) (Image_encode env)
        (Image_center env) (resvg_render env) (cleanHtmlForRendering env)
        (barHeight env) (halfWidth env) clock.

(** The state after the cache has been read and the clock consulted. *)
Definition after_check (st : State) : State :=
  mkState (cache st) (S (ticks st)) (renders st) false.

(** What is written under the key after the retry of an expired sentinel:
    the fresh preview, or a sentinel stamped with the next clock reading
    when the render produced none. *)
Definition persisted_after_retry (env : Env) (st : State)
    (freshResult : option CachedPreview) : CacheValue :=
  match freshResult with
  | Some p =>
    if String.eqb (png p) EmptyString
    then FailedRenderSentinel (Date_now env (S (ticks st)))
    else Preview p
  | None => FailedRenderSentinel (Date_now env (S (ticks st)))
  end.

(** ** Sample inputs

    Concrete environments and inputs on which the properties of Part II
    are instantiated. *)

Definition unavailable {A} : result A := Throw (mkError "Error" "unavailable").

(** An environment given by its stamp lookup, content server and worker;
    the codec decodes nothing and encodes to an empty buffer. *)
Definition sample_env (configured : bool)
    (lookup : string → result (option StampData))
    (server : string → result HttpResponse)
    (worker : CfParams → Z → result HttpResponse) : Env :=
  mkEnv configured lookup server worker
        (λ _, unavailable) (λ _, unavailable) (λ _, Ok []) (λ _, Ok [])
        (λ _ _, unavailable) (λ html, html) (λ _ _, 0) (λ _, 0) (λ _, 0).

Definition no_stamp : string → result (option StampData) := λ _, Ok None.
Definition no_server : string → result HttpResponse := λ _, unavailable.

Definition busy_worker : CfParams → Z → result HttpResponse :=
  λ _ _, Ok (mkResponse 503 unavailable "Service Unavailable").

Definition aborting_worker : CfParams → Z → result HttpResponse :=
  λ _ _, Throw (mkError "AbortError" "The signal has been aborted").

Definition sample_params : CfParams :=
  mkCfParams (Some "https://stampchain.io/content/abc"%string) None
             viewport1200 (Some 8000) (Some 45000).

Definition serve (body : string) : string → result HttpResponse :=
  λ _, Ok (mkResponse 200 (Ok []) body).

Definition found (sd : StampData) : string → result (option StampData) :=
  λ _, Ok (Some sd).

Definition svg_stamp : StampData :=
  mkStamp "https://stampchain.io/stamps/ab.svg" (Some "image/svg+xml"%string)
          (Some 7).

Definition svg_env : Env :=
  sample_env true (found svg_stamp)
             (serve "<svg><foreignObject><p>hi</p></foreignObject></svg>")
             aborting_worker.

Definition webp_stamp : StampData :=
  mkStamp "https://stampchain.io/stamps/ab.webp" (Some "image/webp"%string)
          (Some 8).

Definition webp_env : Env :=
  sample_env true (found webp_stamp) (serve EmptyString) aborting_worker.

Definition html_url : string := "https://stampchain.io/stamps/ab.html".

Definition html_env (rawHtml : string) : Env :=
  sample_env true no_stamp (serve rawHtml) aborting_worker.

Definition iframe_page : string := "<iframe src='/s/abc'></iframe>".
Definition canvas_page : string := "<canvas id='c'></canvas>".
Definition image_and_iframe_page : string :=
  "<img src='logo.png'><iframe src='/s/abc'></iframe>".
Definition animation_page : string :=
  "<div id='a'></div><script>setInterval(function () { tick() }, 16)</script>".

Definition ok_page (rawHtml : string) : HttpResponse :=
  mkResponse 200 (Ok []) rawHtml.

(** A store that holds a failure sentinel written at time 0 for stamp
    [ab], in a request that has read no clock and started no render. *)
Definition failed_before : State :=
  mkState {[ cache_key "ab" := (FailedRenderSentinel 0, 604800) ]} 0 [] false.

(** The stamp is an SVG with a foreignObject, the worker aborts, and the
    clock shows one second. *)
Definition young_env : Env := with_clock svg_env (λ _, 1000).

(** The stamp is an image whose server cannot be reached, and the clock
    shows more than one hour. *)
Definition unreachable_env : Env :=
  with_clock (sample_env true (found webp_stamp) no_server aborting_worker)
             (λ _, 4000000).

Definition two_pixels : Image := mkImage 2 1 [255; 4278190335].

Definition wide_strip : Image := mkImage 1201 1 (replicate 1201 255).

(** ** The S3 storage path *)

(** The storage service of [previewStorageService.ts] lies outside the
    file: the answers of [previewExists] and of [uploadPreview] and the URL
    given by [getPreviewUrl] are oracles. *)
Record Storage := mkStorage {
  previewExists : string → result bool;
  uploadPreview : string → Uint8Array → gmap string string → result unit;
  getPreviewUrl : string → string
}.

(** What the requests of the S3 path did so far: the calls of
    [uploadPreview], in order, and the renders started. *)
Record S3State := mkS3State {
  uploads : list (string * Uint8Array * gmap string string);
  s3_renders : list LogEntry
}.

(** [handleS3Preview]; on a forced refresh [previewExists] is not asked. *)
Definition handleS3Preview (storage : Storage) (env : Env) (stamp : string)
    (forceRefresh : bool) (st : S3State) : result Response * S3State :=
  match (if forceRefresh then Ok false else previewExists storage stamp) with
  | Throw e => (Throw e, st)
  | Ok true =>
    (Ok (redirect (getPreviewUrl storage stamp) 302
           (<["Cache-Control" := CACHE_redirect]>
              (<["X-Cache" := "s3-hit"%string]> ∅))), st)
  | Ok false =>
    let '(trace, r) := renderPreview env stamp in
    let st := mkS3State (uploads st) (s3_renders st ++ [Rendered stamp trace]) in
    match r with
    | Throw e => (Throw e, st)
    | Ok rendered =>
      match rendered with
      | Some rendered =>
        if negb (String.eqb (png rendered) EmptyString) then
          match fromBase64 (png rendered) with
          | Some pngBytes =>
            let st :=
              mkS3State (uploads st ++ [(stamp, pngBytes, meta rendered)])
                        (s3_renders st) in
            match uploadPreview storage stamp pngBytes (meta rendered) with
            | Ok _ =>
              (Ok (redirect (getPreviewUrl storage stamp) 302
                     (<["Cache-Control" := CACHE_redirect]>
                        (<["X-Cache" := "s3-uploaded"%string]> ∅))), st)
            | Throw e => (Throw e, st)
            end
          | None =>
            (Throw (mkError "InvalidCharacterError" "Failed to decode base64"),
             st)
          end
        else
          (Ok (fallback
                 (<["X-Fallback" := "render-failed-or-unsupported"%string]> ∅)),
           st)
      | None =>
        (Ok (fallback
               (<["X-Fallback" := "render-failed-or-unsupported"%string]> ∅)),
         st)
      end
    end
  end.

(** ** Vocabulary of the further properties *)

Definition is_worker_post (e : Event) : bool :=
  match e with
  | EvCfPost _ _ => true
  | _ => false
  end.

Definition is_fetch (e : Event) : bool :=
  match e with
  | EvFetch _ => true
  | _ => false
  end.

Definition is_lookup (e : Event) : bool :=
  match e with
  | EvLookup _ => true
  | _ => false
  end.

(** The number of events of a kind in a trace. *)
Definition count_events (p : Event → bool) (t : list Event) : nat :=
  List.length (List.filter p t).

(** The time spent in backoff sleeps, in milliseconds. *)
Definition total_sleep (t : list Event) : Z :=
  fold_right (λ e acc, match e with
                       | EvSleep ms => ms + acc
                       | _ => acc
                       end) 0 t.

(** The request of [renderVideoPreview], and the request of the one
    fallback of [renderHtmlPreview] after an undersized inline render. *)
Definition video_request (stamp_url : string) : CfParams :=
  mkCfParams None (Some (videoHtml stamp_url)) viewport1200 (Some 3000) None.

Definition retry_request (stamp_url : string) : CfParams :=
  mkCfParams (Some (contentUrl stamp_url)) None viewport1200 (Some 8000)
             (Some 45000).

(** The content types for which the dispatcher has a renderer. *)
Definition supported_type (stamp_mimetype : string) : bool :=
  startsWith stamp_mimetype "image/"
  || String.eqb stamp_mimetype "text/html"
  || startsWith stamp_mimetype "audio/"
  || startsWith stamp_mimetype "video/".

(** A worker that answers the first attempt with status 503 and the later
    ones with a screenshot. *)
Definition screenshot : Uint8Array := ["137"; "080"; "078"; "071"]%byte.

Definition flaky_worker : CfParams → Z → result HttpResponse :=
  λ _ attempt,
    if attempt =? 0 then Ok (mkResponse 503 unavailable "Service Unavailable")
    else Ok (mkResponse 200 (Ok screenshot) EmptyString).

Definition flaky_env : Env := sample_env true no_stamp no_server flaky_worker.

(** The cost of a trace stays within the given numbers of content
    fetches, worker posts and rasterizer calls and the given sleeping time,
    and holds no stamp lookup. *)
Definition within (fetches posts rasterizations : nat) (sleep : Z)
    (t : list Event) : Prop :=
  count_events is_lookup t = 0%nat
  ∧ (count_events is_fetch t <= fetches)%nat
  ∧ (count_events is_worker_post t <= posts)%nat
  ∧ (count_events is_rasterizer_call t <= rasterizations)%nat
  ∧ 0 <= total_sleep t <= sleep.

(** The posts a configured worker allows. *)
Definition posts_allowed (env : Env) (n : nat) : nat :=
  if isCfWorkerConfigured env then n else 0%nat.

(** The lookup gave a stamp the dispatcher has a renderer for: a stamp
    with a URL and a content type of one of the four families. *)
Definition renderable (stampData : option StampData) : bool :=
  match stampData with
  | Some sd =>
    negb (String.eqb (stamp_url sd) EmptyString)
    && match stamp_mimetype sd with
       | Some mt => supported_type mt
       | None => false
       end
  | None => false
  end.

(** An audio stamp and a video stamp, with a codec that encodes every
    image to the bytes of [screenshot]. *)
Definition audio_stamp : StampData :=
  mkStamp "https://stampchain.io/stamps/ab.mp3" (Some "audio/mpeg"%string)
          (Some 9).

Definition video_stamp : StampData :=
  mkStamp "https://stampchain.io/stamps/ab.mp4" (Some "video/mp4"%string)
          (Some 10).

Definition pdf_stamp : StampData :=
  mkStamp "https://stampchain.io/stamps/ab.pdf" (Some "application/pdf"%string)
          (Some 11).

Definition encoding_env (sd : StampData) : Env :=
  mkEnv false (found sd) no_server aborting_worker
        (λ _, unavailable) (λ _, unavailable) (λ _, Ok screenshot)
        (λ _, Ok screenshot) (λ _ _, unavailable) (λ html, html)
        (λ _ _, 0) (λ _, 0) (λ _, 0).

(** A content server that answers every request with status 404. *)
Definition missing_server : string → result HttpResponse :=
  λ _, Ok (mkResponse 404 unavailable "Not Found").

(** A static page, a worker whose screenshots have four bytes, and a
    worker whose screenshots have 5000 bytes, with a codec that decodes
    every screenshot to [two_pixels]. *)
Definition static_page : string := "<p>hi</p>".

Definition small_worker : CfParams → Z → result HttpResponse :=
  λ _ _, Ok (mkResponse 200 (Ok screenshot) EmptyString).

Definition small_env : Env :=
  sample_env true no_stamp (serve static_page) small_worker.

Definition large_screenshot : Uint8Array := replicate 5000 "000"%byte.

Definition large_env : Env :=
  mkEnv true no_stamp (serve static_page)
        (λ _ _, Ok (mkResponse 200 (Ok large_screenshot) EmptyString))
        (λ _, unavailable) (λ _, Ok two_pixels) (λ _, Ok screenshot)
        (λ _, Ok screenshot) (λ _ _, unavailable) (λ html, html)
        (λ _ _, 0) (λ _, 0) (λ _, 0).

(** A video stamp whose first frame the worker returns. *)
Definition video_env : Env :=
  mkEnv true (found video_stamp) no_server
        (λ _ _, Ok (mkResponse 200 (Ok screenshot) EmptyString))
        (λ _, unavailable) (λ _, Ok two_pixels) (λ _, Ok screenshot)
        (λ _, Ok screenshot) (λ _ _, unavailable) (λ html, html)
        (λ _ _, 0) (λ _, 0) (λ _, 0).

(** The preview a render returned, for the sample runs below. *)
Definition rendered_preview (m : M (option CachedPreview)) : CachedPreview :=
  match outcome m with
  | Ok (Some p) => p
  | _ => mkPreview EmptyString ∅
  end.

(** An empty Redis store, and a storage that holds nothing and accepts
    every upload. *)
Definition empty_store : State := mkState ∅ 0 [] false.

Definition empty_storage : Storage :=
  mkStorage (λ _, Ok false) (λ _ _ _, Ok tt)
            (λ stamp, "https://cdn.stampchain.io/previews/" +:+ stamp +:+ ".png").

Definition nothing_uploaded : S3State := mkS3State [] [].

(** The pixel values of the waveform picture: the background, the bar
    colours, the disc and the play symbol. *)
Definition palette : list Z :=
  0x14001fff :: colors ++ [0x14001fcc; 0xffffffff].

Definition painted (img : Image) : Prop :=
  is_canvas img ∧ Forall (λ v, v ∈ palette) (bitmap img).

(** A pixel decoder that reads PNG only: it decodes a buffer that begins
    with the first byte of the PNG signature and throws on every other. *)
Definition png_only_decoder : Uint8Array → result Image :=
  λ bytes, match bytes with
           | "137"%byte :: _ => Ok two_pixels
           | _ => unavailable
           end.

(** The first bytes of a WebP file, and a content server that answers
    with them. *)
Definition riff : Uint8Array := ["082"; "073"; "070"; "070"]%byte.

Definition serve_bytes (body : Uint8Array) : string → result HttpResponse :=
  λ _, Ok (mkResponse 200 (Ok body) EmptyString).

(** A worker that answers every request with a screenshot. *)
Definition rendering_worker : CfParams → Z → result HttpResponse :=
  λ _ _, Ok (mkResponse 200 (Ok screenshot) EmptyString).

(** An SVG stamp with a foreignObject, and a WebP stamp that the pixel
    decoder rejects, in a deployment whose worker renders them. *)
Definition svg_browser_env : Env :=
  mkEnv true (found svg_stamp)
        (serve "<svg><foreignObject><p>hi</p></foreignObject></svg>")
        rendering_worker (λ _, unavailable) png_only_decoder
        (λ _, Ok screenshot) (λ _, Ok screenshot) (λ _ _, unavailable)
        (λ html, html) (λ _ _, 0) (λ _, 0) (λ _, 0).

Definition webp_browser_env : Env :=
  mkEnv true (found webp_stamp) (serve_bytes riff) rendering_worker
        (λ _, unavailable) png_only_decoder (λ _, Ok screenshot)
        (λ _, Ok screenshot) (λ _ _, unavailable) (λ html, html)
        (λ _ _, 0) (λ _, 0) (λ _, 0).

(** The errors with which [fetch] rejects when the host of the worker
    refuses the connection: the one of the Deno runtime, and the one of
    the fetch of Node. *)
Definition connection_refused : JsError :=
  mkError "TypeError"
    "error sending request for url (https://preview.example.workers.dev/): client error (Connect): tcp connect error: Connection refused (os error 111)".

Definition fetch_failed : JsError := mkError "TypeError" "fetch failed".

Definition refusing_env (error : JsError) : Env :=
  sample_env true no_stamp no_server (λ _ _, Throw error).

(** The PNG encoder of ImageScript writes the time of the call into the
    file, to the second, as the creation time of a text chunk.  A stand-in
    that keeps that much of it: the second of the call in decimal digits,
    then the pixels. *)
Definition stamping_encoder (creationTime : Z) (img : Image)
    : result Uint8Array :=
  Ok ((byte_of_ascii <$> chars (toString (creationTime `div` 1000)))
        ++ (byte_of_Z <$> bitmap img)).

(** A stand-in for the floating point of the engine in the waveform: the
    sine of the envelope is replaced by the parabola through the same
    zeros, and the half width of the play icon is computed in integers. *)
Definition parabolic_bars (i r : Z) : Z :=
  360 * (7 * i * (64 - i) + 3072) * (300 + r) `div` 10240000.

Definition even_triangle (row : Z) : Z := (row + 30) `div` 2.

(** The deployment at the time [now], in milliseconds: the clock shows
    [now] and the encoder stamps it; everything else is the same at every
    time.  [noon] is 2025-11-03 12:00:00 UTC. *)
Definition audio_env_at (now : Z) : Env :=
  mkEnv false (found audio_stamp) no_server aborting_worker
        (λ _, unavailable) (λ _, unavailable) (stamping_encoder now)
        (λ _, Ok screenshot) (λ _ _, unavailable) (λ html, html)
        parabolic_bars even_triangle (λ _, now).

Definition noon : Z := 1762171200000.



(* ===================================================================== *)
(** * Part II: properties                                                  *)
(* ===================================================================== *)

(** ** The cache codec *)

Section Base64Facts.
Import Base64.

Lemma chars_app (s t : string) : chars (s +:+ t) = chars s ++ chars t.
Proof. induction s as [|c s IH]; simpl; [done | by rewrite IH]. Qed.

Lemma chars_str (l : list ascii) : chars (str l) = l.
Proof. apply list_ascii_of_string_of_list_ascii. Qed.

Lemma str_chars (s : string) : str (chars s) = s.
Proof. apply string_of_list_ascii_of_string. Qed.

Lemma length_chars (s : string) : List.length (chars s) = String.length s.
Proof. induction s; simpl; [done | by f_equal]. Qed.

Lemma byte_to_Z_range (b : byte) : 0 <= byte_to_Z b < 256.
Proof. unfold byte_to_Z. pose proof (Byte.to_N_bounded b). lia. Qed.

Lemma charCode_fromCharCode (n : Z) :
  0 <= n < 256 → charCode (fromCharCode n) = n.
Proof.
  intros Hn. unfold charCode, fromCharCode.
  rewrite N_ascii_embedding by lia. lia.
Qed.

Lemma byte_of_Z_to_Z (b : byte) : byte_of_Z (byte_to_Z b) = b.
Proof.
  unfold byte_of_Z. rewrite Z.mod_small by apply byte_to_Z_range.
  unfold byte_to_Z. by rewrite N2Z.id, Byte.of_to_N.
Qed.

(** The first loop of [toBase64] is a map over the bytes. *)
Lemma binary_of_bytes (data : Uint8Array) (acc : string) :
  chars (fold_left
           (λ binary b, binary +:+ String (fromCharCode (byte_to_Z b)) EmptyString)
           data acc)
  = chars acc ++ ((λ b, fromCharCode (byte_to_Z b)) <$> data).
Proof.
  revert acc. induction data as [|b data IH]; intros acc; simpl.
  - by rewrite app_nil_r.
  - rewrite IH, chars_app. simpl. by rewrite <- app_assoc.
Qed.

(** The loop of [fromBase64] that fills the array is a map as well. *)
Lemma fill_by_index {A} (f : nat → A) (d : A) (n : nat) :
  fold_left (λ bytes i, <[i := f i]> bytes) (seq 0 n) (replicate n d)
  = f <$> seq 0 n.
Proof.
  assert (G : ∀ k m (pre : list A),
             List.length pre = m →
             fold_left (λ bytes i, <[i := f i]> bytes) (seq m k)
                       (pre ++ replicate k d)
             = pre ++ (f <$> seq m k)).
  { induction k as [|k IH]; intros m pre Hm; simpl; [done|].
    replace (<[m:=f m]> (pre ++ d :: replicate k d))
      with ((pre ++ [f m]) ++ replicate k d).
    - rewrite IH by (rewrite length_app; simpl; lia).
      by rewrite <- app_assoc.
    - rewrite <- app_assoc. simpl.
      rewrite insert_app_r_alt by lia.
      replace (m - List.length pre)%nat with 0%nat by lia. done. }
  apply (G n 0%nat []). done.
Qed.

Lemma map_nth_seq {A B} (g : A → B) (l : list A) (d : A) :
  (λ i, g (nth i l d)) <$> seq 0 (List.length l) = g <$> l.
Proof.
  induction l as [|a l IH]; simpl; [done|]. f_equal.
  rewrite <- fmap_S_seq, <- list_fmap_compose. exact IH.
Qed.

Lemma filter_all {A} (P : A → Prop) `{∀ x, Decision (P x)} (l : list A) :
  Forall P l → filter P l = l.
Proof.
  induction 1 as [|x l Hx _ IH]; [done|].
  by rewrite filter_cons_True, IH.
Qed.

Lemma list_ind3 {A} (P : list A → Prop) :
  P [] → (∀ a, P [a]) → (∀ a b, P [a; b]) →
  (∀ a b c l, P l → P (a :: b :: c :: l)) → ∀ l, P l.
Proof.
  intros H0 H1 H2 H3 l.
  assert (G : P l ∧ (∀ a, P (a :: l)) ∧ (∀ a b, P (a :: b :: l))).
  { induction l as [|x l (IHa & IHb & IHc)]; [by auto|].
    split; [apply IHb|]. split; [intros; apply IHc|].
    intros a b. by apply H3. }
  apply G.
Qed.

Local Ltac divmod := Z.div_mod_to_equations; lia.

Lemma sextets_range (l : list Z) :
  Forall is_octet l → Forall is_sextet (sextets l).
Proof.
  unfold is_octet, is_sextet.
  induction l as [| a | a b | a b c l IH] using list_ind3; intros H.
  - constructor.
  - inversion_clear H. simpl. repeat (apply Forall_cons; split; [divmod|]).
    constructor.
  - inversion_clear H as [|? ? Ha H']. inversion_clear H' as [|? ? Hb _].
    simpl. repeat (apply Forall_cons; split; [divmod|]). constructor.
  - inversion_clear H as [|? ? Ha H']. inversion_clear H' as [|? ? Hb H''].
    inversion_clear H'' as [|? ? Hc Hl].
    simpl. repeat (apply Forall_cons; split; [divmod|]). by apply IH.
Qed.

Lemma unsextets_sextets (l : list Z) :
  Forall is_octet l → unsextets (sextets l) = l.
Proof.
  unfold is_octet.
  induction l as [| a | a b | a b c l IH] using list_ind3; intros H.
  - done.
  - inversion_clear H. simpl. f_equal. divmod.
  - inversion_clear H as [|? ? Ha H']. inversion_clear H' as [|? ? Hb _].
    simpl. f_equal; [divmod|]. f_equal. divmod.
  - inversion_clear H as [|? ? Ha H']. inversion_clear H' as [|? ? Hb H''].
    inversion_clear H'' as [|? ? Hc Hl].
    simpl. rewrite IH by done.
    f_equal; [divmod|]. f_equal; [divmod|]. f_equal. divmod.
Qed.

Lemma sextet_cases (P : Z → Prop) :
  (∀ k : nat, (k < 64)%nat → P (Z.of_nat k)) → ∀ n, is_sextet n → P n.
Proof.
  intros H n [Hlo Hhi]. rewrite <- (Z2Nat.id n) by lia. apply H. lia.
Qed.

Lemma dec_enc_char (n : Z) : is_sextet n → dec_char (enc_char n) = Some n.
Proof.
  revert n. apply sextet_cases. intros k Hk.
  do 64 (destruct k as [|k]; [reflexivity|]). lia.
Qed.

Lemma enc_char_plain (n : Z) :
  is_sextet n →
  is_ascii_whitespace (enc_char n) = false ∧ Ascii.eqb (enc_char n) "=" = false.
Proof.
  revert n. apply sextet_cases. intros k Hk.
  do 64 (destruct k as [|k]; [split; reflexivity|]). lia.
Qed.

Lemma padding_plain (n : nat) :
  Forall (λ c, is_ascii_whitespace c = false) (padding n).
Proof.
  unfold padding. destruct (n mod 3)%nat as [|[|[|?]]]; repeat constructor.
Qed.

Lemma padding_add3 (n : nat) : padding (3 + n) = padding n.
Proof.
  unfold padding. replace (3 + n)%nat with (n + 1 * 3)%nat by lia.
  by rewrite Nat.Div0.mod_add.
Qed.

Lemma mod4_add4 (n : nat) : ((4 + n) mod 4 = n mod 4)%nat.
Proof.
  replace (4 + n)%nat with (n + 1 * 4)%nat by lia. apply Nat.Div0.mod_add.
Qed.

(** Encoded length: the output is made of whole groups of four, and the
    part before the padding never has 4k+1 characters. *)
Lemma sextets_length (l : list Z) :
  ((List.length (sextets l) + List.length (padding (List.length l))) mod 4 = 0
   ∧ List.length (sextets l) mod 4 ≠ 1)%nat.
Proof.
  induction l as [| a | a b | a b c l [IH1 IH2]] using list_ind3;
    try (split; [reflexivity | discriminate]).
  change (List.length (a :: b :: c :: l)) with (3 + List.length l)%nat.
  rewrite padding_add3.
  change (List.length (sextets (a :: b :: c :: l)))
    with (4 + List.length (sextets l))%nat.
  split.
  - by rewrite <- Nat.add_assoc, mod4_add4.
  - by rewrite mod4_add4.
Qed.

Lemma drop_trailing_eq_snoc (l : list ascii) :
  drop_trailing_eq (l ++ ["="%char]) = Some l.
Proof.
  unfold drop_trailing_eq. rewrite rev_app_distr. simpl.
  by rewrite rev_involutive.
Qed.

Lemma drop_trailing_eq_plain (l : list ascii) :
  Forall (λ c, Ascii.eqb c "=" = false) l → drop_trailing_eq l = None.
Proof.
  intros H. unfold drop_trailing_eq.
  destruct (rev l) as [|c r] eqn:E; [done|].
  assert (Hc : In c l) by (apply in_rev; rewrite E; by left).
  rewrite Forall_forall in H. rewrite (H c); [done|].
  by apply list_elem_of_In.
Qed.

Lemma strip_padding_encoded (body : list ascii) (n : nat) :
  Forall (λ c, Ascii.eqb c "=" = false) body →
  strip_padding (body ++ padding n) = body.
Proof.
  intros H. unfold strip_padding, padding.
  destruct (n mod 3)%nat as [|[|[|?]]].
  - by rewrite app_nil_r, drop_trailing_eq_plain.
  - replace (body ++ ["="; "="]%char)
      with ((body ++ ["="%char]) ++ ["="%char]) by by rewrite <- app_assoc.
    by rewrite !drop_trailing_eq_snoc.
  - by rewrite drop_trailing_eq_snoc, drop_trailing_eq_plain.
  - by rewrite app_nil_r, drop_trailing_eq_plain.
Qed.

Lemma fromCharCode_charCode (c : ascii) : fromCharCode (charCode c) = c.
Proof.
  unfold fromCharCode, charCode. by rewrite N2Z.id, ascii_N_embedding.
Qed.

Lemma charCode_range (c : ascii) : is_octet (charCode c).
Proof.
  unfold is_octet, charCode. pose proof (N_ascii_bounded c). lia.
Qed.

(** The platform pair: decoding an encoding gives the string back. *)
Lemma atob_btoa (binary : string) : atob (btoa binary) = Some binary.
Proof.
  unfold atob, btoa. rewrite chars_str.
  set (codes := charCode <$> chars binary).
  assert (Hcodes : Forall is_octet codes).
  { apply Forall_fmap, Forall_true. intros c. apply charCode_range. }
  pose proof (sextets_range codes Hcodes) as Hsx.
  set (body := enc_char <$> sextets codes).
  assert (Hws : Forall (λ c, is_ascii_whitespace c = false) body).
  { apply Forall_fmap. eapply Forall_impl; [exact Hsx|].
    intros n Hn. by apply enc_char_plain. }
  assert (Heq : Forall (λ c, Ascii.eqb c "=" = false) body).
  { apply Forall_fmap. eapply Forall_impl; [exact Hsx|].
    intros n Hn. by apply enc_char_plain. }
  destruct (sextets_length codes) as [Hlen4 Hlen1].
  assert (Hlen : String.length binary = List.length codes).
  { unfold codes. by rewrite length_fmap, length_chars. }
  assert (Hprep : forgiving_prepare (body ++ padding (String.length binary))
                  = body).
  { unfold forgiving_prepare.
    rewrite filter_all by (apply Forall_app; split; [done | apply padding_plain]).
    rewrite Hlen, length_app. unfold body at 1. rewrite length_fmap, Hlen4.
    change (0 =? 0)%nat with true. cbv iota.
    by apply strip_padding_encoded. }
  rewrite Hprep. cbv zeta.
  unfold body at 1. rewrite length_fmap.
  destruct (Nat.eqb_spec (List.length (sextets codes) mod 4) 1); [done|].
  unfold body. rewrite mapM_fmap_Forall_Some; cycle 1.
  { eapply Forall_impl; [exact Hsx|]. intros k Hk. by apply dec_enc_char. }
  change (Some (str (fromCharCode <$> unsextets (sextets codes))) = Some binary).
  rewrite unsextets_sextets by done. f_equal.
  unfold codes. rewrite <- list_fmap_compose.
  rewrite <- (str_chars binary) at 2. f_equal.
  rewrite <- (list_fmap_id (chars binary)) at 2.
  apply list_fmap_ext. intros i c _. apply fromCharCode_charCode.
Qed.

(** C10. Round trip of the cache codec: for every byte array,
    [fromBase64 (toBase64 b)] returns exactly [b] (and does not throw). *)
Theorem fromBase64_toBase64 (b : Uint8Array) :
  fromBase64 (toBase64 b) = Some b.
Proof.
  unfold fromBase64, toBase64. rewrite atob_btoa. simpl.
  set (binary := fold_left _ b EmptyString).
  assert (Hbin : chars binary = (λ x, fromCharCode (byte_to_Z x)) <$> b).
  { unfold binary. by rewrite binary_of_bytes. }
  rewrite fill_by_index, <- length_chars.
  rewrite (map_nth_seq (λ c, byte_of_Z (charCode c))).
  rewrite Hbin, <- list_fmap_compose.
  rewrite <- (list_fmap_id b) at 2. f_equal.
  apply list_fmap_ext. intros i x _. simpl.
  rewrite charCode_fromCharCode by apply byte_to_Z_range.
  apply byte_of_Z_to_Z.
Qed.

End Base64Facts.

(** The codec round trip, as a rewriting rule for the handlers. *)
Lemma codec_round_trip (bytes : Uint8Array) :
  fromBase64 (toBase64 bytes) = Some bytes.
Proof.
  unfold fromBase64, toBase64. rewrite atob_btoa. simpl.
  set (binary := fold_left _ bytes EmptyString).
  assert (Hbin : chars binary = (λ x, fromCharCode (byte_to_Z x)) <$> bytes).
  { unfold binary. by rewrite binary_of_bytes. }
  rewrite fill_by_index, <- length_chars.
  rewrite (map_nth_seq (λ c, byte_of_Z (charCode c))).
  rewrite Hbin, <- list_fmap_compose.
  rewrite <- (list_fmap_id bytes) at 2. f_equal.
  apply list_fmap_ext. intros i x _. simpl.
  rewrite charCode_fromCharCode by apply byte_to_Z_range.
  apply byte_of_Z_to_Z.
Qed.

Lemma toBase64_inj (a b : Uint8Array) : toBase64 a = toBase64 b → a = b.
Proof.
  intros H. apply (f_equal fromBase64) in H.
  rewrite !codec_round_trip in H. by injection H.
Qed.

(** ** The integer upscale *)

Example scale_64 : scale 64 64 = 18 ∧ offsetX 64 64 = 24 ∧ offsetY 64 64 = 24.
Proof. done. Qed.
Example scale_1x1 : scale 1 1 = 1200 ∧ offsetX 1 1 = 0.
Proof. done. Qed.
Example scale_700 : scale 700 300 = 1 ∧ offsetX 700 300 = 250 ∧ offsetY 700 300 = 450.
Proof. done. Qed.
Example scale_2000 : scale 2000 10 = 0 ∧ offsetX 2000 10 = 600.
Proof. done. Qed.

Section Loops.
Context {St : Type}.

Lemma for_loop_inv (Inv : Z → St → Prop) (body : Z → St → result St)
    (n : nat) (i0 : Z) (s0 : St) :
  Inv i0 s0 →
  (∀ i s, i0 <= i < i0 + Z.of_nat n → Inv i s →
          ∃ s', body i s = Ok s' ∧ Inv (i + 1) s') →
  ∃ s', for_loop n i0 body s0 = Ok s' ∧ Inv (i0 + Z.of_nat n) s'.
Proof.
  revert i0 s0. induction n as [|n IH]; intros i0 s0 H0 Hstep.
  - exists s0. split; [done|]. by replace (i0 + Z.of_nat 0) with i0 by lia.
  - destruct (Hstep i0 s0) as (s1 & Hb & H1); [lia | done |].
    destruct (IH (i0 + 1) s1) as (s' & Hl & H'); [done | |].
    + intros i s Hi. apply Hstep. lia.
    + exists s'. simpl. rewrite Hb. split; [done|].
      by replace (i0 + Z.of_nat (S n)) with (i0 + 1 + Z.of_nat n) by lia.
Qed.

Lemma for_range_inv (Inv : Z → St → Prop) (body : Z → St → result St)
    (lo hi : Z) (s0 : St) :
  lo <= hi →
  Inv lo s0 →
  (∀ i s, lo <= i < hi → Inv i s → ∃ s', body i s = Ok s' ∧ Inv (i + 1) s') →
  ∃ s', for_range lo hi body s0 = Ok s' ∧ Inv hi s'.
Proof.
  intros Hle H0 Hstep. unfold for_range.
  destruct (for_loop_inv Inv body (Z.to_nat (hi - lo)) lo s0)
    as (s' & Hl & H'); [done | |].
  - intros i s Hi. apply Hstep. lia.
  - exists s'. split; [done|].
    by replace hi with (lo + Z.of_nat (Z.to_nat (hi - lo))) by lia.
Qed.
End Loops.

Section Canvas.

Lemma ToUint32_small (p : Z) : 0 <= p < 2 ^ 32 → ToUint32 p = p.
Proof. intros H. unfold ToUint32. by apply Z.mod_small. Qed.

Lemma fill_new_Image (w h c : Z) :
  let img := fill (new_Image w h) c in
  width img = w ∧ height img = h
  ∧ List.length (bitmap img) = Z.to_nat (w * h)
  ∧ ∀ x y, pix img x y = 0 ∨ pix img x y = ToUint32 c.
Proof.
  simpl. rewrite length_fmap, length_replicate. repeat split.
  intros x y. unfold pix. simpl. rewrite list_lookup_fmap.
  destruct (replicate _ _ !! _); simpl; auto.
Qed.

Lemma blank_canvas :
  let img := fill (new_Image targetSize targetSize) 0 in
  is_canvas img ∧ ∀ x y, pix img x y = 0.
Proof.
  intros img.
  destruct (fill_new_Image targetSize targetSize 0) as (Hw & Hh & Hl & Hp).
  fold img in Hw, Hh, Hl, Hp. split.
  - unfold is_canvas. rewrite Hw, Hh, Hl. unfold targetSize. lia.
  - intros x y. destruct (Hp x y) as [-> | ->]; reflexivity.
Qed.

Lemma setPixelAt_paints (img : Image) (x y p : Z) :
  is_canvas img → on_canvas x y →
  ∃ img', setPixelAt img x y p = Ok img'
          ∧ paints img img' (λ qx qy, qx = x ∧ qy = y) (λ _ _, ToUint32 p).
Proof.
  intros (Hw & Hh & Hlen) [Hx Hy]. unfold setPixelAt, in_bounds.
  rewrite Hw, Hh.
  replace ((1 <=? x) && (x <=? targetSize) && (1 <=? y) && (y <=? targetSize))
    with true by (symmetry; rewrite !andb_true_iff, !Z.leb_le; lia).
  eexists. split; [reflexivity|]. split.
  - unfold is_canvas. simpl. by rewrite length_insert.
  - intros qx qy [Hqx Hqy]. unfold pix, offset_of. simpl. rewrite Hw.
    unfold targetSize in *. split.
    + intros [-> ->]. rewrite list_lookup_insert_eq by lia. done.
    + intros Hq. rewrite list_lookup_insert_ne by lia. done.
Qed.

Lemma paints_none (img : Image) (R : Z → Z → Prop) (v : Z → Z → Z) :
  is_canvas img → (∀ qx qy, on_canvas qx qy → ¬ R qx qy) →
  paints img img R v.
Proof.
  intros Hc HR. split; [done|]. intros qx qy Hq.
  split; [|done]. intros HRq. by destruct (HR qx qy).
Qed.

Lemma paints_ext (img img' : Image) (R R' : Z → Z → Prop)
    (v v' : Z → Z → Z) :
  paints img img' R v →
  (∀ qx qy, on_canvas qx qy →
     (R' qx qy ↔ R qx qy) ∧ (R qx qy → v' qx qy = v qx qy)) →
  paints img img' R' v'.
Proof.
  intros [Hc Hp] Hext. split; [done|]. intros qx qy Hq.
  destruct (Hp qx qy Hq) as [Hin Hout].
  destruct (Hext qx qy Hq) as [Hiff Hv]. split.
  - intros HR'. rewrite Hv by tauto. apply Hin. tauto.
  - intros HR'. apply Hout. tauto.
Qed.

Lemma paints_then (img img1 img2 : Image) (R1 R2 R3 : Z → Z → Prop)
    (v1 v2 v3 : Z → Z → Z) :
  paints img img1 R1 v1 →
  paints img1 img2 R2 v2 →
  (∀ qx qy, on_canvas qx qy →
     (R2 qx qy ∨ ¬ R2 qx qy)
     ∧ (R3 qx qy ↔ R1 qx qy ∨ R2 qx qy)
     ∧ (R2 qx qy → v3 qx qy = v2 qx qy)
     ∧ (R1 qx qy → ¬ R2 qx qy → v3 qx qy = v1 qx qy)) →
  paints img img2 R3 v3.
Proof.
  intros [_ Hp1] [Hc2 Hp2] Hext. split; [done|]. intros qx qy Hq.
  destruct (Hp1 qx qy Hq) as [Hin1 Hout1].
  destruct (Hp2 qx qy Hq) as [Hin2 Hout2].
  destruct (Hext qx qy Hq) as (Hdec & Hiff & Hv2 & Hv1). split.
  - intros HR3. destruct Hdec as [HR2|HR2].
    + rewrite Hv2 by done. by apply Hin2.
    + rewrite Hout2 by done. rewrite Hv1 by tauto. apply Hin1. tauto.
  - intros HR3. rewrite Hout2 by tauto. apply Hout1. tauto.
Qed.

(** The innermost loop: one row of a block. *)
Lemma upscale_row (img : Image) (ox x s py p : Z) :
  is_canvas img → 0 <= s → 1 <= py <= targetSize →
  ∃ img',
    for_range 0 s (λ dx outputImage,
      let px := ox + x * s + dx + 1 in
      if (px <? 1) || (px >? targetSize) then Ok outputImage
      else setPixelAt outputImage px py p) img = Ok img'
    ∧ paints img img'
        (λ qx qy, qy = py ∧ ox + x * s + 1 <= qx < ox + x * s + 1 + s)
        (λ _ _, ToUint32 p).
Proof.
  intros Hc Hs Hpy.
  apply (for_range_inv (λ dx img',
    paints img img'
      (λ qx qy, qy = py ∧ ox + x * s + 1 <= qx < ox + x * s + 1 + dx)
      (λ _ _, ToUint32 p))); [lia | |].
  - apply paints_none; [done|]. intros qx qy _. lia.
  - intros dx img1 Hdx Hinv. cbv zeta.
    destruct (Z.ltb_spec (ox + x * s + dx + 1) 1) as [Hlo|Hlo];
      [|destruct (Z.gtb_spec (ox + x * s + dx + 1) targetSize) as [Hhi|Hhi]];
      simpl.
    + exists img1. split; [done|].
      eapply paints_ext; [exact Hinv|].
      intros qx qy [Hqx Hqy]. split; [lia | done].
    + exists img1. split; [done|].
      eapply paints_ext; [exact Hinv|].
      intros qx qy [Hqx Hqy]. split; [lia | done].
    + destruct (setPixelAt_paints img1 (ox + x * s + dx + 1) py p)
        as (img2 & Hset & Hp2); [apply Hinv | split; lia |].
      exists img2. split; [done|].
      eapply paints_then; [exact Hinv | exact Hp2 |].
      intros qx qy _. split; [lia|]. split; [lia|]. split; done.
Qed.

(** The two inner loops: one block of [s] by [s] pixels. *)
Lemma upscale_block (img : Image) (ox oy x y s p : Z) :
  is_canvas img → 0 <= s →
  ∃ img',
    for_range 0 s (λ dy outputImage,
      let py := oy + y * s + dy + 1 in
      if (py <? 1) || (py >? targetSize) then Ok outputImage
      else
        for_range 0 s (λ dx outputImage,
          let px := ox + x * s + dx + 1 in
          if (px <? 1) || (px >? targetSize) then Ok outputImage
          else setPixelAt outputImage px py p) outputImage) img = Ok img'
    ∧ paints img img'
        (λ qx qy, oy + y * s + 1 <= qy < oy + y * s + 1 + s
                  ∧ ox + x * s + 1 <= qx < ox + x * s + 1 + s)
        (λ _ _, ToUint32 p).
Proof.
  intros Hc Hs.
  apply (for_range_inv (λ dy img',
    paints img img'
      (λ qx qy, oy + y * s + 1 <= qy < oy + y * s + 1 + dy
                ∧ ox + x * s + 1 <= qx < ox + x * s + 1 + s)
      (λ _ _, ToUint32 p))); [lia | |].
  - apply paints_none; [done|]. intros qx qy _. lia.
  - intros dy img1 Hdy Hinv. cbv zeta.
    destruct (Z.ltb_spec (oy + y * s + dy + 1) 1) as [Hlo|Hlo];
      [|destruct (Z.gtb_spec (oy + y * s + dy + 1) targetSize) as [Hhi|Hhi]];
      simpl.
    + exists img1. split; [done|].
      eapply paints_ext; [exact Hinv|].
      intros qx qy [Hqx Hqy]. split; [lia | done].
    + exists img1. split; [done|].
      eapply paints_ext; [exact Hinv|].
      intros qx qy [Hqx Hqy]. split; [lia | done].
    + destruct (upscale_row img1 ox x s (oy + y * s + dy + 1) p)
        as (img2 & Hrow & Hp2); [apply Hinv | done | lia |].
      exists img2. split; [done|].
      eapply paints_then; [exact Hinv | exact Hp2 |].
      intros qx qy _. split; [lia|]. split; [lia|]. split; done.
Qed.

Lemma block_div (x s d : Z) : x * s <= d < x * s + s → d / s = x.
Proof.
  intros H. assert (0 < s) by lia. symmetry.
  apply (Z.div_unique_pos d s x (d - x * s)); lia.
Qed.

Lemma getPixelAt_source (src : Image) (x y : Z) :
  well_formed src → 0 <= x < width src → 0 <= y < height src →
  getPixelAt src (x + 1) (y + 1) = Ok (pix src (x + 1) (y + 1)).
Proof.
  intros _ Hx Hy. unfold getPixelAt, in_bounds.
  replace ((1 <=? x + 1) && (x + 1 <=? width src) && (1 <=? y + 1)
           && (y + 1 <=? height src))
    with true by (symmetry; rewrite !andb_true_iff, !Z.leb_le; lia).
  done.
Qed.

Lemma pix_range (src : Image) (x y : Z) :
  well_formed src → 0 <= pix src x y < 2 ^ 32.
Proof.
  intros (_ & _ & _ & Hall). unfold pix.
  destruct (bitmap src !! offset_of src x y) as [p|] eqn:E; simpl; [|lia].
  by apply (Forall_lookup_1 _ _ _ _ Hall E).
Qed.

(** The loop over [x]: a band of blocks, one per pixel of source row [y]. *)
Lemma upscale_band (src img : Image) (ox oy y s : Z) :
  well_formed src → is_canvas img → 0 <= s → 0 <= y < height src →
  ∃ img',
    for_range 0 (width src) (λ x outputImage,
      match getPixelAt src (x + 1) (y + 1) with
      | Throw e => Throw e
      | Ok pixel =>
        for_range 0 s (λ dy outputImage,
          let py := oy + y * s + dy + 1 in
          if (py <? 1) || (py >? targetSize) then Ok outputImage
          else
            for_range 0 s (λ dx outputImage,
              let px := ox + x * s + dx + 1 in
              if (px <? 1) || (px >? targetSize) then Ok outputImage
              else setPixelAt outputImage px py pixel) outputImage)
          outputImage
      end) img = Ok img'
    ∧ paints img img'
        (λ qx qy, oy + y * s + 1 <= qy < oy + y * s + 1 + s
                  ∧ ox + 1 <= qx < ox + 1 + width src * s)
        (λ qx qy, pix src ((qx - ox - 1) / s + 1) (y + 1)).
Proof.
  intros Hwf Hc Hs Hy.
  apply (for_range_inv (λ x img',
    paints img img'
      (λ qx qy, oy + y * s + 1 <= qy < oy + y * s + 1 + s
                ∧ ox + 1 <= qx < ox + 1 + x * s)
      (λ qx qy, pix src ((qx - ox - 1) / s + 1) (y + 1)))).
  - destruct Hwf; lia.
  - apply paints_none; [done|]. intros qx qy _. lia.
  - intros x img1 Hx Hinv.
    rewrite getPixelAt_source by done.
    destruct (upscale_block img1 ox oy x y s (pix src (x + 1) (y + 1)))
      as (img2 & Hblock & Hp2); [apply Hinv | done |].
    exists img2. split; [done|].
    eapply paints_then; [exact Hinv | exact Hp2 |].
    intros qx qy _. split; [lia|]. split; [lia|]. split; [|done].
    intros [_ Hqx]. rewrite ToUint32_small by by apply pix_range.
    f_equal. f_equal. apply block_div. lia.
Qed.

(** The loop over [y]: the whole scaled copy. *)
Lemma upscale_copy (src img : Image) (ox oy s : Z) :
  well_formed src → is_canvas img → 0 <= s →
  ∃ img',
    for_range 0 (height src) (λ y outputImage,
      for_range 0 (width src) (λ x outputImage,
        match getPixelAt src (x + 1) (y + 1) with
        | Throw e => Throw e
        | Ok pixel =>
          for_range 0 s (λ dy outputImage,
            let py := oy + y * s + dy + 1 in
            if (py <? 1) || (py >? targetSize) then Ok outputImage
            else
              for_range 0 s (λ dx outputImage,
                let px := ox + x * s + dx + 1 in
                if (px <? 1) || (px >? targetSize) then Ok outputImage
                else setPixelAt outputImage px py pixel) outputImage)
            outputImage
        end) outputImage) img = Ok img'
    ∧ paints img img'
        (λ qx qy, oy + 1 <= qy < oy + 1 + height src * s
                  ∧ ox + 1 <= qx < ox + 1 + width src * s)
        (λ qx qy, pix src ((qx - ox - 1) / s + 1) ((qy - oy - 1) / s + 1)).
Proof.
  intros Hwf Hc Hs.
  apply (for_range_inv (λ y img',
    paints img img'
      (λ qx qy, oy + 1 <= qy < oy + 1 + y * s
                ∧ ox + 1 <= qx < ox + 1 + width src * s)
      (λ qx qy, pix src ((qx - ox - 1) / s + 1) ((qy - oy - 1) / s + 1)))).
  - destruct Hwf as (_ & ? & _); lia.
  - apply paints_none; [done|]. intros qx qy _. lia.
  - intros y img1 Hy Hinv.
    destruct (upscale_band src img1 ox oy y s)
      as (img2 & Hband & Hp2); [done | apply Hinv | done | done |].
    exists img2. split; [done|].
    eapply paints_then; [exact Hinv | exact Hp2 |].
    intros qx qy _. split; [lia|]. split; [lia|]. split; [|done].
    intros [Hqy _]. f_equal. f_equal. apply block_div. lia.
Qed.

Lemma scale_nonneg (w h : Z) : 1 <= w → 1 <= h → 0 <= scale w h.
Proof.
  intros Hw Hh. unfold scale, rawScale.
  assert (0 <= targetSize / w) by (apply Z.div_pos; unfold targetSize; lia).
  assert (0 <= targetSize / h) by (apply Z.div_pos; unfold targetSize; lia).
  lia.
Qed.

Lemma scale_fits (w h : Z) :
  1 <= w → 1 <= h →
  scale w h * w <= targetSize ∧ scale w h * h <= targetSize.
Proof.
  intros Hw Hh.
  pose proof (Z.mul_div_le targetSize w ltac:(lia)).
  pose proof (Z.mul_div_le targetSize h ltac:(lia)).
  pose proof (scale_nonneg w h Hw Hh).
  assert (scale w h <= targetSize / w) by (unfold scale; lia).
  assert (scale w h <= targetSize / h) by (unfold scale; lia).
  split; nia.
Qed.

(** What [upscale] returns, pixel by pixel. *)
Lemma upscale_spec (src : Image) :
  well_formed src →
  ∃ out, upscale src = Ok out ∧ is_canvas out
         ∧ ∀ px py, on_canvas px py →
             pix out px py = upscaled_pixel src px py.
Proof.
  intros Hwf. pose proof Hwf as (Hw & Hh & _).
  destruct blank_canvas as [Hc0 Hp0].
  destruct (upscale_copy src (fill (new_Image targetSize targetSize) 0)
              (offsetX (width src) (height src))
              (offsetY (width src) (height src))
              (scale (width src) (height src)))
    as (out & Hrun & Hc & Hp); [done | done | by apply scale_nonneg |].
  exists out. split; [exact Hrun|]. split; [done|].
  intros px py Hq. destruct (Hp px py Hq) as [Hin Hout].
  unfold upscaled_pixel. case_bool_decide as HR.
  - apply Hin. lia.
  - rewrite Hout by lia. apply Hp0.
Qed.

Lemma scale_greatest (w h s : Z) :
  1 <= w → 1 <= h →
  s <= rawScale w h → s * w <= targetSize → s * h <= targetSize →
  s <= scale w h.
Proof.
  intros Hw Hh Hs Hsw Hsh. unfold scale.
  assert (s <= targetSize / w) by (apply Z.div_le_lower_bound; lia).
  assert (s <= targetSize / h) by (apply Z.div_le_lower_bound; lia).
  lia.
Qed.

Lemma offsets_centre (w h : Z) :
  1 <= w → 1 <= h →
  0 <= offsetX w h ∧ offsetX w h + w * scale w h <= targetSize
  ∧ 0 <= offsetY w h ∧ offsetY w h + h * scale w h <= targetSize.
Proof.
  intros Hw Hh. destruct (scale_fits w h Hw Hh) as [Hfw Hfh].
  pose proof (scale_nonneg w h Hw Hh) as Hs.
  unfold offsetX, offsetY, scaledWidth, scaledHeight.
  set (s := scale w h) in *. unfold targetSize in *.
  assert (0 <= w * s) by nia. assert (0 <= h * s) by nia.
  assert (w * s <= 1200) by lia. assert (h * s <= 1200) by lia.
  repeat split; Z.div_mod_to_equations; lia.
Qed.

(** C1. For every decoded source image handled by the integer upscale:
    the canvas is 1200 by 1200; the scale factor is
    [max(2, floor(1200 / max(w, h)))] clamped by [floor(1200 / w)] and
    [floor(1200 / h)], hence the greatest factor below the nominal one for
    which the copy fits the canvas in both directions; the copy is placed
    at [floor((1200 - scale * w) / 2)] and [floor((1200 - scale * h) / 2)];
    each source pixel fills its block of [scale] by [scale] pixels, and
    nothing else is drawn. *)
Theorem upscale_canvas (src : Image) :
  well_formed src →
  let w := width src in
  let h := height src in
  ∃ out,
    upscale src = Ok out
    ∧ width out = 1200 ∧ height out = 1200
    ∧ Z.of_nat (List.length (bitmap out)) = 1200 * 1200
    ∧ scale w h
      = Z.min (Z.max 2 (1200 / Z.max w h)) (Z.min (1200 / w) (1200 / h))
    ∧ scale w h * w <= 1200 ∧ scale w h * h <= 1200
    ∧ (∀ s, s <= Z.max 2 (1200 / Z.max w h) →
            s * w <= 1200 → s * h <= 1200 → s <= scale w h)
    ∧ offsetX w h = (1200 - scale w h * w) / 2
    ∧ offsetY w h = (1200 - scale w h * h) / 2
    ∧ (∀ x y dx dy,
         0 <= x < w → 0 <= y < h →
         0 <= dx < scale w h → 0 <= dy < scale w h →
         pix out (offsetX w h + x * scale w h + dx + 1)
                 (offsetY w h + y * scale w h + dy + 1)
         = pix src (x + 1) (y + 1))
    ∧ (∀ px py, 1 <= px <= 1200 → 1 <= py <= 1200 →
         pix out px py = upscaled_pixel src px py).
Proof.
  intros Hwf w h. pose proof Hwf as (Hw & Hh & _).
  destruct (upscale_spec src Hwf) as (out & Hrun & (Hcw & Hch & Hcl) & Hpix).
  destruct (scale_fits w h Hw Hh) as [Hfw Hfh].
  destruct (offsets_centre w h Hw Hh) as (Hox & Hoxw & Hoy & Hoyh).
  exists out. split; [done|]. split; [done|]. split; [done|].
  split; [exact Hcl|]. split; [reflexivity|]. split; [exact Hfw|].
  split; [exact Hfh|]. split.
  { intros s. by apply scale_greatest. }
  split. { unfold offsetX, scaledWidth. by rewrite (Z.mul_comm w). }
  split. { unfold offsetY, scaledHeight. by rewrite (Z.mul_comm h). }
  split.
  - intros x y dx dy Hx Hy Hdx Hdy.
    fold w h in Hpix. set (s := scale w h) in *.
    set (ox := offsetX w h) in *. set (oy := offsetY w h) in *.
    assert (Hbx : x * s + dx < w * s) by nia.
    assert (Hby : y * s + dy < h * s) by nia.
    assert (0 <= x * s) by nia. assert (0 <= y * s) by nia.
    rewrite Hpix by (unfold on_canvas, targetSize in *; lia).
    unfold upscaled_pixel. fold w h s ox oy.
    rewrite bool_decide_eq_true_2 by lia.
    f_equal; f_equal; apply block_div; lia.
  - intros px py Hpx Hpy. apply Hpix. done.
Qed.

Lemma two_pixels_well_formed : well_formed two_pixels.
Proof.
  unfold well_formed, two_pixels. simpl.
  repeat split; try lia. repeat constructor; lia.
Qed.

Lemma upscale_canvas_witness :
  well_formed two_pixels
  ∧ ∃ out, upscale two_pixels = Ok out ∧ width out = 1200
           ∧ scale 2 1 = 600 ∧ offsetY 2 1 = 300
           ∧ pix out 601 301 = pix two_pixels 2 1.
Proof.
  split; [exact two_pixels_well_formed|].
  destruct (upscale_canvas two_pixels two_pixels_well_formed)
    as (out & Hrun & Hw & _ & _ & _ & _ & _ & _ & _ & _ & Hblock & _).
  exists out. split; [exact Hrun|]. split; [exact Hw|].
  split; [reflexivity|]. split; [reflexivity|].
  apply (Hblock 1 0 0 0);
    [change (0 <= 1 < 2) | change (0 <= 0 < 1)
     | change (0 <= 0 < 600) | change (0 <= 0 < 600)]; lia.
Defined.

End Canvas.

(** ** Content sniffing on examples *)

Example sniff_iframe :
  let html := "<iframe src='/s/abc'></iframe>"%string in
  isSimpleIframe html = true ∧ isRecursive html = true
  ∧ iframeSrcMatch html = Some "/s/abc"%string
  ∧ renderUrl "https://stampchain.io/stamps/deadbeef.html" html
    = "https://stampchain.io/s/abc"%string
  ∧ delay "https://stampchain.io/stamps/deadbeef.html" html = 3000.
Proof. vm_compute. done. Qed.

Example sniff_contentUrl :
  contentUrl "https://stampchain.io/stamps/deadbeef.HTML"
  = "https://stampchain.io/content/deadbeef"%string
  ∧ contentUrl "https://stampchain.io/stamps/deadbeef.htm"
  = "https://stampchain.io/content/deadbeef"%string
  ∧ contentUrl "https://x/a/stamps/b/stamps/c.svg"
  = "https://stampchain.io/content/c.svg"%string
  ∧ contentUrl "abc/stamps/" = "abc/stamps/"%string
  ∧ contentUrl "nostamps" = "https://stampchain.io/content/nostamps"%string.
Proof. vm_compute. done. Qed.

Example sniff_refs :
  hasStampContentRef "x = 'A12345678901234567890';" = true
  ∧ hasStampContentRef "x = 'A123456789';" = false
  ∧ hasStampContentRef "x = 'A1234567890;" = false
  ∧ hasRelativeScriptSrc "<script src = '/s/x'>" = true
  ∧ hasRelativeScriptSrc "<script src='s/x'>" = false
  ∧ iframeSrcMatch "<img src=''><iframe src='b'>" = Some "b"%string
  ∧ iframeSrcMatch "<iframe src='b>" = None.
Proof. vm_compute. done. Qed.

(** ** The generator of the waveform on examples *)

Example audio_seed_collision :
  audio_seed "Aa" = 2112 ∧ audio_seed "BB" = 2112
  ∧ audio_seed "https://stampchain.io/stamps/ab.mp3" = -13392070.
Proof. vm_compute. done. Qed.

Example next_seed_exact :
  next_seed 1 = 1103527590 ∧ next_seed 0 = 12345
  ∧ next_seed 2000000000 = 216544256.
Proof. vm_compute. done. Qed.

Example round_to_double_ties :
  round_to_double (2 ^ 53 + 1) = 2 ^ 53
  ∧ round_to_double (2 ^ 53 + 3) = 2 ^ 53 + 4
  ∧ round_to_double (- (2 ^ 54 + 2)) = - 2 ^ 54
  ∧ round_to_double (2 ^ 54 + 6) = 2 ^ 54 + 8.
Proof. vm_compute. done. Qed.

(** ** The client of the rendering worker *)

Section Worker.
Variable env : Env.
Variable params : CfParams.

Lemma retry_on_server_error (response : HttpResponse) :
  500 <= status response →
  ok response = false ∧ (500 <=? status response) = true.
Proof.
  intros H. unfold ok. split; [|lia].
  apply andb_false_iff. right. lia.
Qed.

Lemma no_retry_on_client_error (response : HttpResponse) :
  400 <= status response <= 499 →
  ok response = false ∧ (500 <=? status response) = false.
Proof.
  intros H. unfold ok. split; [|lia].
  apply andb_false_iff. right. lia.
Qed.

Lemma no_retry_on_abort (error : JsError) :
  isAbort error = true → isRetryable error = false.
Proof. intros H. unfold isRetryable. by rewrite H. Qed.

(** One attempt followed by a retry. *)
Lemma cf_attempts_retry (fetchTimeout : Z) (fuel : nat) (attempt : Z) :
  server_or_network_error (cf_worker env params attempt) →
  attempt < maxRetries →
  cf_attempts env params fetchTimeout (S fuel) attempt
  = (_ ← emit (EvCfPost params fetchTimeout);
     _ ← emit (EvSleep (retryDelay attempt));
     cf_attempts env params fetchTimeout fuel (attempt + 1)).
Proof.
  intros Ho Hlt. simpl.
  assert (Hb : (attempt <? maxRetries) = true) by lia.
  destruct (cf_worker env params attempt) as [response|error]; simpl in Ho.
  - destruct (retry_on_server_error response Ho) as [-> ->]. by rewrite Hb.
  - by rewrite Ho, Hb.
Qed.

(** One attempt that ends the call. *)
Lemma cf_attempts_stop (fetchTimeout : Z) (fuel : nat) (attempt : Z) :
  client_error_or_abort (cf_worker env params attempt)
  ∨ (server_or_network_error (cf_worker env params attempt)
     ∧ maxRetries <= attempt) →
  cf_attempts env params fetchTimeout (S fuel) attempt
  = (_ ← emit (EvCfPost params fetchTimeout); mret None).
Proof.
  intros Ho. simpl.
  destruct (cf_worker env params attempt) as [response|error]; simpl in Ho.
  - destruct Ho as [Ho|[Ho Hge]].
    + by destruct (no_retry_on_client_error response Ho) as [-> ->].
    + destruct (retry_on_server_error response Ho) as [-> ->].
      by replace (attempt <? maxRetries) with false by lia.
  - destruct Ho as [Ho|[Ho Hge]].
    + by rewrite (no_retry_on_abort error Ho).
    + rewrite Ho. by replace (attempt <? maxRetries) with false by lia.
Qed.

Lemma bind_emit {A} (e : Event) (k : M A) :
  (_ ← emit e; k) = (e :: events k, outcome k).
Proof. by destruct k. Qed.

Lemma events_pair {A} (t : list Event) (r : result A) : events (t, r) = t.
Proof. reflexivity. Qed.

(** What an attempt is followed by: the end of the call, or, while
    retries are left, a sleep and the next attempt. *)
Lemma cf_attempts_step (fetchTimeout : Z) (fuel : nat) (attempt : Z) :
  ∃ rest,
    cf_attempts env params fetchTimeout (S fuel) attempt
    = (_ ← emit (EvCfPost params fetchTimeout); rest)
    ∧ ((∃ r, rest = mret r)
       ∨ (attempt < maxRetries
          ∧ rest = (_ ← emit (EvSleep (retryDelay attempt));
                    cf_attempts env params fetchTimeout fuel (attempt + 1)))).
Proof.
  simpl.
  destruct (cf_worker env params attempt) as [response|error].
  - destruct (ok response).
    + destruct (arrayBuffer response) as [buffer|error].
      * eexists. split; [reflexivity|]. left. by eexists.
      * destruct (isRetryable error && (attempt <? maxRetries)) eqn:E;
          (eexists; split; [reflexivity|]); [right | left; by eexists].
        apply andb_true_iff in E as [_ E]. split; [lia | done].
    + destruct ((500 <=? status response) && (attempt <? maxRetries)) eqn:E;
        (eexists; split; [reflexivity|]); [right | left; by eexists].
      apply andb_true_iff in E as [_ E]. split; [lia | done].
  - destruct (isRetryable error && (attempt <? maxRetries)) eqn:E;
      (eexists; split; [reflexivity|]); [right | left; by eexists].
    apply andb_true_iff in E as [_ E]. split; [lia | done].
Qed.

Lemma cf_attempts_events (fuel : nat) (attempt : Z) :
  Z.of_nat fuel = maxRetries + 1 - attempt → (1 <= fuel)%nat →
  ∃ n, (1 <= n <= fuel)%nat
       ∧ events (cf_attempts env params (default 30000 (cf_timeout params))
                             fuel attempt)
         = trace_from params n attempt.
Proof.
  revert attempt. induction fuel as [|fuel IH]; intros attempt Hfuel Hpos;
    [lia|].
  destruct (cf_attempts_step (default 30000 (cf_timeout params)) fuel attempt)
    as (rest & -> & [[r ->] | [Hlt ->]]).
  - exists 1%nat. split; [lia | reflexivity].
  - destruct (IH (attempt + 1)) as (n & Hn & Hev);
      [lia | unfold maxRetries in *; lia |].
    exists (S n). split; [lia|].
    rewrite bind_emit, events_pair, bind_emit, events_pair, Hev.
    destruct n; [lia | reflexivity].
Qed.

(** Whatever the worker answers, the call makes at most three attempts
    and sleeps 2000 ms, then 4000 ms, between them. *)
Lemma renderWithCloudflare_schedule :
  ∃ n, (n <= 3)%nat
       ∧ events (renderWithCloudflare env params) = attempts_trace params n.
Proof.
  unfold renderWithCloudflare.
  destruct (isCfWorkerConfigured env); simpl negb; cbv iota zeta.
  - destruct (cf_attempts_events 3 0) as (n & Hn & Hev); [done | lia |].
    exists n. split; [lia|].
    change (Z.to_nat (maxRetries + 1)) with 3%nat. rewrite Hev.
    destruct n as [|[|[|[|n]]]]; try reflexivity; lia.
  - exists 0%nat. split; [lia | reflexivity].
Qed.

Lemma renderWithCloudflare_exhausted :
  isCfWorkerConfigured env = true →
  (∀ k, 0 <= k <= 2 → server_or_network_error (cf_worker env params k)) →
  renderWithCloudflare env params = (attempts_trace params 3, Ok None).
Proof.
  intros Hcf Hall. unfold renderWithCloudflare. rewrite Hcf. simpl negb.
  cbv iota zeta. change (Z.to_nat (maxRetries + 1)) with 3%nat.
  rewrite cf_attempts_retry by (try apply Hall; unfold maxRetries; lia).
  rewrite cf_attempts_retry by (try apply Hall; unfold maxRetries; lia).
  rewrite cf_attempts_stop
    by (right; split; [apply Hall | unfold maxRetries]; lia).
  reflexivity.
Qed.

Lemma renderWithCloudflare_gives_up (k : nat) :
  isCfWorkerConfigured env = true →
  (k <= 2)%nat →
  (∀ j : nat, (j < k)%nat →
     server_or_network_error (cf_worker env params (Z.of_nat j))) →
  client_error_or_abort (cf_worker env params (Z.of_nat k)) →
  renderWithCloudflare env params = (attempts_trace params (S k), Ok None).
Proof.
  intros Hcf Hk Hbefore Hstop. unfold renderWithCloudflare. rewrite Hcf.
  simpl negb. cbv iota zeta. change (Z.to_nat (maxRetries + 1)) with 3%nat.
  destruct k as [|[|[|k]]]; [| | |lia].
  - rewrite cf_attempts_stop by (left; exact Hstop). reflexivity.
  - rewrite cf_attempts_retry
      by (try apply (Hbefore 0%nat); unfold maxRetries; lia).
    rewrite cf_attempts_stop by (left; exact Hstop). reflexivity.
  - rewrite cf_attempts_retry
      by (try apply (Hbefore 0%nat); unfold maxRetries; lia).
    rewrite cf_attempts_retry
      by (try apply (Hbefore 1%nat); unfold maxRetries; lia).
    rewrite cf_attempts_stop by (left; exact Hstop). reflexivity.
Qed.

(** The retry policy as the client recognises the outcomes: every call
    makes at most three attempts, with 2000 ms before the second and
    4000 ms before the third; attempts that end in a status of 500 or
    more, or in an error that [isRetryable] accepts, are retried until the
    third one fails; an attempt that ends in a 4xx status or in an abort
    or timeout error is the last one, and the call fails. *)
Theorem renderWithCloudflare_retry_policy :
  (∃ n, (n <= 3)%nat
        ∧ events (renderWithCloudflare env params) = attempts_trace params n)
  ∧ (isCfWorkerConfigured env = true →
     (∀ k, 0 <= k <= 2 → server_or_network_error (cf_worker env params k)) →
     renderWithCloudflare env params
     = ([cf_post params; EvSleep 2000; cf_post params; EvSleep 4000;
         cf_post params], Ok None))
  ∧ (isCfWorkerConfigured env = true →
     ∀ k : nat, (k <= 2)%nat →
       (∀ j : nat, (j < k)%nat →
          server_or_network_error (cf_worker env params (Z.of_nat j))) →
       client_error_or_abort (cf_worker env params (Z.of_nat k)) →
       renderWithCloudflare env params
       = (attempts_trace params (S k), Ok None)).
Proof.
  split; [exact renderWithCloudflare_schedule|]. split.
  - exact renderWithCloudflare_exhausted.
  - intros Hcf k. by apply renderWithCloudflare_gives_up.
Qed.

End Worker.

Lemma renderWithCloudflare_retry_policy_witness :
  renderWithCloudflare (sample_env true no_stamp no_server busy_worker)
                       sample_params
  = ([cf_post sample_params; EvSleep 2000; cf_post sample_params;
      EvSleep 4000; cf_post sample_params], Ok None)
  ∧ renderWithCloudflare (sample_env true no_stamp no_server aborting_worker)
                         sample_params
    = ([cf_post sample_params], Ok None).
Proof.
  split.
  - destruct (renderWithCloudflare_retry_policy
                (sample_env true no_stamp no_server busy_worker) sample_params)
      as (_ & Hretry & _).
    apply Hretry; [reflexivity|]. intros k Hk. simpl. lia.
  - destruct (renderWithCloudflare_retry_policy
                (sample_env true no_stamp no_server aborting_worker)
                sample_params) as (_ & _ & Hstop).
    apply (Hstop eq_refl 0%nat); [lia | intros j Hj; lia | reflexivity].
Defined.

(** C3. A refused connection is a network error that the client does not
    retry: the error with which [fetch] rejects then, whose message names
    neither [network] nor [ECONNREFUSED] nor [ETIMEDOUT], is no abort and
    yet not retryable, so the call posts once, does not sleep, and fails;
    a worker that answers 503 every time is asked three times. *)
Theorem connection_refused_not_retried :
  isAbort connection_refused = false
  ∧ isRetryable connection_refused = false
  ∧ renderWithCloudflare (refusing_env connection_refused) sample_params
    = ([cf_post sample_params], Ok None)
  ∧ isAbort fetch_failed = false
  ∧ isRetryable fetch_failed = false
  ∧ renderWithCloudflare (refusing_env fetch_failed) sample_params
    = ([cf_post sample_params], Ok None)
  ∧ renderWithCloudflare (sample_env true no_stamp no_server busy_worker)
                         sample_params
    = ([cf_post sample_params; EvSleep 2000; cf_post sample_params;
        EvSleep 4000; cf_post sample_params], Ok None).
Proof. repeat split; vm_compute; reflexivity. Qed.

(** ** Routing of raster and vector stamps *)

Section Routing.
Variable env : Env.

Lemma bind_lift_ok {A B} (a : A) (k : A → M B) : (x ← lift (Ok a); k x) = k a.
Proof. unfold lift. simpl. by destruct (k a). Qed.

Lemma bind_ok {A B} (t : list Event) (a : A) (k : A → M B) :
  (x ← (t, Ok a); k x) = (t ++ events (k a), outcome (k a)).
Proof. simpl. by destruct (k a). Qed.

Lemma centerOnCanvas_silent (buffer : Uint8Array) (stampNumber : option Z)
    (stamp_mimetype method : string) :
  events (centerOnCanvas env buffer stampNumber stamp_mimetype method) = [].
Proof.
  unfold centerOnCanvas.
  destruct (Image_decode env buffer) as [img|e]; [|reflexivity].
  rewrite bind_lift_ok.
  destruct (Image_center env img) as [bytes|e]; reflexivity.
Qed.

Lemma events_bind {A B} (m : M A) (k : A → M B) :
  events (x ← m; k x)
  = events m ++ match outcome m with
                | Ok a => events (k a)
                | Throw _ => []
                end.
Proof.
  destruct m as [t [a|e]]; simpl.
  - by destruct (k a).
  - by rewrite app_nil_r.
Qed.

(** A render through the worker makes the attempts of its request and
    nothing else. *)
Lemma chrome_events (params : CfParams)
    (k : option Uint8Array → M (option CachedPreview)) :
  (∀ b, events (k b) = []) →
  ∃ n, (n <= 3)%nat
       ∧ events (b ← renderWithCloudflare env params; k b)
         = attempts_trace params n.
Proof.
  intros Hk. destruct (renderWithCloudflare_schedule env params) as (n & Hn & Hev).
  exists n. split; [done|]. rewrite events_bind, Hev.
  destruct (outcome _); by rewrite ?Hk, app_nil_r.
Qed.

Lemma renderSvgWithChrome_events (stamp_url stamp_mimetype : string)
    (stampNumber : option Z) :
  ∃ n, (n <= 3)%nat
       ∧ events (renderSvgWithChrome env stamp_url stamp_mimetype stampNumber)
         = attempts_trace (svg_request stamp_url) n.
Proof.
  apply chrome_events. intros [b|]; [|reflexivity].
  rewrite events_bind, centerOnCanvas_silent. by destruct (outcome _).
Qed.

Lemma renderImageWithChrome_events (stamp_url stamp_mimetype : string)
    (stampNumber : option Z) :
  ∃ n, (n <= 3)%nat
       ∧ events (renderImageWithChrome env stamp_url stamp_mimetype stampNumber)
         = attempts_trace (image_request stamp_url) n.
Proof.
  apply chrome_events. intros [b|]; [|reflexivity].
  rewrite events_bind, centerOnCanvas_silent. by destruct (outcome _).
Qed.

Lemma attempts_trace_no_rasterizer (params : CfParams) (n : nat) :
  Forall (λ e, is_rasterizer_call e = false) (attempts_trace params n).
Proof. destruct n as [|[|[|n]]]; repeat constructor. Qed.

Lemma renderPreview_dispatch (id : string) (sd : StampData) (mt : string) :
  getSpecificStamp env id = Ok (Some sd) →
  stamp_url sd ≠ EmptyString →
  stamp_mimetype sd = Some mt →
  renderPreview env id
  = (_ ← emit (EvLookup id);
     if isRasterType (Some mt) then
       result ← renderRasterPreview env (stamp_url sd) mt (stamp sd);
       match result with
       | Some result => mret (Some result)
       | None => renderImageWithChrome env (stamp_url sd) mt (stamp sd)
       end
     else if String.eqb mt "image/svg+xml" then
       renderSvgPreview env (stamp_url sd) mt (stamp sd)
     else if String.eqb mt "text/html" then
       renderHtmlPreview env (stamp_url sd) mt (stamp sd)
     else if startsWith mt "audio/" then
       renderAudioPreview env (stamp_url sd) mt (stamp sd)
     else if startsWith mt "video/" then
       renderVideoPreview env (stamp_url sd) mt (stamp sd)
     else mret None).
Proof.
  intros Hlookup Hurl Hmt. unfold renderPreview.
  rewrite Hlookup, bind_lift_ok, Hmt.
  apply String.eqb_neq in Hurl. by rewrite Hurl.
Qed.

Lemma renderSvgPreview_foreignObject (stamp_url stamp_mimetype : string)
    (stampNumber : option Z) (response : HttpResponse) :
  fetch env stamp_url = Ok response → ok response = true →
  includes (text response) "<foreignObject" = true →
  renderSvgPreview env stamp_url stamp_mimetype stampNumber
  = (_ ← emit (EvFetch stamp_url);
     renderSvgWithChrome env stamp_url stamp_mimetype stampNumber).
Proof.
  intros Hfetch Hok Hfo. unfold renderSvgPreview.
  rewrite Hfetch, bind_lift_ok, Hok. simpl negb. cbv iota zeta.
  by rewrite Hfo.
Qed.

(** Without the tag the rasterizer is called on the fetched markup. *)
Lemma renderSvgPreview_plain (stamp_url stamp_mimetype : string)
    (stampNumber : option Z) (response : HttpResponse) :
  fetch env stamp_url = Ok response → ok response = true →
  includes (text response) "<foreignObject" = false →
  events (renderSvgPreview env stamp_url stamp_mimetype stampNumber)
  = [EvFetch stamp_url; EvResvg (text response)].
Proof.
  intros Hfetch Hok Hfo. unfold renderSvgPreview.
  rewrite Hfetch, bind_lift_ok, Hok. simpl negb. cbv iota zeta.
  rewrite Hfo, !bind_emit, !events_pair.
  by destruct (resvg_render env _ _).
Qed.

(** With a configured worker the first event of a call is the request. *)
Lemma renderWithCloudflare_first (params : CfParams) :
  isCfWorkerConfigured env = true →
  ∃ rest, events (renderWithCloudflare env params) = cf_post params :: rest.
Proof.
  intros Hcf. unfold renderWithCloudflare. rewrite Hcf. simpl negb.
  cbv iota zeta. change (Z.to_nat (maxRetries + 1)) with 3%nat.
  destruct (cf_attempts_step env params (default 30000 (cf_timeout params))
              2 0) as (rest & -> & _).
  rewrite bind_emit, events_pair. by eexists.
Qed.


(** A render through the worker, then the centring of the screenshot: the
    events are those of the worker, and the result is the centred
    screenshot when the worker returned one and nothing otherwise. *)
Lemma chrome_run (params : CfParams) (stampNumber : option Z)
    (stamp_mimetype method : string) (f : CachedPreview → CachedPreview) :
  let worker := renderWithCloudflare env params in
  let chrome :=
    cfBuffer ← worker;
    match cfBuffer with
    | Some cfBuffer =>
      result ← centerOnCanvas env cfBuffer stampNumber stamp_mimetype method;
      mret (Some (f result))
    | None => mret None
    end in
  events chrome = events worker
  ∧ outcome chrome
    = match outcome worker with
      | Ok (Some screenshot) =>
        match outcome (centerOnCanvas env screenshot stampNumber
                         stamp_mimetype method) with
        | Ok result => Ok (Some (f result))
        | Throw e => Throw e
        end
      | Ok None => Ok None
      | Throw e => Throw e
      end.
Proof.
  intros worker chrome. subst chrome. clearbody worker.
  destruct worker as [t [[b|]|e]]; cbn [events outcome fst snd].
  - rewrite bind_ok.
    pose proof (centerOnCanvas_silent b stampNumber stamp_mimetype method)
      as Hsilent.
    destruct (centerOnCanvas env b stampNumber stamp_mimetype method)
      as [t2 [result|e]]; cbn [events fst] in Hsilent; subst t2.
    + rewrite bind_ok. cbn. by rewrite ?app_nil_r.
    + cbn. by rewrite ?app_nil_r.
  - rewrite bind_ok. cbn. by rewrite ?app_nil_r.
  - cbn. by rewrite ?app_nil_r.
Qed.

(** C4. An SVG stamp whose fetched markup contains the foreignObject tag
    is never given to the resvg rasterizer and always goes to the browser:
    after the lookup and the fetch, the events of the render are exactly
    those of the call of the rendering worker in URL mode for the stamp
    URL, none of them a call of the rasterizer; with a configured worker
    the request for the stamp URL follows the fetch; and the preview is
    the screenshot the worker returned, centred and labelled, or nothing
    when the worker returned nothing. *)
Theorem foreignObject_svg_uses_browser (id : string) (sd : StampData)
    (response : HttpResponse) :
  getSpecificStamp env id = Ok (Some sd) →
  stamp_url sd ≠ EmptyString →
  stamp_mimetype sd = Some "image/svg+xml"%string →
  fetch env (stamp_url sd) = Ok response → ok response = true →
  includes (text response) "<foreignObject" = true →
  let request := mkCfParams (Some (stamp_url sd)) None viewport1200 None None in
  let worker := renderWithCloudflare env request in
  events (renderPreview env id)
  = EvLookup id :: EvFetch (stamp_url sd) :: events worker
  ∧ Forall (λ e, is_rasterizer_call e = false) (events (renderPreview env id))
  ∧ (∃ n, (n <= 3)%nat ∧ events worker = attempts_trace request n)
  ∧ (isCfWorkerConfigured env = true →
     ∃ rest,
       events (renderPreview env id)
       = EvLookup id :: EvFetch (stamp_url sd) :: EvCfPost request 30000
           :: rest)
  ∧ outcome (renderPreview env id)
    = match outcome worker with
      | Ok (Some screenshot) =>
        match outcome (centerOnCanvas env screenshot (stamp sd)
                         "image/svg+xml" "cloudflare-browser") with
        | Ok result =>
          Ok (Some (set_meta "X-ForeignObject" "true"
                      (set_meta "X-Rendering-Engine" "cloudflare-worker"
                                result)))
        | Throw e => Throw e
        end
      | Ok None => Ok None
      | Throw e => Throw e
      end.
Proof.
  intros Hlookup Hurl Hmt Hfetch Hok Hfo request worker.
  destruct (chrome_run request (stamp sd) "image/svg+xml" "cloudflare-browser"
              (λ r, set_meta "X-ForeignObject" "true"
                      (set_meta "X-Rendering-Engine" "cloudflare-worker" r)))
    as [Hev Hout].
  fold worker in Hev, Hout.
  assert (Hrun : renderPreview env id
                 = (EvLookup id :: EvFetch (stamp_url sd) :: events worker,
                    match outcome worker with
                    | Ok (Some screenshot) =>
                      match outcome (centerOnCanvas env screenshot (stamp sd)
                                       "image/svg+xml" "cloudflare-browser") with
                      | Ok result =>
                        Ok (Some (set_meta "X-ForeignObject" "true"
                                    (set_meta "X-Rendering-Engine"
                                       "cloudflare-worker" result)))
                      | Throw e => Throw e
                      end
                    | Ok None => Ok None
                    | Throw e => Throw e
                    end)).
  { rewrite (renderPreview_dispatch id sd _ Hlookup Hurl Hmt).
    change (isRasterType (Some "image/svg+xml"%string)) with false.
    change (String.eqb "image/svg+xml" "image/svg+xml") with true.
    cbv iota.
    rewrite (renderSvgPreview_foreignObject _ _ _ response Hfetch Hok Hfo).
    rewrite !bind_emit. unfold renderSvgWithChrome.
    fold request. fold worker. by rewrite Hev, Hout. }
  destruct (renderWithCloudflare_schedule env request) as (n & Hn & Hsched).
  fold worker in Hsched.
  rewrite Hrun, events_pair. split; [reflexivity|]. split.
  { rewrite Hsched.
    repeat (apply Forall_cons; split; [reflexivity|]).
    apply attempts_trace_no_rasterizer. }
  split; [by exists n|]. split; [|reflexivity].
  intros Hcf.
  destruct (renderWithCloudflare_first request Hcf) as (rest & Hfirst).
  fold worker in Hfirst. exists rest. by rewrite Hfirst.
Qed.

(** A decoded raster stamp: the preview is the encoded canvas of the
    upscale, described with the scale factor that was used. *)
Lemma renderRasterPreview_upscaled (stamp_url stamp_mimetype : string)
    (stampNumber : option Z) (response : HttpResponse)
    (imageBytes pngBuffer : Uint8Array) (sourceImage outputImage : Image) :
  fetch env stamp_url = Ok response → ok response = true →
  arrayBuffer response = Ok imageBytes →
  decoded_source env stamp_mimetype imageBytes = Ok (Some sourceImage) →
  upscale sourceImage = Ok outputImage →
  Image_encode env outputImage = Ok pngBuffer →
  ∃ preview,
    renderRasterPreview env stamp_url stamp_mimetype stampNumber
    = ([EvFetch stamp_url], Ok (Some preview))
    ∧ png preview = toBase64 pngBuffer
    ∧ meta preview !! "X-Scale-Factor"
      = Some (toString (scale (width sourceImage) (height sourceImage)))
    ∧ meta preview !! "X-Dimensions" = Some "1200x1200"%string.
Proof.
  intros Hfetch Hok Hbytes Hdec Hup Henc. unfold renderRasterPreview.
  rewrite Hfetch, bind_lift_ok, Hok. simpl negb. cbv iota.
  rewrite Hbytes, bind_lift_ok. unfold decoded_source in Hdec.
  assert (Hsrc :
    (if String.eqb stamp_mimetype "image/gif"
     then gif ← lift (GIF_decode env imageBytes); mret (head gif)
     else sourceImage ← lift (Image_decode env imageBytes);
          mret (Some sourceImage))
    = ([], Ok (Some sourceImage))).
  { destruct (String.eqb stamp_mimetype "image/gif").
    - destruct (GIF_decode env imageBytes) as [gif|e]; [|done].
      injection Hdec as Hhead. rewrite bind_lift_ok. by rewrite Hhead.
    - destruct (Image_decode env imageBytes) as [img|e]; [|done].
      injection Hdec as ->. by rewrite bind_lift_ok. }
  rewrite Hsrc, bind_ok. cbn [events outcome fst snd app].
  rewrite Hup, bind_lift_ok, Henc, bind_lift_ok.
  eexists. split; [reflexivity|]. split; [reflexivity|]. cbn [meta]. split.
  - rewrite !lookup_insert_ne by done. by rewrite lookup_insert_eq.
  - rewrite !lookup_insert_ne by done. by rewrite lookup_insert_eq.
Qed.

Lemma renderRasterPreview_undecodable (stamp_url stamp_mimetype : string)
    (stampNumber : option Z) (response : HttpResponse)
    (imageBytes : Uint8Array) :
  fetch env stamp_url = Ok response → ok response = true →
  arrayBuffer response = Ok imageBytes →
  decoder_fails env stamp_mimetype imageBytes →
  renderRasterPreview env stamp_url stamp_mimetype stampNumber
  = ([EvFetch stamp_url], Ok None).
Proof.
  intros Hfetch Hok Hbytes Hdec. unfold renderRasterPreview.
  rewrite Hfetch, bind_lift_ok, Hok. simpl negb. cbv iota.
  rewrite Hbytes, bind_lift_ok. unfold decoder_fails in Hdec.
  destruct (String.eqb stamp_mimetype "image/gif").
  - destruct Hdec as [[e He] | He]; rewrite He; reflexivity.
  - destruct Hdec as [e He]. rewrite He. reflexivity.
Qed.

Lemma append_assoc (a b c : string) : (a +:+ b) +:+ c = a +:+ b +:+ c.
Proof.
  rewrite <- (str_chars ((a +:+ b) +:+ c)), <- (str_chars (a +:+ b +:+ c)).
  by rewrite !chars_app, <- app_assoc.
Qed.

(** The page of [renderImageWithChrome] holds the stamp URL as the quoted
    source of its image element, after a style sheet that centres the
    body. *)
Lemma imageHtml_wraps (stamp_url : string) :
  ∃ before after,
    imageHtml stamp_url
    = before +:+ "<img src=" +:+ dq +:+ stamp_url +:+ dq +:+ after
    ∧ includes before "align-items: center; justify-content: center" = true.
Proof.
  exists (substring 0 (String.length imageHtml_head - 10) imageHtml_head),
         (substring 1 (String.length imageHtml_tail - 1) imageHtml_tail).
  split; [|vm_compute; reflexivity].
  unfold imageHtml.
  change imageHtml_head
    with ((substring 0 (String.length imageHtml_head - 10) imageHtml_head
           +:+ "<img src=") +:+ dq).
  change imageHtml_tail
    with (dq +:+ substring 1 (String.length imageHtml_tail - 1) imageHtml_tail)
    at 1.
  by rewrite !append_assoc.
Qed.

(** C7. A raster stamp whose bytes the pixel decoder cannot turn into an
    image does not fail there: after the lookup and the fetch the render
    goes on with a call of the rendering worker in HTML mode, for a page
    that centres its body and holds the stamp URL as the source of its
    image element; with a configured worker that request follows the fetch; the preview is the
    screenshot the worker returned, centred and labelled; and the render
    gives nothing exactly when the worker gave nothing. *)
Theorem undecodable_raster_falls_back (id : string) (sd : StampData)
    (mt : string) (response : HttpResponse) (imageBytes : Uint8Array) :
  getSpecificStamp env id = Ok (Some sd) →
  stamp_url sd ≠ EmptyString →
  stamp_mimetype sd = Some mt →
  startsWith mt "image/" = true → mt ≠ "image/svg+xml"%string →
  fetch env (stamp_url sd) = Ok response → ok response = true →
  arrayBuffer response = Ok imageBytes →
  decoder_fails env mt imageBytes →
  let request :=
    mkCfParams None (Some (imageHtml (stamp_url sd))) viewport1200 (Some 2000)
               None in
  let worker := renderWithCloudflare env request in
  events (renderPreview env id)
  = EvLookup id :: EvFetch (stamp_url sd) :: events worker
  ∧ (∃ n, (n <= 3)%nat ∧ events worker = attempts_trace request n)
  ∧ (isCfWorkerConfigured env = true →
     ∃ rest,
       events (renderPreview env id)
       = EvLookup id :: EvFetch (stamp_url sd) :: EvCfPost request 30000
           :: rest)
  ∧ (∃ before after,
       imageHtml (stamp_url sd)
       = before +:+ "<img src=" +:+ dq +:+ stamp_url sd +:+ dq +:+ after
       ∧ includes before "align-items: center; justify-content: center"
         = true)
  ∧ outcome (renderPreview env id)
    = match outcome worker with
      | Ok (Some screenshot) =>
        match outcome (centerOnCanvas env screenshot (stamp sd) mt
                         "cloudflare-browser") with
        | Ok result =>
          Ok (Some (set_meta "X-Rendering-Engine" "cloudflare-worker" result))
        | Throw e => Throw e
        end
      | Ok None => Ok None
      | Throw e => Throw e
      end
  ∧ (outcome (renderPreview env id) = Ok None ↔ outcome worker = Ok None).
Proof.
  intros Hlookup Hurl Hmt Himg Hsvg Hfetch Hok Hbytes Hdec request worker.
  destruct (chrome_run request (stamp sd) mt "cloudflare-browser"
              (set_meta "X-Rendering-Engine" "cloudflare-worker"))
    as [Hev Hout].
  fold worker in Hev, Hout.
  assert (Hrun : renderPreview env id
                 = (EvLookup id :: EvFetch (stamp_url sd) :: events worker,
                    match outcome worker with
                    | Ok (Some screenshot) =>
                      match outcome (centerOnCanvas env screenshot (stamp sd) mt
                                       "cloudflare-browser") with
                      | Ok result =>
                        Ok (Some (set_meta "X-Rendering-Engine"
                                    "cloudflare-worker" result))
                      | Throw e => Throw e
                      end
                    | Ok None => Ok None
                    | Throw e => Throw e
                    end)).
  { rewrite (renderPreview_dispatch id sd mt Hlookup Hurl Hmt).
    unfold isRasterType. rewrite Himg.
    apply String.eqb_neq in Hsvg. rewrite Hsvg. simpl negb. cbv iota.
    rewrite (renderRasterPreview_undecodable _ _ _ response imageBytes
               Hfetch Hok Hbytes Hdec).
    simpl andb. cbv iota. rewrite bind_emit, bind_ok.
    unfold renderImageWithChrome. fold request. fold worker.
    by rewrite Hev, Hout. }
  destruct (renderWithCloudflare_schedule env request) as (n & Hn & Hsched).
  fold worker in Hsched.
  rewrite Hrun, events_pair. split; [reflexivity|].
  split; [by exists n|]. split.
  { intros Hcf.
    destruct (renderWithCloudflare_first request Hcf) as (rest & Hfirst).
    fold worker in Hfirst. exists rest. by rewrite Hfirst. }
  split; [apply imageHtml_wraps|]. split; [reflexivity|].
  unfold outcome at 1. cbn [snd].
  destruct (outcome worker) as [[b|]|e]; [|done|done].
  destruct (outcome (centerOnCanvas env b (stamp sd) mt "cloudflare-browser"));
    split; discriminate.
Qed.

End Routing.

Lemma foreignObject_svg_uses_browser_witness :
  let request :=
    mkCfParams (Some (stamp_url svg_stamp)) None viewport1200 None None in
  events (renderPreview svg_browser_env "ab")
  = [EvLookup "ab"; EvFetch (stamp_url svg_stamp); EvCfPost request 30000]
  ∧ Forall (λ e, is_rasterizer_call e = false)
           (events (renderPreview svg_browser_env "ab"))
  ∧ ∃ result,
      outcome (centerOnCanvas svg_browser_env screenshot (stamp svg_stamp)
                 "image/svg+xml" "cloudflare-browser") = Ok result
      ∧ outcome (renderPreview svg_browser_env "ab")
        = Ok (Some (set_meta "X-ForeignObject" "true"
                      (set_meta "X-Rendering-Engine" "cloudflare-worker"
                                result))).
Proof.
  intros request.
  destruct (foreignObject_svg_uses_browser svg_browser_env "ab" svg_stamp
              (mkResponse 200 (Ok [])
                 "<svg><foreignObject><p>hi</p></foreignObject></svg>")
              eq_refl ltac:(discriminate) eq_refl eq_refl eq_refl eq_refl)
    as (Hev & Hno & _ & _ & Hout).
  split; [rewrite Hev; reflexivity|]. split; [exact Hno|].
  eexists. split; [reflexivity|]. rewrite Hout. reflexivity.
Defined.

Lemma undecodable_raster_falls_back_witness :
  let request :=
    mkCfParams None (Some (imageHtml (stamp_url webp_stamp))) viewport1200
               (Some 2000) None in
  events (renderPreview webp_browser_env "ab")
  = [EvLookup "ab"; EvFetch (stamp_url webp_stamp); EvCfPost request 30000]
  ∧ ∃ result,
      outcome (centerOnCanvas webp_browser_env screenshot (stamp webp_stamp)
                 "image/webp" "cloudflare-browser") = Ok result
      ∧ outcome (renderPreview webp_browser_env "ab")
        = Ok (Some (set_meta "X-Rendering-Engine" "cloudflare-worker" result)).
Proof.
  intros request.
  assert (Hdec : decoder_fails webp_browser_env "image/webp" riff).
  { unfold decoder_fails. simpl. by eexists. }
  destruct (undecodable_raster_falls_back webp_browser_env "ab" webp_stamp
              "image/webp" (mkResponse 200 (Ok riff) EmptyString) riff
              eq_refl ltac:(discriminate) eq_refl eq_refl
              ltac:(discriminate) eq_refl eq_refl eq_refl Hdec)
    as (Hev & _ & _ & _ & Hout & _).
  split; [rewrite Hev; reflexivity|].
  eexists. split; [reflexivity|]. rewrite Hout. reflexivity.
Defined.

(** ** Large raster sources *)

(** C9. Edge cases of the upscale arithmetic: when the larger dimension
    lies in (600, 1200] the clamped scale factor is 1; when it exceeds
    1200 the factor is 0, no pixel is written, and the result is a fully
    transparent canvas of 1200 by 1200; the renderer returns that canvas,
    encoded and labelled with the scale factor 0, as its preview (neither
    a reduced image nor an error). *)
Theorem upscale_large_sources (src : Image) :
  well_formed src →
  let w := width src in
  let h := height src in
  (600 < Z.max w h <= 1200 → scale w h = 1)
  ∧ (1200 < Z.max w h →
     scale w h = 0
     ∧ ∃ out,
         upscale src = Ok out
         ∧ width out = 1200 ∧ height out = 1200
         ∧ Z.of_nat (List.length (bitmap out)) = 1200 * 1200
         ∧ (∀ px py, 1 <= px <= 1200 → 1 <= py <= 1200 → pix out px py = 0)
         ∧ ∀ env stamp_url stamp_mimetype stampNumber response imageBytes
             pngBuffer,
             fetch env stamp_url = Ok response → ok response = true →
             arrayBuffer response = Ok imageBytes →
             decoded_source env stamp_mimetype imageBytes = Ok (Some src) →
             Image_encode env out = Ok pngBuffer →
             ∃ preview,
               renderRasterPreview env stamp_url stamp_mimetype stampNumber
               = ([EvFetch stamp_url], Ok (Some preview))
               ∧ png preview = toBase64 pngBuffer
               ∧ meta preview !! "X-Scale-Factor" = Some "0"%string).
Proof.
  intros Hwf w h. pose proof Hwf as (Hw & Hh & _). fold w h in Hw, Hh.
  assert (Hdiv : ∀ d, 600 < d <= 1200 → targetSize / d = 1).
  { intros d Hd. symmetry. unfold targetSize.
    apply (Z.div_unique_pos 1200 d 1 (1200 - d)); lia. }
  assert (Hbig : ∀ d, 1200 < d → targetSize / d = 0).
  { intros d Hd. apply Z.div_small. unfold targetSize. lia. }
  assert (Hpos : ∀ d, 1 <= d <= 1200 → 1 <= targetSize / d).
  { intros d Hd. apply Z.div_le_lower_bound; unfold targetSize; lia. }
  assert (Hnn : ∀ d, 1 <= d → 0 <= targetSize / d).
  { intros d Hd. apply Z.div_pos; unfold targetSize; lia. }
  split.
  - intros Hd. unfold scale, rawScale. rewrite (Hdiv _ Hd).
    destruct (Z.max_spec w h) as [[Hlt Hmax]|[Hlt Hmax]]; rewrite Hmax in Hd.
    + rewrite (Hdiv h Hd). pose proof (Hpos w ltac:(lia)). lia.
    + rewrite (Hdiv w Hd). pose proof (Hpos h ltac:(lia)). lia.
  - intros Hd.
    assert (Hs : scale w h = 0).
    { unfold scale, rawScale. rewrite (Hbig _ Hd).
      destruct (Z.max_spec w h) as [[Hlt Hmax]|[Hlt Hmax]]; rewrite Hmax in Hd.
      - rewrite (Hbig h Hd). pose proof (Hnn w Hw). lia.
      - rewrite (Hbig w Hd). pose proof (Hnn h Hh). lia. }
    split; [exact Hs|].
    destruct (upscale_spec src Hwf) as (out & Hrun & (Hcw & Hch & Hcl) & Hpix).
    exists out. split; [done|]. split; [done|]. split; [done|].
    split; [exact Hcl|]. split.
    + intros px py Hpx Hpy. rewrite Hpix by done.
      unfold upscaled_pixel. fold w h. rewrite Hs.
      rewrite bool_decide_eq_false_2 by lia. done.
    + intros env stamp_url stamp_mimetype stampNumber response imageBytes
        pngBuffer Hfetch Hok Hbytes Hdec Henc.
      destruct (renderRasterPreview_upscaled env stamp_url stamp_mimetype
                  stampNumber response imageBytes pngBuffer src out
                  Hfetch Hok Hbytes Hdec Hrun Henc)
        as (preview & Hrender & Hpng & Hscale & _).
      exists preview. split; [exact Hrender|]. split; [exact Hpng|].
      rewrite Hscale. fold w h. by rewrite Hs.
Qed.

Lemma wide_strip_well_formed : well_formed wide_strip.
Proof.
  unfold well_formed, wide_strip. cbn [bitmap width height].
  rewrite length_replicate. repeat split; try lia.
  apply Forall_replicate. lia.
Qed.

Lemma upscale_large_sources_witness :
  well_formed wide_strip
  ∧ 1200 < Z.max 1201 1
  ∧ scale 1201 1 = 0
  ∧ ∃ out, upscale wide_strip = Ok out ∧ pix out 600 600 = 0.
Proof.
  split; [exact wide_strip_well_formed|]. split; [simpl; lia|].
  destruct (upscale_large_sources wide_strip wide_strip_well_formed)
    as [_ Hbig].
  destruct Hbig as (Hs & out & Hrun & _ & _ & _ & Hpix & _); [simpl; lia|].
  split; [exact Hs|]. exists out. split; [exact Hrun|].
  apply Hpix; lia.
Defined.

(** ** Markup stamps *)

Lemma prefix_empty (s : string) : String.prefix EmptyString s = true.
Proof. by destruct s. Qed.

Lemma includes_cons (c : ascii) (s x : string) :
  includes (String c s) x = String.prefix x (String c s) || includes s x.
Proof. reflexivity. Qed.

Section Markup.
Variable env : Env.

Lemma events_try_catch_silent {A} (m : M (option A)) :
  events (try_catch m (λ _, mret None)) = events m.
Proof.
  destruct m as [t [a|e]]; simpl; [done|]. by rewrite app_nil_r.
Qed.

(** The document is fetched, then the worker receives [html_request]. *)
Lemma renderHtmlPreview_first_request (stamp_url stamp_mimetype : string)
    (stampNumber : option Z) (response : HttpResponse) :
  isCfWorkerConfigured env = true →
  fetch env stamp_url = Ok response → ok response = true →
  ∃ rest,
    events (renderHtmlPreview env stamp_url stamp_mimetype stampNumber)
    = EvFetch stamp_url
        :: cf_post (html_request env stamp_url (text response)) :: rest.
Proof.
  intros Hcf Hfetch Hok. unfold renderHtmlPreview. rewrite Hcf. simpl negb.
  cbv iota. rewrite events_try_catch_silent, Hfetch.
  rewrite bind_emit, events_pair, bind_lift_ok, Hok. simpl negb.
  cbv iota zeta.
  destruct (renderWithCloudflare_first env
              (html_request env stamp_url (text response)) Hcf)
    as (rest & Hrest).
  rewrite events_bind. unfold html_request in *.
  destruct (isRecursive (text response)); rewrite Hrest; simpl;
    eexists; reflexivity.
Qed.

Lemma delay_complex (stamp_url rawHtml : string) :
  (isRecursive rawHtml = true ∧ isSimpleIframe rawHtml = false)
  ∨ includes stamp_url "recursive" = true
  ∨ includes stamp_url "fractal" = true
  ∨ hasCanvas rawHtml = true →
  delay stamp_url rawHtml = 8000.
Proof.
  intros H. unfold delay, isComplex.
  destruct H as [[Hr Hs] | [H | [H | H]]];
    rewrite ?Hr, ?Hs, ?H; simpl; by rewrite ?orb_true_r.
Qed.

Lemma delay_simple (stamp_url rawHtml : string) :
  isRecursive rawHtml = false ∨ isSimpleIframe rawHtml = true →
  includes stamp_url "recursive" = false →
  includes stamp_url "fractal" = false →
  hasCanvas rawHtml = false →
  delay stamp_url rawHtml = 3000.
Proof.
  intros H Hr Hf Hc. unfold delay, isComplex. rewrite Hr, Hf, Hc.
  destruct H as [-> | ->]; simpl; by rewrite ?andb_false_r.
Qed.

(** C6. The first request for a fetched HTML document carries
    the post-load delay [delay] and, exactly when the document is flagged
    recursive (URL mode), the timeout 45000; inline requests carry no
    timeout and run under the default of 30000.  The delay is 8000 when the
    document is recursive without being a simple iframe wrapper, when the
    stamp URL contains [recursive] or [fractal], or when the document has a
    canvas indicator; it is 3000 when the document has no canvas, animation
    or async indicator, the URL is not flagged, and the document is not
    recursive or is a simple iframe wrapper. *)
Theorem html_delay_and_timeout (stamp_url stamp_mimetype : string)
    (stampNumber : option Z) (response : HttpResponse) :
  isCfWorkerConfigured env = true →
  fetch env stamp_url = Ok response → ok response = true →
  let rawHtml := text response in
  ∃ request fetchTimeout rest,
    events (renderHtmlPreview env stamp_url stamp_mimetype stampNumber)
    = EvFetch stamp_url :: EvCfPost request fetchTimeout :: rest
    ∧ cf_delay request = Some (delay stamp_url rawHtml)
    ∧ cf_timeout request = (if isRecursive rawHtml then Some 45000 else None)
    ∧ fetchTimeout = (if isRecursive rawHtml then 45000 else 30000)
    ∧ ((isRecursive rawHtml = true ∧ isSimpleIframe rawHtml = false)
       ∨ includes stamp_url "recursive" = true
       ∨ includes stamp_url "fractal" = true
       ∨ hasCanvas rawHtml = true →
       delay stamp_url rawHtml = 8000)
    ∧ (hasCanvas rawHtml = false → hasAnimation rawHtml = false →
       hasAsyncLoad rawHtml = false →
       includes stamp_url "recursive" = false →
       includes stamp_url "fractal" = false →
       isRecursive rawHtml = false ∨ isSimpleIframe rawHtml = true →
       delay stamp_url rawHtml = 3000).
Proof.
  intros Hcf Hfetch Hok rawHtml.
  destruct (renderHtmlPreview_first_request stamp_url stamp_mimetype
              stampNumber response Hcf Hfetch Hok) as (rest & Hev).
  exists (html_request env stamp_url rawHtml),
         (default 30000 (cf_timeout (html_request env stamp_url rawHtml))),
         rest.
  split; [exact Hev|]. unfold html_request. fold rawHtml.
  split; [by destruct (isRecursive rawHtml)|].
  split; [by destruct (isRecursive rawHtml)|].
  split; [by destruct (isRecursive rawHtml)|].
  split; [apply delay_complex|].
  intros Hc _ _ Hr Hf Hs. by apply delay_simple.
Qed.












End Markup.

Lemma html_delay_and_timeout_witness :
  ∃ request fetchTimeout rest,
    events (renderHtmlPreview (html_env iframe_page) html_url "text/html" None)
    = EvFetch html_url :: EvCfPost request fetchTimeout :: rest
    ∧ cf_delay request = Some 3000
    ∧ fetchTimeout = 45000.
Proof.
  destruct (html_delay_and_timeout (html_env iframe_page) html_url "text/html"
              None (ok_page iframe_page) eq_refl eq_refl eq_refl)
    as (request & fetchTimeout & rest & Hev & Hdelay & _ & Htimeout & _).
  exists request, fetchTimeout, rest.
  split; [exact Hev|]. split; [exact Hdelay | exact Htimeout].
Defined.

(** A page with a canvas indicator and no reference to other content is
    complex and gets the delay of 8000, but it is sent inline: the request
    has no timeout and runs under the default of 30000, not under 45000. *)
Lemma canvas_page_default_timeout :
  hasCanvas canvas_page = true
  ∧ isComplex html_url canvas_page = true
  ∧ events (renderHtmlPreview (html_env canvas_page) html_url "text/html" None)
    = [EvFetch html_url;
       EvCfPost (mkCfParams None (Some canvas_page) viewport1200 (Some 8000) None)
                30000]
  ∧ ¬ ∃ request,
        EvCfPost request 45000
        ∈ events (renderHtmlPreview (html_env canvas_page) html_url
                    "text/html" None).
Proof.
  assert (Hev : events (renderHtmlPreview (html_env canvas_page) html_url
                          "text/html" None)
                = [EvFetch html_url;
                   EvCfPost (mkCfParams None (Some canvas_page) viewport1200
                               (Some 8000) None) 30000])
    by (vm_compute; reflexivity).
  split; [reflexivity|]. split; [reflexivity|]. split; [exact Hev|].
  rewrite Hev. intros [request Hin].
  apply elem_of_cons in Hin as [Hin|Hin]; [discriminate|].
  apply elem_of_cons in Hin as [Hin|Hin]; [|by apply elem_of_nil in Hin].
  injection Hin as _ Ht. discriminate.
Qed.

(** A page whose only indicator is an animation timer, with no reference
    to other content, is not flagged complex: it is sent inline with the
    delay of 3000. *)
Example animation_page_short_delay :
  hasAnimation animation_page = true
  ∧ isRecursive animation_page = false
  ∧ isComplex html_url animation_page = false
  ∧ delay html_url animation_page = 3000.
Proof. vm_compute. done. Qed.




(** Where another element has a [src] before the iframe, the pattern of
    the wrapper case takes that one, against the comment of the code
    (render the iframe target directly): the browser is sent to the
    image. *)
Example src_of_another_element_comes_first :
  isSimpleIframe image_and_iframe_page = true
  ∧ events (renderHtmlPreview (html_env image_and_iframe_page) html_url
              "text/html" None)
    = [EvFetch html_url;
       EvCfPost (mkCfParams (Some "logo.png"%string) None viewport1200
                   (Some 3000) (Some 45000)) 45000].
Proof. split; vm_compute; reflexivity. Qed.

(** ** Audio stamps *)

Section Audio.

Lemma for_loop_preserves {St} (P : St → Prop) (body : Z → St → result St)
    (n : nat) (i : Z) (s0 : St) :
  P s0 → (∀ i s, P s → ∃ s', body i s = Ok s' ∧ P s') →
  ∃ s', for_loop n i body s0 = Ok s' ∧ P s'.
Proof.
  intros H0 Hstep. revert i s0 H0.
  induction n as [|n IH]; intros i s0 H0; simpl; [by exists s0|].
  destruct (Hstep i s0 H0) as (s1 & -> & H1). by apply IH.
Qed.

Lemma for_range_preserves {St} (P : St → Prop) (body : Z → St → result St)
    (lo hi : Z) (s0 : St) :
  P s0 → (∀ i s, P s → ∃ s', body i s = Ok s' ∧ P s') →
  ∃ s', for_range lo hi body s0 = Ok s' ∧ P s'.
Proof. apply for_loop_preserves. Qed.

Lemma setPixelAt_canvas (img : Image) (x y p : Z) :
  is_canvas img → on_canvas x y →
  ∃ img', setPixelAt img x y p = Ok img' ∧ is_canvas img'.
Proof.
  intros Hc Hxy. destruct (setPixelAt_paints img x y p Hc Hxy)
    as (img' & Hset & Hc' & _). by exists img'.
Qed.

Lemma plot_canvas (img : Image) (px py color : Z) :
  is_canvas img → ∃ img', plot img px py color = Ok img' ∧ is_canvas img'.
Proof.
  intros Hc. unfold plot.
  destruct ((1 <=? px) && (px <=? targetSize) && (1 <=? py)
            && (py <=? targetSize)) eqn:E; [|by exists img].
  apply setPixelAt_canvas; [done|].
  rewrite !andb_true_iff, !Z.leb_le in E. unfold on_canvas. lia.
Qed.

Lemma guarded_row_canvas (img : Image) (x py color width : Z) :
  is_canvas img → 1 <= py <= targetSize →
  ∃ img',
    for_range 0 width (λ dx outputImage,
      let px := x + dx in
      if (px <? 1) || (px >? targetSize) then Ok outputImage
      else setPixelAt outputImage px py color) img = Ok img'
    ∧ is_canvas img'.
Proof.
  intros Hc Hpy. apply for_range_preserves; [done|].
  intros dx img1 Hc1. cbv zeta.
  destruct ((x + dx <? 1) || (x + dx >? targetSize)) eqn:E;
    [by exists img1|].
  apply orb_false_iff in E as [E1 E2].
  apply setPixelAt_canvas; [done|]. unfold on_canvas. lia.
Qed.

Lemma draw_bars_canvas (env : Env) (seed : Z) (img : Image) :
  is_canvas img →
  ∃ seed' img', draw_bars env seed img = Ok (seed', img') ∧ is_canvas img'.
Proof.
  intros Hc. unfold draw_bars.
  destruct (for_range_preserves (λ st : Z * Image, is_canvas st.2)
              (λ i '(seed, outputImage),
                 let seed := next_seed seed in
                 let barHeight := barHeight env i (Z.rem seed 700) in
                 let x := startX + i * (barWidth + gap) in
                 let seed := next_seed seed in
                 let color := default 0 (colors !! Z.to_nat (Z.rem seed 4)) in
                 match
                   for_range (- barHeight) (barHeight + 1) (λ dy outputImage,
                     let py := centerY + dy in
                     if (py <? 1) || (py >? targetSize) then Ok outputImage
                     else
                       for_range 0 barWidth (λ dx outputImage,
                         let px := x + dx in
                         if (px <? 1) || (px >? targetSize) then Ok outputImage
                         else setPixelAt outputImage px py color) outputImage)
                     outputImage
                 with
                 | Ok outputImage => Ok (seed, outputImage)
                 | Throw e => Throw e
                 end) 0 barCount (seed, img))
    as ([seed' img'] & Hrun & Hc'); [done | | by exists seed', img'].
  intros i [seed1 img1] Hc1. cbv zeta. simpl in Hc1.
  match goal with
  | |- context [for_range ?lo ?hi ?body img1] =>
      destruct (for_range_preserves is_canvas body lo hi img1)
        as (img2 & -> & Hc2)
  end; [done | | by eexists (_, img2)].
  intros dy img2 Hc2. cbv zeta.
  destruct ((centerY + dy <? 1) || (centerY + dy >? targetSize)) eqn:E;
    [by exists img2|].
  apply orb_false_iff in E as [E1 E2].
  apply guarded_row_canvas; [done | lia].
Qed.

Lemma draw_circle_canvas (img : Image) :
  is_canvas img → ∃ img', draw_circle img = Ok img' ∧ is_canvas img'.
Proof.
  intros Hc. unfold draw_circle. cbv zeta.
  apply for_range_preserves; [done|]. intros dy img1 Hc1.
  apply for_range_preserves; [done|]. intros dx img2 Hc2.
  destruct (dx * dx + dy * dy <=? circleR * circleR); [|by exists img2].
  by apply plot_canvas.
Qed.

Lemma draw_triangle_canvas (env : Env) (img : Image) :
  is_canvas img → ∃ img', draw_triangle env img = Ok img' ∧ is_canvas img'.
Proof.
  intros Hc. unfold draw_triangle. cbv zeta.
  apply for_range_preserves; [done|]. intros row img1 Hc1.
  apply for_range_preserves; [done|]. intros col img2 Hc2.
  by apply plot_canvas.
Qed.

(** The drawing never throws: it yields a canvas for every seed. *)
Lemma waveform_total (env : Env) (seed : Z) :
  ∃ img, waveform env seed = Ok img ∧ is_canvas img.
Proof.
  unfold waveform.
  destruct (fill_new_Image targetSize targetSize 0x14001fff)
    as (Hw & Hh & Hl & _).
  destruct (draw_bars_canvas env seed
              (fill (new_Image targetSize targetSize) 0x14001fff))
    as (seed' & img1 & -> & Hc1).
  { unfold is_canvas. rewrite Hw, Hh, Hl. unfold targetSize. lia. }
  destruct (draw_circle_canvas img1 Hc1) as (img2 & -> & Hc2).
  by apply draw_triangle_canvas.
Qed.

Lemma renderAudioPreview_run (env : Env) (stamp_url stamp_mimetype : string)
    (stampNumber : option Z) :
  events (renderAudioPreview env stamp_url stamp_mimetype stampNumber) = []
  ∧ preview_png (renderAudioPreview env stamp_url stamp_mimetype stampNumber)
    = match waveform env (audio_seed stamp_url) with
      | Throw e => Throw e
      | Ok outputImage =>
        match Image_encode env outputImage with
        | Throw e => Throw e
        | Ok pngBuffer => Ok (Some (toBase64 pngBuffer))
        end
      end.
Proof.
  unfold renderAudioPreview, preview_png.
  destruct (waveform env (audio_seed stamp_url)) as [img|e]; [|done].
  rewrite bind_lift_ok.
  destruct (Image_encode env img) as [buf|e]; done.
Qed.

Lemma waveform_same_engine (env1 env2 : Env) (seed : Z) :
  barHeight env1 = barHeight env2 → halfWidth env1 = halfWidth env2 →
  waveform env1 seed = waveform env2 seed.
Proof.
  intros Hb Hh. unfold waveform, draw_bars, draw_triangle.
  by rewrite Hb, Hh.
Qed.

(** C5. The waveform is deterministic up to the encoder: two renders
    whose URLs give the same seed (in particular two renders of the same
    stamp), at any two times and whatever the network and the other
    collaborators do, hand the same canvas of 1200 by 1200 pixels to the
    PNG encoder, make no request, and return the base64 text of what the
    encoder answers for that canvas; the two PNGs are equal exactly when
    the encoder answers the same for the canvas both times. *)
Theorem renderAudioPreview_deterministic (env1 env2 : Env)
    (url1 url2 mt1 mt2 : string) (n1 n2 : option Z) :
  barHeight env1 = barHeight env2 → halfWidth env1 = halfWidth env2 →
  audio_seed url1 = audio_seed url2 →
  let run1 := renderAudioPreview env1 url1 mt1 n1 in
  let run2 := renderAudioPreview env2 url2 mt2 n2 in
  ∃ outputImage,
    waveform env1 (audio_seed url1) = Ok outputImage
    ∧ waveform env2 (audio_seed url2) = Ok outputImage
    ∧ is_canvas outputImage
    ∧ events run1 = [] ∧ events run2 = []
    ∧ preview_png run1
      = match Image_encode env1 outputImage with
        | Ok pngBuffer => Ok (Some (toBase64 pngBuffer))
        | Throw e => Throw e
        end
    ∧ preview_png run2
      = match Image_encode env2 outputImage with
        | Ok pngBuffer => Ok (Some (toBase64 pngBuffer))
        | Throw e => Throw e
        end
    ∧ (preview_png run1 = preview_png run2
       ↔ Image_encode env1 outputImage = Image_encode env2 outputImage).
Proof.
  intros Hb Hh Hseed run1 run2.
  destruct (renderAudioPreview_run env1 url1 mt1 n1) as [Hev1 Hpng1].
  destruct (renderAudioPreview_run env2 url2 mt2 n2) as [Hev2 Hpng2].
  destruct (waveform_total env1 (audio_seed url1)) as (img & Hrun1 & Hc).
  assert (Hrun2 : waveform env2 (audio_seed url2) = Ok img).
  { by rewrite <- Hseed, <- (waveform_same_engine env1 env2 _ Hb Hh). }
  rewrite Hrun1 in Hpng1. rewrite Hrun2 in Hpng2.
  exists img. fold run1 in Hev1, Hpng1. fold run2 in Hev2, Hpng2.
  repeat (split; [assumption|]).
  rewrite Hpng1, Hpng2.
  destruct (Image_encode env1 img) as [b1|e1],
           (Image_encode env2 img) as [b2|e2]; split; intros H;
    try discriminate; try congruence.
  injection H as H. apply toBase64_inj in H. by rewrite H.
Qed.

End Audio.

Lemma renderAudioPreview_deterministic_witness :
  ∃ outputImage,
    waveform (audio_env_at noon) (audio_seed (stamp_url audio_stamp))
    = Ok outputImage
    ∧ waveform (audio_env_at (noon + 60000)) (audio_seed (stamp_url audio_stamp))
      = Ok outputImage
    ∧ is_canvas outputImage.
Proof.
  destruct (renderAudioPreview_deterministic (audio_env_at noon) (audio_env_at (noon + 60000))
              (stamp_url audio_stamp) (stamp_url audio_stamp)
              "audio/mpeg" "audio/mpeg" (Some 9) (Some 9)
              eq_refl eq_refl eq_refl)
    as (img & H1 & H2 & Hc & _).
  exists img. split; [exact H1|]. split; [exact H2 | exact Hc].
Defined.

(** The bytes do depend on the time: with an encoder that writes the
    second of the call into the file, as the one of ImageScript does, two
    renders of the same audio stamp a minute apart give different PNGs. *)
Lemma waveform_bytes_depend_on_time :
  preview_png (renderAudioPreview (audio_env_at noon) (stamp_url audio_stamp)
                 "audio/mpeg" (Some 9))
  ≠ preview_png (renderAudioPreview (audio_env_at (noon + 60000)) (stamp_url audio_stamp)
                   "audio/mpeg" (Some 9)).
Proof.
  destruct (renderAudioPreview_run (audio_env_at noon) (stamp_url audio_stamp)
              "audio/mpeg" (Some 9)) as [_ Hpng1].
  destruct (renderAudioPreview_run (audio_env_at (noon + 60000)) (stamp_url audio_stamp)
              "audio/mpeg" (Some 9)) as [_ Hpng2].
  destruct (waveform_total (audio_env_at noon)
              (audio_seed (stamp_url audio_stamp))) as (img & Hrun1 & _).
  assert (Hrun2 : waveform (audio_env_at (noon + 60000))
                    (audio_seed (stamp_url audio_stamp)) = Ok img).
  { rewrite <- (waveform_same_engine (audio_env_at noon) (audio_env_at (noon + 60000)) _
                  eq_refl eq_refl).
    exact Hrun1. }
  rewrite Hrun1 in Hpng1. rewrite Hrun2 in Hpng2.
  rewrite Hpng1, Hpng2.
  change (Image_encode (audio_env_at noon) img) with (stamping_encoder noon img).
  change (Image_encode (audio_env_at (noon + 60000)) img) with (stamping_encoder (noon + 60000) img).
  unfold stamping_encoder. intros H. injection H as H.
  apply toBase64_inj in H. apply (f_equal (take 10)) in H.
  vm_compute in H. discriminate.
Qed.

(** ** The cache layer *)

Section Cache.
Variable env : Env.
Variable stamp : string.

(** A request that finds a sentinel reads the clock once and compares. *)
Lemma handleRedisPreview_sentinel (st : State) (ts ttl : Z) :
  cache st !! cache_key stamp = Some (FailedRenderSentinel ts, ttl) →
  handleRedisPreview env stamp false st
  = let age := Date_now env (ticks st) - ts in
    if age <? FAILED_RENDER_TTL * 1000 then
      (Ok (fallback
             (<["X-Fallback" := "cached-render-failure"%string]>
              (<["X-Failure-Age" := toString (round_seconds age) +:+ "s"]> ∅))),
       after_check st)
    else
      (let* _ := invalidateCacheByPattern (cache_key stamp) in
       let* freshResult := call_renderPreview env stamp in
       match freshResult with
       | Some freshResult =>
         if negb (String.eqb (png freshResult) EmptyString) then
           let* _ := handleCache (cache_key stamp)
                       (pure (Preview freshResult)) 604800 in
           preview_response freshResult "retry-after-failure"
         else
           let* _ := handleCache (cache_key stamp) (new_sentinel env) 604800 in
           pure (fallback (<["X-Fallback" := "render-failed-retry"%string]> ∅))
       | None =>
         let* _ := handleCache (cache_key stamp) (new_sentinel env) 604800 in
         pure (fallback (<["X-Fallback" := "render-failed-retry"%string]> ∅))
       end) (after_check st).
Proof.
  intros Hhit. unfold handleRedisPreview. cbv zeta.
  unfold and_then at 1. unfold pure at 1.
  unfold and_then at 1. unfold set_wasRendered at 1.
  unfold and_then at 1. unfold handleCache at 1.
  cbn [cache]. rewrite Hhit.
  unfold and_then at 1. unfold now at 1. cbn [cache ticks renders wasRendered].
  unfold after_check.
  destruct (Date_now env (ticks st) - ts <? FAILED_RENDER_TTL * 1000);
    reflexivity.
Qed.

(** The retry of an expired sentinel, step by step. *)
Lemma retry_after_expiry (st : State) :
  let key := cache_key stamp in
  let run :=
    (let* _ := invalidateCacheByPattern key in
     let* freshResult := call_renderPreview env stamp in
     match freshResult with
     | Some freshResult =>
       if negb (String.eqb (png freshResult) EmptyString) then
         let* _ := handleCache key (pure (Preview freshResult)) 604800 in
         preview_response freshResult "retry-after-failure"
       else
         let* _ := handleCache key (new_sentinel env) 604800 in
         pure (fallback (<["X-Fallback" := "render-failed-retry"%string]> ∅))
     | None =>
       let* _ := handleCache key (new_sentinel env) 604800 in
       pure (fallback (<["X-Fallback" := "render-failed-retry"%string]> ∅))
     end) (after_check st) in
  renders run.2
  = renders st ++ [Rendered stamp (events (renderPreview env stamp))]
  ∧ match outcome (renderPreview env stamp) with
    | Throw e => run.1 = Throw e ∧ cache run.2 = delete key (cache st)
    | Ok freshResult =>
      cache run.2
      = <[key := (persisted_after_retry env st freshResult, 604800)]>
          (delete key (cache st))
      ∧ match persisted_after_retry env st freshResult with
        | Preview p =>
          run.1 = match fromBase64 (png p) with
                  | Some pngBytes =>
                    Ok (binaryResponse pngBytes "image/png"
                          (<["Cache-Control" := CACHE_success]>
                             (<["X-Cache" := "retry-after-failure"%string]>
                                (meta p))))
                  | None =>
                    Throw (mkError "InvalidCharacterError"
                                   "Failed to decode base64")
                  end
        | FailedRenderSentinel _ =>
          run.1 = Ok (fallback
                        (<["X-Fallback" := "render-failed-retry"%string]> ∅))
        end
    end.
Proof.
  intros key run.
  assert (Hmiss : delete key (cache st) !! key = None)
    by apply lookup_delete_eq.
  unfold events, outcome, persisted_after_retry.
  destruct (renderPreview env stamp) as [trace [[p|]|e]] eqn:Hr; cbn [fst snd].
  - destruct (String.eqb (png p) EmptyString) eqn:Hpng.
    + assert (Hrun : run
        = (Ok (fallback (<["X-Fallback" := "render-failed-retry"%string]> ∅)),
           mkState (<[key := (FailedRenderSentinel (Date_now env (S (ticks st))),
                              604800)]> (delete key (cache st)))
                   (S (S (ticks st)))
                   (renders st ++ [Rendered stamp trace]) false)).
      { unfold run, and_then, invalidateCacheByPattern, call_renderPreview,
          after_check. rewrite Hr. cbn [cache ticks renders wasRendered].
        rewrite Hpng. cbn [negb].
        unfold handleCache, new_sentinel, and_then, now, pure.
        cbn [cache ticks renders wasRendered]. by rewrite Hmiss. }
      clearbody run. subst run. by cbn.
    + assert (Hrun : run
        = (match fromBase64 (png p) with
           | Some pngBytes =>
             Ok (binaryResponse pngBytes "image/png"
                   (<["Cache-Control" := CACHE_success]>
                      (<["X-Cache" := "retry-after-failure"%string]> (meta p))))
           | None =>
             Throw (mkError "InvalidCharacterError" "Failed to decode base64")
           end,
           mkState (<[key := (Preview p, 604800)]> (delete key (cache st)))
                   (S (ticks st))
                   (renders st ++ [Rendered stamp trace]) false)).
      { unfold run, and_then, invalidateCacheByPattern, call_renderPreview,
          after_check. rewrite Hr. cbn [cache ticks renders wasRendered].
        rewrite Hpng. cbn [negb].
        unfold handleCache, pure. cbn [cache ticks renders wasRendered].
        rewrite Hmiss. unfold preview_response, and_then, decode_png, pure.
        by destruct (fromBase64 (png p)). }
      clearbody run. subst run. by cbn.
  - assert (Hrun : run
      = (Ok (fallback (<["X-Fallback" := "render-failed-retry"%string]> ∅)),
         mkState (<[key := (FailedRenderSentinel (Date_now env (S (ticks st))),
                            604800)]> (delete key (cache st)))
                 (S (S (ticks st)))
                 (renders st ++ [Rendered stamp trace]) false)).
    { unfold run, and_then, invalidateCacheByPattern, call_renderPreview,
        after_check. rewrite Hr. cbn [cache ticks renders wasRendered].
      unfold handleCache, new_sentinel, and_then, now, pure.
      cbn [cache ticks renders wasRendered]. by rewrite Hmiss. }
    clearbody run. subst run. by cbn.
  - assert (Hrun : run
      = (Throw e,
         mkState (delete key (cache st)) (S (ticks st))
                 (renders st ++ [Rendered stamp trace]) false)).
    { unfold run, and_then, invalidateCacheByPattern, call_renderPreview,
        after_check. by rewrite Hr. }
    clearbody run. subst run. by cbn.
Qed.

(** The failure window as the handler runs it.  A request without
    forced refresh that finds a failure sentinel reads the clock once.  If
    the sentinel is younger than 3600 seconds, the answer is the fallback redirect marked as a cached render
    failure; nothing is rendered or fetched and the store is left as it
    is.  Otherwise the entry is invalidated and exactly one render is
    started; when the render returns, what it gave (the preview, or a new
    sentinel when it gave none) is written under the key; when it throws,
    the error is passed on and the key is left without an entry. *)
Theorem failure_sentinel_window (st : State) (ts ttl : Z) :
  cache st !! cache_key stamp = Some (FailedRenderSentinel ts, ttl) →
  let key := cache_key stamp in
  let age := Date_now env (ticks st) - ts in
  let run := handleRedisPreview env stamp false st in
  (age < 3600 * 1000 →
   (∃ headers,
      run.1 = Ok (redirect FALLBACK_LOGO 302 headers)
      ∧ headers !! "X-Fallback" = Some "cached-render-failure"%string)
   ∧ renders run.2 = renders st
   ∧ cache run.2 = cache st)
  ∧ (3600 * 1000 <= age →
     renders run.2
     = renders st ++ [Rendered stamp (events (renderPreview env stamp))]
     ∧ match outcome (renderPreview env stamp) with
       | Throw e => run.1 = Throw e ∧ cache run.2 = delete key (cache st)
       | Ok freshResult =>
         cache run.2
         = <[key := (persisted_after_retry env st freshResult, 604800)]>
             (delete key (cache st))
         ∧ cache run.2 !! key
           = Some (persisted_after_retry env st freshResult, 604800)
       end).
Proof.
  intros Hhit key age run. subst run.
  rewrite (handleRedisPreview_sentinel st ts ttl Hhit). cbv zeta.
  fold age. unfold FAILED_RENDER_TTL. split.
  - intros Hyoung.
    replace (age <? 3600 * 1000) with true by lia. cbn [fst snd].
    split; [|by split].
    eexists. split; [reflexivity|].
    rewrite lookup_insert_ne by done. by rewrite lookup_insert_eq.
  - intros Hold.
    replace (age <? 3600 * 1000) with false by lia.
    pose proof (retry_after_expiry st) as Hretry. cbv zeta in Hretry.
    destruct Hretry as [Hrenders Hrest]. subst key.
    split; [exact Hrenders|].
    destruct (outcome (renderPreview env stamp)) as [freshResult|e].
    + destruct Hrest as [Hcache _]. split; [exact Hcache|].
      rewrite Hcache. apply lookup_insert_eq.
    + exact Hrest.
Qed.

(** A forced refresh removes the entry, then the request goes on as
    without it. *)
Lemma handleRedisPreview_refresh (st : State) :
  handleRedisPreview env stamp true st
  = handleRedisPreview env stamp false
      (mkState (delete (cache_key stamp) (cache st)) (ticks st) (renders st)
               (wasRendered st)).
Proof. reflexivity. Qed.

End Cache.

Lemma failed_before_holds_sentinel :
  cache failed_before !! cache_key "ab" = Some (FailedRenderSentinel 0, 604800).
Proof. apply lookup_singleton_eq. Qed.

Lemma failure_sentinel_window_witness :
  renders (handleRedisPreview young_env "ab" false failed_before).2 = []
  ∧ cache (handleRedisPreview young_env "ab" false failed_before).2
    = cache failed_before.
Proof.
  destruct (failure_sentinel_window young_env "ab" failed_before 0 604800
              failed_before_holds_sentinel) as [Hyoung _].
  destruct Hyoung as (_ & Hrenders & Hcache); [simpl; lia|].
  split; [exact Hrenders | exact Hcache].
Defined.

(** C2. An expired sentinel and a render that throws: the stamp is a
    WebP image whose content server cannot be reached, so the fetch of
    [renderRasterPreview], which stands before its [try], rejects.  The
    sentinel is 4000 seconds old; the entry is invalidated and the one
    render is made, but its failure is not written as a new sentinel: the
    error leaves the handler and the key is left without an entry. *)
Theorem expired_sentinel_render_throws :
  let run := handleRedisPreview unreachable_env "ab" false failed_before in
  cache failed_before !! cache_key "ab" = Some (FailedRenderSentinel 0, 604800)
  ∧ 3600 * 1000 <= Date_now unreachable_env (ticks failed_before) - 0
  ∧ renderPreview unreachable_env "ab"
    = ([EvLookup "ab"; EvFetch (stamp_url webp_stamp)],
       Throw (mkError "Error" "unavailable"))
  ∧ renders run.2
    = [Rendered "ab" [EvLookup "ab"; EvFetch (stamp_url webp_stamp)]]
  ∧ run.1 = Throw (mkError "Error" "unavailable")
  ∧ cache run.2 !! cache_key "ab" = None.
Proof.
  intros run. subst run.
  split; [exact failed_before_holds_sentinel|].
  split; [simpl; lia|].
  split; [vm_compute; reflexivity|].
  rewrite (handleRedisPreview_sentinel unreachable_env "ab" failed_before 0
             604800 failed_before_holds_sentinel).
  cbv zeta.
  replace (Date_now unreachable_env (ticks failed_before) - 0
           <? FAILED_RENDER_TTL * 1000) with false by reflexivity.
  destruct (retry_after_expiry unreachable_env "ab" failed_before)
    as [Hrenders Hrest].
  split; [exact Hrenders|].
  change (outcome (renderPreview unreachable_env "ab"))
    with (@Throw (option CachedPreview) (mkError "Error" "unavailable"))
    in Hrest.
  destruct Hrest as [Hthrow Hcache].
  split; [exact Hthrow|]. rewrite Hcache. apply lookup_delete_eq.
Qed.

(* ===================================================================== *)
(** * Part III: further properties of the pipeline                         *)
(* ===================================================================== *)

(** ** The client of the rendering worker, continued *)

Section WorkerMore.
Variable env : Env.
Variable params : CfParams.

(** The three ways an attempt can go. *)
Lemma cf_attempts_cases (fetchTimeout : Z) (fuel : nat) (attempt : Z) :
  (∃ response buffer,
     cf_worker env params attempt = Ok response ∧ ok response = true
     ∧ arrayBuffer response = Ok buffer
     ∧ cf_attempts env params fetchTimeout (S fuel) attempt
       = (_ ← emit (EvCfPost params fetchTimeout); mret (Some buffer)))
  ∨ cf_attempts env params fetchTimeout (S fuel) attempt
    = (_ ← emit (EvCfPost params fetchTimeout); mret None)
  ∨ (attempt < maxRetries
     ∧ cf_attempts env params fetchTimeout (S fuel) attempt
       = (_ ← emit (EvCfPost params fetchTimeout);
          _ ← emit (EvSleep (retryDelay attempt));
          cf_attempts env params fetchTimeout fuel (attempt + 1))).
Proof.
  simpl.
  destruct (cf_worker env params attempt) as [response|error].
  - destruct (ok response) eqn:Hok.
    + destruct (arrayBuffer response) as [buffer|error] eqn:Hbody.
      * left. by exists response, buffer.
      * destruct (isRetryable error && (attempt <? maxRetries)) eqn:E;
          [|by right; left].
        right. right. apply andb_true_iff in E as [_ E]. split; [lia | done].
    + destruct ((500 <=? status response) && (attempt <? maxRetries)) eqn:E;
        [|by right; left].
      right. right. apply andb_true_iff in E as [_ E]. split; [lia | done].
  - destruct (isRetryable error && (attempt <? maxRetries)) eqn:E;
      [|by right; left].
    right. right. apply andb_true_iff in E as [_ E]. split; [lia | done].
Qed.

Lemma cf_attempts_success (fetchTimeout : Z) (fuel : nat) (attempt : Z)
    (response : HttpResponse) (buffer : Uint8Array) :
  cf_worker env params attempt = Ok response → ok response = true →
  arrayBuffer response = Ok buffer →
  cf_attempts env params fetchTimeout (S fuel) attempt
  = (_ ← emit (EvCfPost params fetchTimeout); mret (Some buffer)).
Proof. intros Hw Hok Hbody. simpl. by rewrite Hw, Hok, Hbody. Qed.

Lemma cf_attempts_never_throw (fetchTimeout : Z) (fuel : nat) (attempt : Z) :
  ∃ r, outcome (cf_attempts env params fetchTimeout fuel attempt) = Ok r.
Proof.
  revert attempt. induction fuel as [|fuel IH]; intros attempt;
    [by eexists|].
  destruct (cf_attempts_cases fetchTimeout fuel attempt)
    as [(response & buffer & _ & _ & _ & ->) | [-> | [_ ->]]];
    rewrite ?bind_emit; try (by eexists).
  destruct (IH (attempt + 1)) as [r Hr]. exists r.
  unfold outcome in *. simpl. exact Hr.
Qed.

Lemma cf_attempts_sound (fetchTimeout : Z) (fuel : nat) (attempt : Z)
    (buffer : Uint8Array) :
  outcome (cf_attempts env params fetchTimeout fuel attempt) = Ok (Some buffer) →
  ∃ (n : nat) response,
    (n < fuel)%nat
    ∧ cf_worker env params (attempt + Z.of_nat n) = Ok response
    ∧ ok response = true ∧ arrayBuffer response = Ok buffer
    ∧ events (cf_attempts env params fetchTimeout fuel attempt)
      = (λ e, match e with
              | EvCfPost p _ => EvCfPost p fetchTimeout
              | _ => e
              end) <$> trace_from params (S n) attempt.
Proof.
  revert attempt. induction fuel as [|fuel IH]; intros attempt H;
    [discriminate|].
  destruct (cf_attempts_cases fetchTimeout fuel attempt)
    as [(response & buf & Hw & Hok & Hbody & Hrun) | [Hrun | [_ Hrun]]];
    rewrite Hrun in *; rewrite ?bind_emit in *.
  - injection H as ->. exists 0%nat, response.
    rewrite Z.add_0_r. split; [lia|]. by repeat split.
  - discriminate.
  - unfold outcome in H. simpl in H.
    destruct (IH (attempt + 1) H) as (n & response & Hn & Hw & Hok & Hbody & Hev).
    exists (S n), response. split; [lia|].
    split; [by replace (attempt + Z.of_nat (S n))
                 with (attempt + 1 + Z.of_nat n) by lia|].
    split; [done|]. split; [done|].
    rewrite !events_pair, Hev. reflexivity.
Qed.

(** X1. A buffer returned by the client is the body of a 2xx answer of
    the configured worker to one of its at most three attempts, reached
    after exactly the attempts and sleeps of the schedule. *)
Theorem renderWithCloudflare_sound (buffer : Uint8Array) :
  outcome (renderWithCloudflare env params) = Ok (Some buffer) →
  isCfWorkerConfigured env = true
  ∧ ∃ (k : nat) response,
      (k <= 2)%nat
      ∧ cf_worker env params (Z.of_nat k) = Ok response
      ∧ ok response = true ∧ arrayBuffer response = Ok buffer
      ∧ events (renderWithCloudflare env params)
        = attempts_trace params (S k).
Proof.
  unfold renderWithCloudflare.
  destruct (isCfWorkerConfigured env); simpl negb; cbv iota zeta;
    [|discriminate].
  intros H. split; [done|].
  destruct (cf_attempts_sound _ _ _ _ H)
    as (n & response & Hn & Hw & Hok & Hbody & Hev).
  change (Z.to_nat (maxRetries + 1)) with 3%nat in *.
  exists n, response. split; [lia|]. split; [exact Hw|].
  split; [done|]. split; [done|]. rewrite Hev.
  destruct n as [|[|[|n]]]; [reflexivity | reflexivity | reflexivity | lia].
Qed.

(** X2. A transient failure is recovered: when the first attempts end in
    a status of 500 or more or in a network error and a later one, at most
    the third, is answered with a 2xx response, the call returns its body
    after the attempts and sleeps made so far. *)
Theorem renderWithCloudflare_recovers (k : nat) (response : HttpResponse)
    (buffer : Uint8Array) :
  isCfWorkerConfigured env = true →
  (k <= 2)%nat →
  (∀ j : nat, (j < k)%nat →
     server_or_network_error (cf_worker env params (Z.of_nat j))) →
  cf_worker env params (Z.of_nat k) = Ok response →
  ok response = true → arrayBuffer response = Ok buffer →
  renderWithCloudflare env params
  = (attempts_trace params (S k), Ok (Some buffer)).
Proof.
  intros Hcf Hk Hbefore Hw Hok Hbody. unfold renderWithCloudflare.
  rewrite Hcf. simpl negb. cbv iota zeta.
  change (Z.to_nat (maxRetries + 1)) with 3%nat.
  destruct k as [|[|[|k]]]; [| | |lia].
  - rewrite (cf_attempts_success _ _ _ response buffer) by done. reflexivity.
  - rewrite cf_attempts_retry
      by (try apply (Hbefore 0%nat); unfold maxRetries; lia).
    rewrite (cf_attempts_success _ _ _ response buffer) by done. reflexivity.
  - rewrite cf_attempts_retry
      by (try apply (Hbefore 0%nat); unfold maxRetries; lia).
    rewrite cf_attempts_retry
      by (try apply (Hbefore 1%nat); unfold maxRetries; lia).
    rewrite (cf_attempts_success _ _ _ response buffer) by done. reflexivity.
Qed.

Lemma attempts_trace_cost (n : nat) :
  (count_events is_worker_post (attempts_trace params n) <= 3)%nat
  ∧ count_events is_worker_post (attempts_trace params n) = Nat.min n 3
  ∧ 0 <= total_sleep (attempts_trace params n) <= 6000
  ∧ count_events is_fetch (attempts_trace params n) = 0%nat
  ∧ count_events is_lookup (attempts_trace params n) = 0%nat
  ∧ count_events is_rasterizer_call (attempts_trace params n) = 0%nat.
Proof.
  destruct n as [|[|[|n]]]; cbn; repeat split; lia.
Qed.

Lemma renderWithCloudflare_cost :
  (count_events is_worker_post (events (renderWithCloudflare env params))
   <= if isCfWorkerConfigured env then 3 else 0)%nat
  ∧ 0 <= total_sleep (events (renderWithCloudflare env params)) <= 6000
  ∧ count_events is_fetch (events (renderWithCloudflare env params)) = 0%nat
  ∧ count_events is_lookup (events (renderWithCloudflare env params)) = 0%nat
  ∧ count_events is_rasterizer_call
      (events (renderWithCloudflare env params)) = 0%nat.
Proof.
  split.
  - destruct (isCfWorkerConfigured env) eqn:Hcf.
    + destruct (renderWithCloudflare_schedule env params) as (n & _ & ->).
      apply attempts_trace_cost.
    + unfold renderWithCloudflare. rewrite Hcf. cbn. lia.
  - destruct (renderWithCloudflare_schedule env params) as (n & _ & ->).
    destruct (attempts_trace_cost n) as (_ & _ & ? & ? & ? & ?). done.
Qed.

Lemma renderWithCloudflare_total :
  ∃ r, outcome (renderWithCloudflare env params) = Ok r.
Proof.
  unfold renderWithCloudflare.
  destruct (isCfWorkerConfigured env); simpl negb; cbv iota zeta;
    [apply cf_attempts_never_throw | by eexists].
Qed.

(** X3. A call of the client never throws, posts to the worker at most
    three times and sleeps at most 6000 ms in all between the posts; it
    makes no post at all when the worker is not configured. *)
Theorem renderWithCloudflare_bounded :
  (∃ r, outcome (renderWithCloudflare env params) = Ok r)
  ∧ (count_events is_worker_post (events (renderWithCloudflare env params))
     <= if isCfWorkerConfigured env then 3 else 0)%nat
  ∧ 0 <= total_sleep (events (renderWithCloudflare env params)) <= 6000.
Proof.
  split; [apply renderWithCloudflare_total|].
  destruct renderWithCloudflare_cost as (? & ? & _). done.
Qed.

End WorkerMore.

Lemma renderWithCloudflare_sound_witness :
  isCfWorkerConfigured flaky_env = true
  ∧ ∃ (k : nat) response,
      (k <= 2)%nat
      ∧ cf_worker flaky_env sample_params (Z.of_nat k) = Ok response
      ∧ ok response = true ∧ arrayBuffer response = Ok screenshot
      ∧ events (renderWithCloudflare flaky_env sample_params)
        = attempts_trace sample_params (S k).
Proof. apply (renderWithCloudflare_sound flaky_env sample_params). reflexivity. Defined.

Lemma renderWithCloudflare_recovers_witness :
  renderWithCloudflare flaky_env sample_params
  = (attempts_trace sample_params 2, Ok (Some screenshot)).
Proof.
  apply (renderWithCloudflare_recovers flaky_env sample_params 1
           (mkResponse 200 (Ok screenshot) EmptyString) screenshot);
    try reflexivity.
  - lia.
  - intros [|j] Hj; [vm_compute; discriminate | lia].
Defined.

(** ** The dispatcher and the renderers, continued *)

Section Dispatch.
Variable env : Env.

Lemma count_events_app (p : Event → bool) (t1 t2 : list Event) :
  count_events p (t1 ++ t2)
  = (count_events p t1 + count_events p t2)%nat.
Proof. unfold count_events. by rewrite List.filter_app, length_app. Qed.

Lemma total_sleep_app (t1 t2 : list Event) :
  total_sleep (t1 ++ t2) = total_sleep t1 + total_sleep t2.
Proof. induction t1 as [|[] t1 IH]; simpl; lia. Qed.

Lemma within_nil (f p r : nat) (s : Z) : 0 <= s → within f p r s [].
Proof. intros Hs. unfold within. cbn. repeat split; lia. Qed.

Lemma within_app (f1 p1 r1 f2 p2 r2 : nat) (s1 s2 : Z) (t1 t2 : list Event) :
  within f1 p1 r1 s1 t1 → within f2 p2 r2 s2 t2 →
  within (f1 + f2) (p1 + p2) (r1 + r2) (s1 + s2) (t1 ++ t2).
Proof.
  unfold within. intros (? & ? & ? & ? & ?) (? & ? & ? & ? & ?).
  rewrite !count_events_app, total_sleep_app. repeat split; lia.
Qed.

Lemma within_mono (f p r f' p' r' : nat) (s s' : Z) (t : list Event) :
  within f p r s t →
  (f <= f')%nat → (p <= p')%nat → (r <= r')%nat → s <= s' →
  within f' p' r' s' t.
Proof. unfold within. intros (? & ? & ? & ? & ?) ? ? ? ?. repeat split; lia. Qed.

Lemma within_bind {A B} (m : M A) (k : A → M B)
    (f1 p1 r1 f2 p2 r2 : nat) (s1 s2 : Z) :
  within f1 p1 r1 s1 (events m) →
  (∀ a, within f2 p2 r2 s2 (events (k a))) → 0 <= s2 →
  within (f1 + f2) (p1 + p2) (r1 + r2) (s1 + s2) (events (x ← m; k x)).
Proof.
  intros Hm Hk Hs. rewrite events_bind. apply within_app; [done|].
  destruct (outcome m); [apply Hk | by apply within_nil].
Qed.

Lemma within_worker (params : CfParams) :
  within 0 (posts_allowed env 3) 0 6000
         (events (renderWithCloudflare env params)).
Proof.
  destruct (renderWithCloudflare_cost env params) as (Hp & Hs & Hf & Hl & Hr).
  unfold within, posts_allowed. rewrite Hf, Hl, Hr. repeat split; lia.
Qed.

Lemma renderWithCloudflare_unconfigured (params : CfParams) :
  isCfWorkerConfigured env = false →
  renderWithCloudflare env params = ([], Ok None).
Proof. intros Hcf. unfold renderWithCloudflare. by rewrite Hcf. Qed.

Lemma bind_ret {A B} (a : A) (k : A → M B) : (x ← mret a; k x) = k a.
Proof. exact (bind_lift_ok a k). Qed.

Lemma renderRasterPreview_events (stamp_url stamp_mimetype : string)
    (stampNumber : option Z) :
  events (renderRasterPreview env stamp_url stamp_mimetype stampNumber)
  = [EvFetch stamp_url].
Proof.
  unfold renderRasterPreview. rewrite bind_emit, events_pair. f_equal.
  destruct (fetch env stamp_url) as [response|e]; [|reflexivity].
  rewrite bind_lift_ok. destruct (ok response); simpl negb; cbv iota;
    [|reflexivity].
  destruct (arrayBuffer response) as [imageBytes|e]; [|reflexivity].
  rewrite bind_lift_ok, events_try_catch_silent.
  destruct (String.eqb stamp_mimetype "image/gif").
  - destruct (GIF_decode env imageBytes) as [[|frame gif]|e];
      [reflexivity| |reflexivity].
    rewrite !bind_lift_ok, bind_ret.
    change (head (frame :: gif)) with (Some frame). cbv iota.
    destruct (upscale frame) as [outputImage|e]; [|reflexivity].
    rewrite bind_lift_ok.
    destruct (Image_encode env outputImage); reflexivity.
  - destruct (Image_decode env imageBytes) as [sourceImage|e]; [|reflexivity].
    rewrite !bind_lift_ok, bind_ret.
    destruct (upscale sourceImage) as [outputImage|e]; [|reflexivity].
    rewrite bind_lift_ok.
    destruct (Image_encode env outputImage); reflexivity.
Qed.

Lemma prefix_head (c : ascii) (x s : string) :
  String.prefix (String c x) s = true → ∃ r, s = String c r.
Proof.
  destruct s as [|c' s]; simpl; [discriminate|].
  destruct (ascii_dec c c') as [->|]; [by eexists | discriminate].
Qed.

Lemma audio_type (mt : string) :
  startsWith mt "audio/" = true →
  isRasterType (Some mt) = false ∧ String.eqb mt "image/svg+xml" = false
  ∧ String.eqb mt "text/html" = false.
Proof. intros H. apply prefix_head in H as [r ->]. by repeat split. Qed.

Lemma video_type (mt : string) :
  startsWith mt "video/" = true →
  isRasterType (Some mt) = false ∧ String.eqb mt "image/svg+xml" = false
  ∧ String.eqb mt "text/html" = false ∧ startsWith mt "audio/" = false.
Proof. intros H. apply prefix_head in H as [r ->]. by repeat split. Qed.

Lemma svg_is_image (mt : string) :
  String.eqb mt "image/svg+xml" = true → startsWith mt "image/" = true.
Proof. intros H. apply String.eqb_eq in H as ->. reflexivity. Qed.

(** X4. When the lookup finds no stamp, a stamp without URL or content
    type, or a content type outside image, HTML, audio and video, the
    render gives no preview and does nothing after the lookup: no fetch, no
    worker call. *)
Theorem renderPreview_unsupported (id : string) (stampData : option StampData) :
  getSpecificStamp env id = Ok stampData →
  renderable stampData = false →
  renderPreview env id = ([EvLookup id], Ok None).
Proof.
  intros Hlookup Hno. unfold renderPreview. rewrite Hlookup, bind_lift_ok.
  destruct stampData as [sd|]; [|reflexivity].
  unfold renderable in Hno.
  destruct (String.eqb (stamp_url sd) EmptyString); [reflexivity|].
  destruct (stamp_mimetype sd) as [mt|]; [|reflexivity].
  simpl in Hno. unfold supported_type in Hno.
  apply orb_false_iff in Hno as [Hno Hvideo].
  apply orb_false_iff in Hno as [Hno Haudio].
  apply orb_false_iff in Hno as [Himage Hhtml].
  unfold isRasterType. rewrite Himage, Hhtml, Haudio, Hvideo.
  destruct (String.eqb mt "image/svg+xml") eqn:Hsvg; [|reflexivity].
  apply svg_is_image in Hsvg. congruence.
Qed.

(** X5. An audio stamp is previewed without any network access: after
    the lookup the render neither fetches the audio nor calls the worker.
    The waveform is always drawn, on a canvas of 1200 by 1200, so the render
    gives a preview unless the PNG encoder throws. *)
Theorem audio_render_offline (id : string) (sd : StampData) (mt : string) :
  getSpecificStamp env id = Ok (Some sd) →
  stamp_url sd ≠ EmptyString →
  stamp_mimetype sd = Some mt →
  startsWith mt "audio/" = true →
  events (renderPreview env id) = [EvLookup id]
  ∧ ∃ outputImage,
      waveform env (audio_seed (stamp_url sd)) = Ok outputImage
      ∧ is_canvas outputImage
      ∧ preview_png (renderPreview env id)
        = match Image_encode env outputImage with
          | Ok pngBuffer => Ok (Some (toBase64 pngBuffer))
          | Throw e => Throw e
          end.
Proof.
  intros Hlookup Hurl Hmt Haudio.
  rewrite (renderPreview_dispatch env id sd mt Hlookup Hurl Hmt).
  destruct (audio_type mt Haudio) as (-> & -> & ->). rewrite Haudio.
  destruct (renderAudioPreview_run env (stamp_url sd) mt (stamp sd))
    as [Hev Hpng].
  destruct (waveform_total env (audio_seed (stamp_url sd)))
    as (outputImage & Hwave & Hcanvas).
  rewrite bind_emit, events_pair, Hev. split; [reflexivity|].
  exists outputImage. split; [done|]. split; [done|].
  unfold preview_png in *. unfold outcome at 1. simpl snd.
  rewrite Hpng, Hwave. reflexivity.
Qed.

(** X6. Without a configured worker an HTML stamp and a video stamp have
    no preview, and the render stops after the lookup: the page is not even
    fetched. *)
Theorem unconfigured_worker_no_render (id : string) (sd : StampData)
    (mt : string) :
  isCfWorkerConfigured env = false →
  getSpecificStamp env id = Ok (Some sd) →
  stamp_url sd ≠ EmptyString →
  stamp_mimetype sd = Some mt →
  mt = "text/html"%string ∨ startsWith mt "video/" = true →
  renderPreview env id = ([EvLookup id], Ok None).
Proof.
  intros Hcf Hlookup Hurl Hmt Htype.
  rewrite (renderPreview_dispatch env id sd mt Hlookup Hurl Hmt).
  destruct Htype as [-> | Hvideo].
  - change (isRasterType (Some "text/html"%string)) with false.
    change (String.eqb "text/html" "image/svg+xml") with false.
    change (String.eqb "text/html" "text/html") with true. cbv iota.
    unfold renderHtmlPreview. rewrite Hcf. reflexivity.
  - destruct (video_type mt Hvideo) as (-> & -> & -> & ->). rewrite Hvideo.
    unfold renderVideoPreview.
    rewrite renderWithCloudflare_unconfigured by done. reflexivity.
Qed.

(** X7. When the fetch of an image stamp, raster or SVG, throws, the
    error leaves the render: nothing catches it, and the worker is not
    tried. *)
Theorem image_fetch_error_propagates (id : string) (sd : StampData)
    (mt : string) (error : JsError) :
  getSpecificStamp env id = Ok (Some sd) →
  stamp_url sd ≠ EmptyString →
  stamp_mimetype sd = Some mt →
  startsWith mt "image/" = true →
  fetch env (stamp_url sd) = Throw error →
  renderPreview env id
  = ([EvLookup id; EvFetch (stamp_url sd)], Throw error).
Proof.
  intros Hlookup Hurl Hmt Himage Hfetch.
  rewrite (renderPreview_dispatch env id sd mt Hlookup Hurl Hmt).
  unfold isRasterType. rewrite Himage. simpl andb.
  destruct (String.eqb mt "image/svg+xml"); simpl negb; cbv iota.
  - unfold renderSvgPreview. rewrite Hfetch. reflexivity.
  - unfold renderRasterPreview. rewrite Hfetch. reflexivity.
Qed.

(** X8. When the content server answers the fetch of an image stamp with
    a status outside 200 to 299, a raster stamp is handed to the browser
    path of [renderImageWithChrome], while an SVG stamp gets no preview and
    no further request. *)
Theorem image_bad_status (id : string) (sd : StampData) (mt : string)
    (response : HttpResponse) :
  getSpecificStamp env id = Ok (Some sd) →
  stamp_url sd ≠ EmptyString →
  stamp_mimetype sd = Some mt →
  startsWith mt "image/" = true →
  fetch env (stamp_url sd) = Ok response → ok response = false →
  let chrome := renderImageWithChrome env (stamp_url sd) mt (stamp sd) in
  renderPreview env id
  = if String.eqb mt "image/svg+xml"
    then ([EvLookup id; EvFetch (stamp_url sd)], Ok None)
    else (EvLookup id :: EvFetch (stamp_url sd) :: events chrome,
          outcome chrome).
Proof.
  intros Hlookup Hurl Hmt Himage Hfetch Hok chrome.
  rewrite (renderPreview_dispatch env id sd mt Hlookup Hurl Hmt).
  unfold isRasterType. rewrite Himage. simpl andb.
  destruct (String.eqb mt "image/svg+xml"); simpl negb; cbv iota.
  - unfold renderSvgPreview. rewrite Hfetch, bind_lift_ok, Hok. reflexivity.
  - assert (Hraster : renderRasterPreview env (stamp_url sd) mt (stamp sd)
                      = ([EvFetch (stamp_url sd)], Ok None)).
    { unfold renderRasterPreview. by rewrite Hfetch, bind_lift_ok, Hok. }
    rewrite Hraster, bind_ok, bind_emit. reflexivity.
Qed.

End Dispatch.

Lemma renderPreview_unsupported_witness :
  renderPreview (encoding_env pdf_stamp) "11" = ([EvLookup "11"], Ok None).
Proof.
  apply (renderPreview_unsupported (encoding_env pdf_stamp) "11"
           (Some pdf_stamp)); reflexivity.
Defined.

Lemma audio_render_offline_witness :
  events (renderPreview (encoding_env audio_stamp) "9") = [EvLookup "9"]
  ∧ ∃ outputImage,
      waveform (encoding_env audio_stamp) (audio_seed (stamp_url audio_stamp))
      = Ok outputImage
      ∧ is_canvas outputImage
      ∧ preview_png (renderPreview (encoding_env audio_stamp) "9")
        = match Image_encode (encoding_env audio_stamp) outputImage with
          | Ok pngBuffer => Ok (Some (toBase64 pngBuffer))
          | Throw e => Throw e
          end.
Proof.
  apply (audio_render_offline (encoding_env audio_stamp) "9" audio_stamp
           "audio/mpeg"); [reflexivity | discriminate | reflexivity | reflexivity].
Defined.

Lemma unconfigured_worker_no_render_witness :
  renderPreview (encoding_env video_stamp) "10" = ([EvLookup "10"], Ok None).
Proof.
  apply (unconfigured_worker_no_render (encoding_env video_stamp) "10"
           video_stamp "video/mp4");
    [reflexivity | reflexivity | discriminate | reflexivity
    | right; reflexivity].
Defined.

Lemma image_fetch_error_propagates_witness :
  renderPreview unreachable_env "8"
  = ([EvLookup "8"; EvFetch (stamp_url webp_stamp)],
     Throw (mkError "Error" "unavailable")).
Proof.
  apply (image_fetch_error_propagates unreachable_env "8" webp_stamp
           "image/webp");
    [reflexivity | discriminate | reflexivity | reflexivity | reflexivity].
Defined.

Lemma image_bad_status_witness :
  renderPreview (sample_env true (found webp_stamp) missing_server
                            aborting_worker) "8"
  = (EvLookup "8" :: EvFetch (stamp_url webp_stamp)
       :: events (renderImageWithChrome
                    (sample_env true (found webp_stamp) missing_server
                                aborting_worker)
                    (stamp_url webp_stamp) "image/webp" (stamp webp_stamp)),
     outcome (renderImageWithChrome
                (sample_env true (found webp_stamp) missing_server
                            aborting_worker)
                (stamp_url webp_stamp) "image/webp" (stamp webp_stamp))).
Proof.
  apply (image_bad_status
           (sample_env true (found webp_stamp) missing_server aborting_worker)
           "8" webp_stamp "image/webp"
           (mkResponse 404 unavailable "Not Found"));
    [reflexivity | discriminate | reflexivity | reflexivity | reflexivity
    | reflexivity].
Defined.

(** ** Markup stamps and the budget of a render *)

Section Html.
Variable env : Env.

Lemma outcome_try_catch {A} (m : M (option A)) :
  outcome (try_catch m (λ _, mret None))
  = match outcome m with
    | Ok r => Ok r
    | Throw _ => Ok None
    end.
Proof. by destruct m as [t [a|e]]. Qed.

Lemma outcome_bind {A B} (m : M A) (k : A → M B) :
  outcome (x ← m; k x)
  = match outcome m with
    | Ok a => outcome (k a)
    | Throw e => Throw e
    end.
Proof. destruct m as [t [a|e]]; simpl; [by destruct (k a) | done]. Qed.

Lemma outcome_lift {A} (r : result A) : outcome (lift r) = r.
Proof. reflexivity. Qed.

Lemma outcome_ret {A} (a : A) : outcome (mret a : M A) = Ok a.
Proof. reflexivity. Qed.

Lemma outcome_pair {A} (t : list Event) (r : result A) : outcome (t, r) = r.
Proof. reflexivity. Qed.

(** X9. The HTML renderer never throws: a failing fetch, an unreadable
    body, a failing worker and a screenshot that cannot be decoded or
    centred all end in the null result. *)
Theorem renderHtmlPreview_never_throws (stamp_url stamp_mimetype : string)
    (stampNumber : option Z) :
  ∃ r, outcome (renderHtmlPreview env stamp_url stamp_mimetype stampNumber)
       = Ok r.
Proof.
  unfold renderHtmlPreview.
  destruct (isCfWorkerConfigured env); simpl negb; cbv iota; [|by eexists].
  rewrite outcome_try_catch. destruct (outcome _); by eexists.
Qed.

(** Where the preview of an HTML stamp comes from. *)
Lemma renderHtmlPreview_source (stamp_url stamp_mimetype : string)
    (stampNumber : option Z) (preview : CachedPreview) :
  outcome (renderHtmlPreview env stamp_url stamp_mimetype stampNumber)
  = Ok (Some preview) →
  isCfWorkerConfigured env = true
  ∧ ∃ response buffer result,
      fetch env stamp_url = Ok response ∧ ok response = true
      ∧ (outcome (renderWithCloudflare env
                    (html_request env stamp_url (text response)))
         = Ok (Some buffer)
         ∨ (isRecursive (text response) = false
            ∧ outcome (renderWithCloudflare env (retry_request stamp_url))
              = Ok (Some buffer)))
      ∧ MIN_VALID_PNG_SIZE <= byteLength buffer
      ∧ outcome (centerOnCanvas env buffer stampNumber stamp_mimetype
                   "cloudflare-browser") = Ok result
      ∧ png preview = png result.
Proof.
  unfold renderHtmlPreview, html_request, retry_request.
  destruct (isCfWorkerConfigured env); simpl negb; cbv iota; [|discriminate].
  rewrite outcome_try_catch, !outcome_bind.
  change (outcome (emit (EvFetch stamp_url))) with (Ok tt : result unit).
  cbv iota. rewrite outcome_lift.
  destruct (fetch env stamp_url) as [response|e]; [|discriminate].
  destruct (ok response) eqn:Hok; simpl negb; cbv iota; [|discriminate].
  cbv zeta. rewrite !outcome_bind.
  set (first := outcome (if isRecursive (text response) then _ else _)).
  set (retry := renderWithCloudflare env _).
  intros H. split; [done|]. exists response.
  assert (Hfirst : first = outcome (renderWithCloudflare env
            (if isRecursive (text response)
             then mkCfParams (Some (renderUrl stamp_url (text response))) None
                    viewport1200 (Some (delay stamp_url (text response)))
                    (Some 45000)
             else mkCfParams None
                    (Some (cleanHtmlForRendering env (text response)))
                    viewport1200 (Some (delay stamp_url (text response)))
                    None))).
  { subst first. by destruct (isRecursive (text response)). }
  rewrite <- Hfirst. clearbody first. revert H.
  destruct first as [[b1|]|e1]; cbv iota beta; rewrite ?bind_ret;
    [| discriminate | discriminate].
  destruct ((byteLength b1 <? MIN_VALID_PNG_SIZE)
            && negb (isRecursive (text response))) eqn:Hsmall.
  - apply andb_true_iff in Hsmall as [_ Hrec].
    apply negb_true_iff in Hrec. rewrite outcome_bind.
    destruct (outcome retry) as [[b2|]|e2] eqn:Hretry; cbv iota;
      [| discriminate | discriminate].
    destruct (MIN_VALID_PNG_SIZE <=? byteLength b2) eqn:Hsize;
      [|discriminate].
    rewrite outcome_bind.
    destruct (outcome (centerOnCanvas env b2 _ _ _)) as [result|e3] eqn:Hc;
      [|discriminate].
    intros H. exists b2, result. injection H as <-.
    repeat split; try done; [by right | lia].
  - rewrite bind_ret.
    destruct (MIN_VALID_PNG_SIZE <=? byteLength b1) eqn:Hsize;
      [|discriminate].
    rewrite outcome_bind.
    destruct (outcome (centerOnCanvas env b1 _ _ _)) as [result|e3] eqn:Hc;
      [|discriminate].
    intros H. exists b1, result. injection H as <-.
    repeat split; try done; [by left | lia].
Qed.

(** X10. A preview of an HTML stamp is always made from a screenshot of
    at least 5000 bytes that the worker returned for the first request or,
    for a page not flagged recursive, for the URL-mode retry; the page was
    fetched with a 2xx status and the worker is configured. *)
Theorem renderHtmlPreview_sound (stamp_url stamp_mimetype : string)
    (stampNumber : option Z) (preview : CachedPreview) :
  outcome (renderHtmlPreview env stamp_url stamp_mimetype stampNumber)
  = Ok (Some preview) →
  isCfWorkerConfigured env = true
  ∧ ∃ response buffer result,
      fetch env stamp_url = Ok response ∧ ok response = true
      ∧ (outcome (renderWithCloudflare env
                    (html_request env stamp_url (text response)))
         = Ok (Some buffer)
         ∨ (isRecursive (text response) = false
            ∧ outcome (renderWithCloudflare env (retry_request stamp_url))
              = Ok (Some buffer)))
      ∧ MIN_VALID_PNG_SIZE <= byteLength buffer
      ∧ outcome (centerOnCanvas env buffer stampNumber stamp_mimetype
                   "cloudflare-browser") = Ok result
      ∧ png preview = png result.
Proof. apply renderHtmlPreview_source. Qed.

(** X11. The small-output safety net: when the first call of the worker
    returns a screenshot, the content URL is rendered once more, with delay
    8000 and timeout 45000, exactly when the screenshot has fewer than 5000
    bytes and the page is not flagged recursive; a recursive page with a
    small screenshot gets no retry and no preview. *)
Theorem html_small_render_retry (stamp_url stamp_mimetype : string)
    (stampNumber : option Z) (response : HttpResponse) (buffer : Uint8Array) :
  isCfWorkerConfigured env = true →
  fetch env stamp_url = Ok response → ok response = true →
  let rawHtml := text response in
  let first := renderWithCloudflare env (html_request env stamp_url rawHtml) in
  let retry := renderWithCloudflare env (retry_request stamp_url) in
  let run := renderHtmlPreview env stamp_url stamp_mimetype stampNumber in
  outcome first = Ok (Some buffer) →
  events run
  = EvFetch stamp_url :: events first
      ++ (if (byteLength buffer <? MIN_VALID_PNG_SIZE)
             && negb (isRecursive rawHtml)
          then events retry else [])
  ∧ (byteLength buffer < MIN_VALID_PNG_SIZE → isRecursive rawHtml = true →
     outcome run = Ok None).
Proof.
  intros Hcf Hfetch Hok rawHtml first retry run Hfirst.
  assert (Hrun : run
    = try_catch
        (_ ← emit (EvFetch stamp_url);
         cfBuffer ← first;
         cfBuffer ←
           match cfBuffer with
           | Some buffer =>
             if (byteLength buffer <? MIN_VALID_PNG_SIZE)
                && negb (isRecursive rawHtml)
             then retry else mret cfBuffer
           | None => mret cfBuffer
           end;
         match cfBuffer with
         | Some buffer =>
           if MIN_VALID_PNG_SIZE <=? byteLength buffer then
             result ← centerOnCanvas env buffer stampNumber stamp_mimetype
                        "cloudflare-browser";
             mret (Some
               (set_meta "X-Recursive"
                  (if isRecursive rawHtml then "true" else "false")
               (set_meta "X-Rendering-Engine" "cloudflare-worker"
               (set_meta "X-Render-Time"
                  (if isComplex stamp_url rawHtml then "extended"
                   else "standard") result))))
           else mret None
         | None => mret None
         end)
        (λ _, mret None)).
  { subst run first retry rawHtml.
    unfold renderHtmlPreview, html_request, retry_request.
    rewrite Hcf, Hfetch, bind_lift_ok, Hok. simpl negb. cbv iota zeta.
    by destruct (isRecursive (text response)). }
  rewrite Hrun. clearbody run first retry.
  destruct first as [t1 r1]. simpl in Hfirst. subst r1.
  rewrite events_try_catch_silent, outcome_try_catch.
  rewrite bind_emit, events_pair, outcome_pair.
  rewrite bind_ok, events_pair, outcome_pair.
  split.
  - f_equal. f_equal.
    destruct ((byteLength buffer <? MIN_VALID_PNG_SIZE)
              && negb (isRecursive rawHtml)).
    + rewrite events_bind. destruct (outcome retry) as [[b2|]|e2];
        rewrite ?app_nil_r; try reflexivity.
      destruct (MIN_VALID_PNG_SIZE <=? byteLength b2);
        [|by rewrite app_nil_r].
      rewrite events_bind, centerOnCanvas_silent.
      destruct (outcome _); by rewrite app_nil_r.
    + rewrite bind_ret.
      destruct (MIN_VALID_PNG_SIZE <=? byteLength buffer); [|reflexivity].
      rewrite events_bind, centerOnCanvas_silent.
      by destruct (outcome _).
  - intros Hsmall Hrec. rewrite Hrec. rewrite andb_false_r, bind_ret.
    destruct (MIN_VALID_PNG_SIZE <=? byteLength buffer) eqn:Hsize;
      [exfalso; lia|].
    reflexivity.
Qed.

Lemma posts_allowed_add (a b : nat) :
  (posts_allowed env a + posts_allowed env b = posts_allowed env (a + b))%nat.
Proof. unfold posts_allowed. by destruct (isCfWorkerConfigured env). Qed.

Lemma within_cons_fetch (url : string) (f p r : nat) (s : Z) (t : list Event) :
  within f p r s t → within (S f) p r s (EvFetch url :: t).
Proof.
  unfold within, count_events, total_sleep. cbn.
  intros (? & ? & ? & ? & ?). repeat split; lia.
Qed.

Lemma within_silent {A} (m : M A) (f p r : nat) (s : Z) :
  events m = [] → 0 <= s → within f p r s (events m).
Proof. intros ->. apply within_nil. Qed.

Lemma renderHtmlPreview_within (stamp_url stamp_mimetype : string)
    (stampNumber : option Z) :
  within 1 (posts_allowed env 6) 0 12000
         (events (renderHtmlPreview env stamp_url stamp_mimetype stampNumber)).
Proof.
  unfold renderHtmlPreview.
  destruct (isCfWorkerConfigured env) eqn:Hcf; simpl negb; cbv iota;
    [|by apply within_nil].
  rewrite events_try_catch_silent, bind_emit, events_pair.
  apply within_cons_fetch.
  destruct (fetch env stamp_url) as [response|e]; [|by apply within_nil].
  rewrite bind_lift_ok.
  destruct (ok response); simpl negb; cbv iota; [|by apply within_nil].
  cbv zeta. change 6%nat with (3 + 3)%nat. rewrite <- posts_allowed_add.
  apply (within_bind _ _ 0 _ 0 0 _ 0 6000 6000); [| |lia].
  { destruct (isRecursive (text response)); apply within_worker. }
  intros cfBuffer.
  apply (within_mono 0 (posts_allowed env 3 + 0) 0 _ _ _ (6000 + 0));
    [|lia|lia|lia|lia].
  apply (within_bind _ _ 0 _ 0 0 0 0); [| |lia].
  { destruct cfBuffer as [b|]; [|by apply within_nil].
    destruct (_ && _); [apply within_worker|].
    eapply within_mono; [by apply (within_nil 0 0 0 0)|lia..]. }
  intros [b|]; [|by apply within_nil].
  destruct (_ <=? _); [|by apply within_nil].
  apply within_silent; [|lia].
  rewrite events_bind, centerOnCanvas_silent. by destruct (outcome _).
Qed.


Lemma chrome_within (params : CfParams)
    (k : option Uint8Array → M (option CachedPreview)) :
  (∀ b, events (k b) = []) →
  within 0 (posts_allowed env 3) 0 6000
         (events (b ← renderWithCloudflare env params; k b)).
Proof.
  intros Hk.
  apply (within_mono 0 (posts_allowed env 3 + 0) 0 _ _ _ (6000 + 0));
    [|lia..].
  apply (within_bind _ _ 0 _ 0 0 0 0); [apply within_worker| |lia].
  intros b. apply within_silent; [apply Hk | lia].
Qed.

Lemma chrome_continuation_silent (stampNumber : option Z)
    (stamp_mimetype method : string) (f : CachedPreview → CachedPreview)
    (b : option Uint8Array) :
  events (match b with
          | Some cfBuffer =>
            result ← centerOnCanvas env cfBuffer stampNumber stamp_mimetype
                       method;
            mret (Some (f result))
          | None => mret None
          end) = [].
Proof.
  destruct b as [b|]; [|reflexivity].
  rewrite events_bind, centerOnCanvas_silent. by destruct (outcome _).
Qed.

Lemma renderSvgPreview_within (stamp_url stamp_mimetype : string)
    (stampNumber : option Z) :
  within 1 (posts_allowed env 3) 1 6000
         (events (renderSvgPreview env stamp_url stamp_mimetype stampNumber)).
Proof.
  unfold renderSvgPreview. rewrite bind_emit, events_pair.
  apply within_cons_fetch.
  destruct (fetch env stamp_url) as [response|e]; [|by apply within_nil].
  rewrite bind_lift_ok.
  destruct (ok response); simpl negb; cbv iota; [|by apply within_nil].
  cbv zeta. destruct (includes (text response) "<foreignObject").
  - eapply within_mono;
      [apply chrome_within; intros b;
       apply (chrome_continuation_silent _ _ _
                (λ r, set_meta "X-ForeignObject" "true"
                        (set_meta "X-Rendering-Engine" "cloudflare-worker" r)))
      |lia..].
  - rewrite bind_emit, events_pair.
    destruct (resvg_render env _ _); unfold within; cbn; repeat split; lia.
Qed.

Lemma within_cons_lookup (id : string) (f p r : nat) (s : Z) (t : list Event) :
  within f p r s t →
  count_events is_lookup (EvLookup id :: t) = 1%nat
  ∧ (count_events is_fetch (EvLookup id :: t) <= f)%nat
  ∧ (count_events is_worker_post (EvLookup id :: t) <= p)%nat
  ∧ (count_events is_rasterizer_call (EvLookup id :: t) <= r)%nat
  ∧ 0 <= total_sleep (EvLookup id :: t) <= s.
Proof.
  unfold within, count_events, total_sleep. cbn.
  intros (? & ? & ? & ? & ?). repeat split; lia.
Qed.

(** X12. The budget of one render: the stamp is looked up once, its
    content is fetched at most once, the worker receives at most six posts
    (none when it is not configured), the resvg rasterizer is called at
    most once, and the backoff sleeps add up to at most 12000 ms. *)
Theorem renderPreview_budget (id : string) :
  let t := events (renderPreview env id) in
  count_events is_lookup t = 1%nat
  ∧ (count_events is_fetch t <= 1)%nat
  ∧ (count_events is_worker_post t <= posts_allowed env 6)%nat
  ∧ (count_events is_rasterizer_call t <= 1)%nat
  ∧ 0 <= total_sleep t <= 12000.
Proof.
  cbv zeta. unfold renderPreview. rewrite bind_emit, events_pair.
  apply within_cons_lookup.
  destruct (getSpecificStamp env id) as [[sd|]|e];
    [| by apply within_nil | by apply within_nil].
  rewrite bind_lift_ok. cbv zeta.
  destruct (String.eqb (stamp_url sd) EmptyString); [by apply within_nil|].
  destruct (stamp_mimetype sd) as [mt|]; [|by apply within_nil].
  destruct (isRasterType (Some mt)).
  { apply (within_mono (1 + 0) (0 + posts_allowed env 3) (0 + 0) _ _ _
             (0 + 6000)); [|try lia..].
    - apply within_bind; [| |lia].
      + rewrite renderRasterPreview_events. unfold within. cbn.
        repeat split; lia.
      + intros [p|]; [by apply within_nil|].
        apply chrome_within. intros b.
        apply (chrome_continuation_silent _ _ _
                 (set_meta "X-Rendering-Engine" "cloudflare-worker")).
    - unfold posts_allowed. destruct (isCfWorkerConfigured env); lia. }
  destruct (String.eqb mt "image/svg+xml").
  { eapply within_mono; [apply renderSvgPreview_within|try lia..].
    unfold posts_allowed. destruct (isCfWorkerConfigured env); lia. }
  destruct (String.eqb mt "text/html").
  { eapply within_mono; [apply renderHtmlPreview_within|lia..]. }
  destruct (startsWith mt "audio/").
  { apply within_silent; [|lia].
    apply (renderAudioPreview_run env (stamp_url sd) mt (stamp sd)). }
  destruct (startsWith mt "video/"); [|by apply within_nil].
  eapply within_mono;
    [apply chrome_within; intros b;
     apply (chrome_continuation_silent _ _ _ (λ r, r))
    |try lia..].
  unfold posts_allowed. destruct (isCfWorkerConfigured env); lia.
Qed.

End Html.

Lemma renderHtmlPreview_sound_witness :
  ∃ preview,
    outcome (renderHtmlPreview large_env html_url "text/html" (Some 12))
    = Ok (Some preview)
    ∧ isCfWorkerConfigured large_env = true.
Proof.
  eexists. split; [reflexivity|].
  eapply proj1, (renderHtmlPreview_sound large_env html_url "text/html"
                   (Some 12)).
  reflexivity.
Defined.

Lemma html_small_render_retry_witness :
  events (renderHtmlPreview small_env html_url "text/html" (Some 12))
  = EvFetch html_url
      :: events (renderWithCloudflare small_env
                   (html_request small_env html_url static_page))
      ++ events (renderWithCloudflare small_env (retry_request html_url)).
Proof.
  apply (html_small_render_retry small_env html_url "text/html" (Some 12)
           (ok_page static_page) screenshot); reflexivity.
Defined.

(** ** Every preview holds decodable base64 *)

Section Encoded.
Variable env : Env.

Lemma outcome_bind_inv {A B} (m : M A) (k : A → M B) (b : B) :
  outcome (x ← m; k x) = Ok b →
  ∃ a, outcome m = Ok a ∧ outcome (k a) = Ok b.
Proof.
  rewrite outcome_bind. destruct (outcome m) as [a|e]; [|discriminate].
  intros H. by exists a.
Qed.

Lemma centerOnCanvas_png (buffer : Uint8Array) (stampNumber : option Z)
    (stamp_mimetype method : string) (result : CachedPreview) :
  outcome (centerOnCanvas env buffer stampNumber stamp_mimetype method)
  = Ok result →
  ∃ bytes, png result = toBase64 bytes.
Proof.
  unfold centerOnCanvas.
  destruct (Image_decode env buffer) as [sourceImage|e]; [|discriminate].
  rewrite bind_lift_ok.
  destruct (Image_center env sourceImage) as [pngBuffer|e]; [|discriminate].
  rewrite bind_lift_ok. intros [= <-]. by exists pngBuffer.
Qed.

Lemma chrome_png (params : CfParams) (stampNumber : option Z)
    (stamp_mimetype method : string) (f : CachedPreview → CachedPreview)
    (preview : CachedPreview) :
  (∀ r, png (f r) = png r) →
  outcome (cfBuffer ← renderWithCloudflare env params;
           match cfBuffer with
           | Some cfBuffer =>
             result ← centerOnCanvas env cfBuffer stampNumber stamp_mimetype
                        method;
             mret (Some (f result))
           | None => mret None
           end) = Ok (Some preview) →
  ∃ bytes, png preview = toBase64 bytes.
Proof.
  intros Hf H. apply outcome_bind_inv in H as ([b|] & _ & H); [|discriminate].
  apply outcome_bind_inv in H as (result & Hc & H).
  injection H as <-. rewrite Hf. by eapply centerOnCanvas_png.
Qed.

Lemma renderRasterPreview_png (stamp_url stamp_mimetype : string)
    (stampNumber : option Z) (preview : CachedPreview) :
  outcome (renderRasterPreview env stamp_url stamp_mimetype stampNumber)
  = Ok (Some preview) →
  ∃ bytes, png preview = toBase64 bytes.
Proof.
  unfold renderRasterPreview. rewrite bind_emit, outcome_pair.
  destruct (fetch env stamp_url) as [response|e]; [|discriminate].
  rewrite bind_lift_ok. destruct (ok response); simpl negb; cbv iota;
    [|discriminate].
  destruct (arrayBuffer response) as [imageBytes|e]; [|discriminate].
  rewrite bind_lift_ok, outcome_try_catch.
  destruct (String.eqb stamp_mimetype "image/gif").
  - destruct (GIF_decode env imageBytes) as [[|frame gif]|e];
      [discriminate| |discriminate].
    rewrite !bind_lift_ok, bind_ret.
    change (head (frame :: gif)) with (Some frame). cbv iota.
    destruct (upscale frame) as [outputImage|e]; [|discriminate].
    rewrite bind_lift_ok.
    destruct (Image_encode env outputImage) as [pngBuffer|e]; [|discriminate].
    rewrite bind_lift_ok. intros [= <-]. by exists pngBuffer.
  - destruct (Image_decode env imageBytes) as [sourceImage|e]; [|discriminate].
    rewrite !bind_lift_ok, bind_ret.
    destruct (upscale sourceImage) as [outputImage|e]; [|discriminate].
    rewrite bind_lift_ok.
    destruct (Image_encode env outputImage) as [pngBuffer|e]; [|discriminate].
    rewrite bind_lift_ok. intros [= <-]. by exists pngBuffer.
Qed.

(** Every renderer ends in [toBase64]. *)
Lemma renderPreview_encoded (id : string) (preview : CachedPreview) :
  outcome (renderPreview env id) = Ok (Some preview) →
  ∃ bytes, png preview = toBase64 bytes.
Proof.
  unfold renderPreview. rewrite bind_emit, outcome_pair.
  destruct (getSpecificStamp env id) as [[sd|]|e];
    [| discriminate | discriminate].
  rewrite bind_lift_ok. cbv zeta.
  destruct (String.eqb (stamp_url sd) EmptyString); [discriminate|].
  destruct (stamp_mimetype sd) as [mt|]; [|discriminate].
  destruct (isRasterType (Some mt)).
  { intros H. apply outcome_bind_inv in H as ([p|] & Hraster & H).
    - injection H as <-. by eapply renderRasterPreview_png.
    - by eapply (chrome_png _ _ _ _
                   (set_meta "X-Rendering-Engine" "cloudflare-worker")). }
  destruct (String.eqb mt "image/svg+xml").
  { unfold renderSvgPreview. rewrite bind_emit, outcome_pair.
    destruct (fetch env (stamp_url sd)) as [response|e]; [|discriminate].
    rewrite bind_lift_ok. destruct (ok response); simpl negb; cbv iota;
      [|discriminate].
    cbv zeta. destruct (includes (text response) "<foreignObject").
    - apply (chrome_png _ _ _ _
               (λ r, set_meta "X-ForeignObject" "true"
                       (set_meta "X-Rendering-Engine" "cloudflare-worker" r))).
      done.
    - rewrite bind_emit, outcome_pair.
      destruct (resvg_render env _ _) as [pngData|e]; [|discriminate].
      rewrite bind_lift_ok. intros [= <-]. by eexists. }
  destruct (String.eqb mt "text/html").
  { intros H. apply renderHtmlPreview_source in H
      as (_ & response & buffer & result & _ & _ & _ & _ & Hc & ->).
    by eapply centerOnCanvas_png. }
  destruct (startsWith mt "audio/").
  { unfold renderAudioPreview.
    destruct (waveform env _) as [outputImage|e]; [|discriminate].
    rewrite bind_lift_ok.
    destruct (Image_encode env outputImage) as [pngBuffer|e]; [|discriminate].
    rewrite bind_lift_ok. intros [= <-]. by eexists. }
  destruct (startsWith mt "video/"); [|discriminate].
  by apply (chrome_png _ _ _ _ (λ r, r)).
Qed.

(** X13. Every preview a render returns holds well-formed base64: its
    [png] field is the encoding of a byte array, so [fromBase64] decodes it
    to those bytes and the handlers never fail on a rendered preview. *)
Theorem renderPreview_png_decodable (id : string) (preview : CachedPreview) :
  outcome (renderPreview env id) = Ok (Some preview) →
  ∃ bytes, png preview = toBase64 bytes
           ∧ fromBase64 (png preview) = Some bytes.
Proof.
  intros H. destruct (renderPreview_encoded id preview H) as [bytes Hb].
  exists bytes. split; [done|]. rewrite Hb. apply codec_round_trip.
Qed.

End Encoded.

Lemma renderPreview_png_decodable_witness :
  ∃ preview,
    outcome (renderPreview video_env "10") = Ok (Some preview)
    ∧ ∃ bytes, png preview = toBase64 bytes
               ∧ fromBase64 (png preview) = Some bytes.
Proof.
  eexists. split; [reflexivity|].
  apply (renderPreview_png_decodable video_env "10"). reflexivity.
Defined.

(** ** The cache layer, continued *)

Section CacheMore.
Variable env : Env.
Variable stamp : string.

Lemma preview_response_encoded (p : CachedPreview) (bytes : Uint8Array)
    (xcache : string) (st : State) :
  png p = toBase64 bytes →
  preview_response p xcache st
  = (Ok (binaryResponse bytes "image/png"
           (<["Cache-Control" := CACHE_success]>
              (<["X-Cache" := xcache]> (meta p)))), st).
Proof.
  intros Hb. unfold preview_response, and_then, decode_png, pure.
  by rewrite Hb, codec_round_trip.
Qed.

Local Ltac run_handler :=
  unfold handleRedisPreview, new_sentinel, and_then, invalidateCacheByPattern,
    pure, set_wasRendered, handleCache, call_renderPreview, now,
    get_wasRendered;
  cbn [cache ticks renders wasRendered].

(** The request that renders: it finds no entry, or it forces a refresh. *)
Lemma refreshed_store (forceRefresh : bool) (st : State) :
  forceRefresh = true ∨ cache st !! cache_key stamp = None →
  (if forceRefresh then delete (cache_key stamp) (cache st) else cache st)
  = delete (cache_key stamp) (cache st).
Proof.
  intros [-> | Hmiss]; [done|]. destruct forceRefresh; [done|].
  symmetry. by apply delete_id.
Qed.

Lemma handleRedisPreview_start (forceRefresh : bool) (st : State) :
  handleRedisPreview env stamp forceRefresh st
  = handleRedisPreview env stamp false
      (mkState (if forceRefresh then delete (cache_key stamp) (cache st)
                else cache st)
               (ticks st) (renders st) (wasRendered st)).
Proof. destruct forceRefresh; [reflexivity|]. by destruct st. Qed.

(** X14. Insert, then lookup: a request that finds no entry, or forces
    a refresh, and whose render gives a preview with a non-empty PNG serves
    the bytes the renderer encoded, marked [rendered], and stores the
    preview for 604800 seconds; the next request serves the same bytes from
    the store, marked [redis-hit], without rendering and without touching
    the store. *)
Theorem redis_miss_then_hit (forceRefresh : bool) (st : State)
    (trace : list Event) (p : CachedPreview) :
  forceRefresh = true ∨ cache st !! cache_key stamp = None →
  renderPreview env stamp = (trace, Ok (Some p)) →
  png p ≠ EmptyString →
  let first := handleRedisPreview env stamp forceRefresh st in
  let second := handleRedisPreview env stamp false first.2 in
  let served xcache bytes :=
    Ok (binaryResponse bytes "image/png"
          (<["Cache-Control" := CACHE_success]>
             (<["X-Cache" := xcache]> (meta p)))) in
  ∃ bytes,
    png p = toBase64 bytes
    ∧ first.1 = served "rendered"%string bytes
    ∧ cache first.2
      = <[cache_key stamp := (Preview p, 604800)]>
          (delete (cache_key stamp) (cache st))
    ∧ renders first.2 = renders st ++ [Rendered stamp trace]
    ∧ second.1 = served "redis-hit"%string bytes
    ∧ cache second.2 = cache first.2
    ∧ renders second.2 = renders first.2.
Proof.
  intros Hstart Hrender Hpng first second served.
  destruct (renderPreview_encoded env stamp p) as [bytes Hb];
    [by rewrite Hrender|].
  exists bytes. split; [done|].
  apply String.eqb_neq in Hpng.
  assert (Hmiss : delete (cache_key stamp) (cache st) !! cache_key stamp = None)
    by apply lookup_delete_eq.
  assert (Hfirst : first
    = (served "rendered"%string bytes,
       mkState (<[cache_key stamp := (Preview p, 604800)]>
                  (delete (cache_key stamp) (cache st)))
               (ticks st) (renders st ++ [Rendered stamp trace]) true)).
  { subst first. rewrite handleRedisPreview_start, refreshed_store by done.
    run_handler. rewrite Hmiss, Hrender.
    cbn [cache ticks renders wasRendered]. rewrite Hpng. cbn [negb].
    by rewrite (preview_response_encoded p bytes). }
  assert (Hsecond : second
    = (served "redis-hit"%string bytes,
       mkState (<[cache_key stamp := (Preview p, 604800)]>
                  (delete (cache_key stamp) (cache st)))
               (ticks st) (renders st ++ [Rendered stamp trace]) false)).
  { subst second. rewrite Hfirst. cbn [snd]. run_handler.
    rewrite lookup_insert_eq. rewrite Hpng. cbn [negb].
    by rewrite (preview_response_encoded p bytes). }
  rewrite Hsecond, Hfirst. by cbn.
Qed.

(** X15. A render that gives nothing is memoized: the request writes a
    sentinel stamped with the clock reading taken right after the render
    and answers at once from it, with the fallback redirect marked
    [cached-render-failure]; the next request inside the window of 3600
    seconds gets the same answer without a render. *)
Theorem redis_failure_memoized (forceRefresh : bool) (st : State)
    (trace : list Event) :
  forceRefresh = true ∨ cache st !! cache_key stamp = None →
  renderPreview env stamp = (trace, Ok None) →
  let t0 := Date_now env (ticks st) in
  let t1 := Date_now env (S (ticks st)) in
  let t2 := Date_now env (S (S (ticks st))) in
  t1 - t0 < FAILED_RENDER_TTL * 1000 →
  t2 - t0 < FAILED_RENDER_TTL * 1000 →
  let first := handleRedisPreview env stamp forceRefresh st in
  let second := handleRedisPreview env stamp false first.2 in
  let refused age :=
    Ok (fallback
          (<["X-Fallback" := "cached-render-failure"%string]>
           (<["X-Failure-Age" := toString (round_seconds age) +:+ "s"]> ∅))) in
  first.1 = refused (t1 - t0)
  ∧ cache first.2
    = <[cache_key stamp := (FailedRenderSentinel t0, 604800)]>
        (delete (cache_key stamp) (cache st))
  ∧ renders first.2 = renders st ++ [Rendered stamp trace]
  ∧ second.1 = refused (t2 - t0)
  ∧ cache second.2 = cache first.2
  ∧ renders second.2 = renders first.2.
Proof.
  intros Hstart Hrender t0 t1 t2 Hyoung1 Hyoung2 first second refused.
  assert (Hmiss : delete (cache_key stamp) (cache st) !! cache_key stamp = None)
    by apply lookup_delete_eq.
  apply Z.ltb_lt in Hyoung1, Hyoung2.
  unfold t0, t1 in Hyoung1. unfold t2 in Hyoung2.
  assert (Hfirst : first
    = (refused (t1 - t0),
       mkState (<[cache_key stamp := (FailedRenderSentinel t0, 604800)]>
                  (delete (cache_key stamp) (cache st)))
               (S (S (ticks st))) (renders st ++ [Rendered stamp trace])
               true)).
  { subst first. rewrite handleRedisPreview_start, refreshed_store by done.
    run_handler. rewrite Hmiss, Hrender.
    cbn [cache ticks renders wasRendered]. by rewrite Hyoung1. }
  assert (Hsecond : second
    = (refused (t2 - t0),
       mkState (<[cache_key stamp := (FailedRenderSentinel t0, 604800)]>
                  (delete (cache_key stamp) (cache st)))
               (S (S (S (ticks st)))) (renders st ++ [Rendered stamp trace])
               false)).
  { subst second. rewrite Hfirst. cbn [snd]. run_handler.
    rewrite lookup_insert_eq. cbn [cache ticks renders wasRendered].
    by rewrite Hyoung2. }
  rewrite Hsecond, Hfirst. by cbn.
Qed.

(** X16. A render that throws is not memoized: the error leaves the
    handler and nothing is written.  After a forced refresh the store is
    left without the entry it held before the request. *)
Theorem redis_render_error_not_cached (forceRefresh : bool) (st : State)
    (trace : list Event) (error : JsError) :
  forceRefresh = true ∨ cache st !! cache_key stamp = None →
  renderPreview env stamp = (trace, Throw error) →
  let run := handleRedisPreview env stamp forceRefresh st in
  run.1 = Throw error
  ∧ cache run.2 = delete (cache_key stamp) (cache st)
  ∧ cache run.2 !! cache_key stamp = None
  ∧ renders run.2 = renders st ++ [Rendered stamp trace].
Proof.
  intros Hstart Hrender run.
  assert (Hmiss : delete (cache_key stamp) (cache st) !! cache_key stamp = None)
    by apply lookup_delete_eq.
  assert (Hrun : run
    = (Throw error,
       mkState (delete (cache_key stamp) (cache st)) (ticks st)
               (renders st ++ [Rendered stamp trace]) true)).
  { subst run. rewrite handleRedisPreview_start, refreshed_store by done.
    run_handler. by rewrite Hmiss, Hrender. }
  rewrite Hrun. by cbn.
Qed.

End CacheMore.

(** ** The S3 storage path *)

Section S3.
Variable storage : Storage.
Variable env : Env.
Variable stamp : string.

Lemma toBase64_nonempty (bytes : Uint8Array) :
  toBase64 bytes ≠ EmptyString → bytes ≠ [].
Proof. intros H ->. by apply H. Qed.

(** X18. The S3 path uploads what the renderer encoded: when the
    storage reports no preview, or on a forced refresh, and the render gives
    a preview with a non-empty PNG, [uploadPreview] is called once with
    the stamp, the bytes whose base64 encoding the preview holds, and the
    metadata of the preview; the answer is the redirect to the storage URL
    marked [s3-uploaded], or the error of the upload. *)
Theorem s3_upload_fidelity (forceRefresh : bool) (st : S3State)
    (trace : list Event) (p : CachedPreview) :
  forceRefresh = true ∨ previewExists storage stamp = Ok false →
  renderPreview env stamp = (trace, Ok (Some p)) →
  png p ≠ EmptyString →
  let run := handleS3Preview storage env stamp forceRefresh st in
  ∃ bytes,
    png p = toBase64 bytes
    ∧ uploads run.2 = uploads st ++ [(stamp, bytes, meta p)]
    ∧ s3_renders run.2 = s3_renders st ++ [Rendered stamp trace]
    ∧ run.1 = match uploadPreview storage stamp bytes (meta p) with
              | Ok _ =>
                Ok (redirect (getPreviewUrl storage stamp) 302
                      (<["Cache-Control" := CACHE_redirect]>
                         (<["X-Cache" := "s3-uploaded"%string]> ∅)))
              | Throw e => Throw e
              end.
Proof.
  intros Hstart Hrender Hpng run.
  destruct (renderPreview_encoded env stamp p) as [bytes Hb];
    [by rewrite Hrender|].
  exists bytes. split; [done|].
  apply String.eqb_neq in Hpng.
  assert (Hask : (if forceRefresh then Ok false
                  else previewExists storage stamp) = Ok false).
  { destruct Hstart as [-> | Hno]; [done|]. by destruct forceRefresh. }
  subst run. unfold handleS3Preview.
  rewrite Hask, Hrender, Hpng. cbn [negb].
  rewrite Hb, codec_round_trip.
  by destruct (uploadPreview storage stamp bytes (meta p)).
Qed.

(** X19. The S3 path keeps no memory of a failed render: when the
    render gives nothing, or an empty PNG, the request answers with the
    fallback redirect and uploads nothing, and the next request, told again
    that no preview exists, starts a render of its own. *)
Theorem s3_failure_not_memoized (env2 : Env) (st : S3State)
    (trace : list Event) (rendered : option CachedPreview) :
  previewExists storage stamp = Ok false →
  renderPreview env stamp = (trace, Ok rendered) →
  (∀ p, rendered = Some p → png p = EmptyString) →
  let first := handleS3Preview storage env stamp false st in
  let second := handleS3Preview storage env2 stamp false first.2 in
  first.1
  = Ok (fallback (<["X-Fallback" := "render-failed-or-unsupported"%string]> ∅))
  ∧ uploads first.2 = uploads st
  ∧ s3_renders second.2
    = s3_renders st ++ [Rendered stamp trace;
                        Rendered stamp (events (renderPreview env2 stamp))].
Proof.
  intros Hno Hrender Hfail first second.
  assert (Hfirst : first
    = (Ok (fallback
             (<["X-Fallback" := "render-failed-or-unsupported"%string]> ∅)),
       mkS3State (uploads st) (s3_renders st ++ [Rendered stamp trace]))).
  { subst first. unfold handleS3Preview. rewrite Hno, Hrender.
    destruct rendered as [p|]; [|done].
    by rewrite (Hfail p eq_refl). }
  subst second. rewrite Hfirst. cbn [fst snd uploads].
  split; [done|]. split; [done|].
  unfold handleS3Preview. rewrite Hno.
  destruct (renderPreview env2 stamp) as [trace2 [[p|]|e]];
    cbn [events fst s3_renders uploads]; try by rewrite <- app_assoc.
  destruct (negb (String.eqb (png p) EmptyString));
    [|by rewrite <- app_assoc].
  destruct (fromBase64 (png p)); [|by rewrite <- app_assoc].
  destruct (uploadPreview storage stamp _ _); by rewrite <- app_assoc.
Qed.

(** X20. Whatever the storage and the renderer answer, a request of the
    S3 path makes at most one upload, and what it uploads is the non-empty
    byte array encoded in the preview that the render of this stamp
    returned, with the metadata of that preview. *)
Theorem s3_uploads_only_renders (forceRefresh : bool) (st : S3State) :
  let run := handleS3Preview storage env stamp forceRefresh st in
  uploads run.2 = uploads st
  ∨ ∃ p bytes,
      outcome (renderPreview env stamp) = Ok (Some p)
      ∧ png p = toBase64 bytes ∧ bytes ≠ []
      ∧ uploads run.2 = uploads st ++ [(stamp, bytes, meta p)].
Proof.
  cbv zeta. unfold handleS3Preview.
  destruct (if forceRefresh then Ok false else previewExists storage stamp)
    as [[|]|e]; [by left| |by left].
  destruct (renderPreview env stamp) as [trace [[p|]|e]] eqn:Hrender;
    [|by left|by left].
  destruct (String.eqb (png p) EmptyString) eqn:Hpng; [by left|].
  apply String.eqb_neq in Hpng.
  destruct (renderPreview_encoded env stamp p) as [bytes Hb];
    [by rewrite Hrender|].
  cbn [negb]. rewrite Hb, codec_round_trip. right. exists p, bytes.
  split; [done|]. split; [done|].
  split; [apply toBase64_nonempty; by rewrite <- Hb|].
  by destruct (uploadPreview storage stamp bytes (meta p)).
Qed.

End S3.

Lemma redis_miss_then_hit_witness :
  let p := rendered_preview (renderPreview video_env "10") in
  let first := handleRedisPreview video_env "10" false empty_store in
  let second := handleRedisPreview video_env "10" false first.2 in
  ∃ bytes,
    png p = toBase64 bytes
    ∧ first.1
      = Ok (binaryResponse bytes "image/png"
              (<["Cache-Control" := CACHE_success]>
                 (<["X-Cache" := "rendered"%string]> (meta p))))
    ∧ second.1
      = Ok (binaryResponse bytes "image/png"
              (<["Cache-Control" := CACHE_success]>
                 (<["X-Cache" := "redis-hit"%string]> (meta p))))
    ∧ renders second.2 = renders first.2.
Proof.
  intros p first second.
  destruct (redis_miss_then_hit video_env "10" false empty_store
              (events (renderPreview video_env "10")) p)
    as (bytes & Hb & H1 & _ & _ & H2 & _ & H3);
    [right; reflexivity | reflexivity | vm_compute; discriminate |].
  exists bytes. by repeat split.
Defined.

Lemma redis_failure_memoized_witness :
  let first := handleRedisPreview (encoding_env pdf_stamp) "11" false
                 empty_store in
  let second := handleRedisPreview (encoding_env pdf_stamp) "11" false
                  first.2 in
  cache first.2 !! cache_key "11" = Some (FailedRenderSentinel 0, 604800)
  ∧ renders second.2 = renders first.2.
Proof.
  intros first second.
  destruct (redis_failure_memoized (encoding_env pdf_stamp) "11" false
              empty_store [EvLookup "11"])
    as (_ & Hc & _ & _ & _ & Hr);
    [right; reflexivity | reflexivity | reflexivity | reflexivity |].
  split; [|exact Hr]. fold first in Hc. rewrite Hc. apply lookup_insert_eq.
Defined.

Lemma redis_render_error_not_cached_witness :
  cache (handleRedisPreview unreachable_env "8" true failed_before).2
    !! cache_key "8" = None.
Proof.
  apply (redis_render_error_not_cached unreachable_env "8" true failed_before
           [EvLookup "8"; EvFetch (stamp_url webp_stamp)]
           (mkError "Error" "unavailable"));
    [left; reflexivity | reflexivity].
Defined.

Lemma s3_upload_fidelity_witness :
  let p := rendered_preview (renderPreview video_env "10") in
  let run := handleS3Preview empty_storage video_env "10" false
               nothing_uploaded in
  ∃ bytes, png p = toBase64 bytes ∧ uploads run.2 = [("10"%string, bytes, meta p)].
Proof.
  intros p run.
  destruct (s3_upload_fidelity empty_storage video_env "10" false
              nothing_uploaded (events (renderPreview video_env "10")) p)
    as (bytes & Hb & Hu & _);
    [right; reflexivity | reflexivity | vm_compute; discriminate |].
  exists bytes. by split.
Defined.

Lemma s3_failure_not_memoized_witness :
  let first := handleS3Preview empty_storage (encoding_env pdf_stamp) "11"
                 false nothing_uploaded in
  let second := handleS3Preview empty_storage (encoding_env pdf_stamp) "11"
                  false first.2 in
  uploads first.2 = []
  ∧ s3_renders second.2
    = [Rendered "11" [EvLookup "11"]; Rendered "11" [EvLookup "11"]].
Proof.
  intros first second.
  destruct (s3_failure_not_memoized empty_storage (encoding_env pdf_stamp)
              "11" (encoding_env pdf_stamp) nothing_uploaded
              [EvLookup "11"] None)
    as (_ & Hu & Hr); [reflexivity | reflexivity | discriminate |].
  by split.
Defined.

(** ** The scale factor, the codec and the waveform, continued *)

(** X21. The scale factor is the integer quotient of 1200 by the larger
    side of the source: the lower bound 2 of the nominal factor never takes
    effect, because the clamp by both quotients undoes it.  For a source of
    at most 1200 pixels a side the factor is at least 1 and the larger side
    of the copy covers more than half of the canvas. *)
Theorem scale_is_quotient (w h : Z) :
  1 <= w → 1 <= h →
  scale w h = targetSize / Z.max w h
  ∧ (Z.max w h <= targetSize →
     1 <= scale w h
     ∧ targetSize / 2 < Z.max (scaledWidth w h) (scaledHeight w h)
       <= targetSize).
Proof.
  intros Hw Hh. unfold scaledWidth, scaledHeight.
  assert (Hq : Z.min (targetSize / w) (targetSize / h)
               = targetSize / Z.max w h).
  { destruct (Z.max_spec w h) as [[Hle ->] | [Hle ->]].
    - apply Z.min_r. apply Z.div_le_compat_l; unfold targetSize; lia.
    - apply Z.min_l. apply Z.div_le_compat_l; unfold targetSize; lia. }
  assert (Hs : scale w h = targetSize / Z.max w h).
  { unfold scale, rawScale. rewrite Hq. lia. }
  split; [exact Hs|]. intros Hm. rewrite Hs.
  set (m := Z.max w h) in *.
  assert (Hm1 : 1 <= m) by lia.
  assert (Hmax : Z.max (w * (targetSize / m)) (h * (targetSize / m))
                 = m * (targetSize / m)).
  { assert (0 <= targetSize / m) by (apply Z.div_pos; unfold targetSize; lia).
    subst m. destruct (Z.max_spec w h) as [[Hle ->] | [Hle ->]]; nia. }
  rewrite Hmax. unfold targetSize in *.
  pose proof (Z.div_mod 1200 m ltac:(lia)) as Hdm.
  pose proof (Z.mod_pos_bound 1200 m ltac:(lia)) as Hmod.
  assert (1 <= 1200 / m) by (apply Z.div_le_lower_bound; lia).
  split; [done|].
  change (1200 / 2) with 600.
  destruct (Z_le_gt_dec m 600) as [Hsmall | Hlarge]; [nia|].
  assert (1200 / m = 1) by nia.
  nia.
Qed.

Lemma sextets_padding_length (l : list Z) :
  (List.length (Base64.sextets l)
   + List.length (Base64.padding (List.length l))
   = 4 * ((List.length l + 2) / 3))%nat.
Proof.
  induction l as [| a | a b | a b c l IH] using list_ind3;
    try reflexivity.
  change (List.length (a :: b :: c :: l)) with (3 + List.length l)%nat.
  rewrite padding_add3.
  change (List.length (Base64.sextets (a :: b :: c :: l)))
    with (4 + List.length (Base64.sextets l))%nat.
  replace (3 + List.length l + 2)%nat with (List.length l + 2 + 1 * 3)%nat
    by lia.
  rewrite Nat.div_add by lia. lia.
Qed.

(** X22. The encoding of [n] bytes has exactly [4 * ceil(n / 3)]
    characters, and it is the empty string only for the empty array: a
    preview with an empty [png] field can only come from an empty PNG
    buffer. *)
Theorem toBase64_length (bytes : Uint8Array) :
  String.length (toBase64 bytes) = (4 * ((List.length bytes + 2) / 3))%nat
  ∧ (toBase64 bytes = EmptyString ↔ bytes = []).
Proof.
  assert (Hlen : String.length (toBase64 bytes)
                 = (4 * ((List.length bytes + 2) / 3))%nat).
  { unfold toBase64, Base64.btoa.
    set (binary := fold_left _ bytes EmptyString).
    assert (Hbin : chars binary = (λ x, fromCharCode (byte_to_Z x)) <$> bytes).
    { unfold binary. by rewrite binary_of_bytes. }
    rewrite <- (length_chars (str _)), chars_str, length_app, length_fmap.
    rewrite <- (length_chars binary), Hbin.
    set (codes := charCode <$> _).
    replace (List.length ((λ x, fromCharCode (byte_to_Z x)) <$> bytes))
      with (List.length codes) by (unfold codes; by rewrite !length_fmap).
    rewrite sextets_padding_length. unfold codes. by rewrite !length_fmap. }
  split; [exact Hlen|]. split.
  - intros Hempty. rewrite Hempty in Hlen.
    change (String.length EmptyString) with 0%nat in Hlen.
    destruct bytes as [|b bytes]; [done|]. exfalso.
    change (List.length (b :: bytes)) with (S (List.length bytes)) in Hlen.
    assert (1 <= (S (List.length bytes) + 2) / 3)%nat
      by (apply Nat.div_le_lower_bound; lia).
    lia.
  - intros ->. reflexivity.
Qed.

Section Palette.

Lemma setPixelAt_painted (img : Image) (x y color : Z) :
  painted img → on_canvas x y → color ∈ palette →
  ∃ img', setPixelAt img x y color = Ok img' ∧ painted img'.
Proof.
  intros [Hc Hp] Hxy Hcolor.
  destruct (setPixelAt_canvas img x y color Hc Hxy) as (img' & Hset & Hc').
  exists img'. split; [done|]. split; [done|].
  unfold setPixelAt in Hset. destruct (in_bounds img x y); [|discriminate].
  injection Hset as <-. cbn [bitmap].
  assert (Hcol : ToUint32 color = color).
  { unfold palette, colors in Hcolor. unfold ToUint32.
    repeat (apply elem_of_cons in Hcolor as [-> | Hcolor]; [done|]).
    by apply elem_of_nil in Hcolor. }
  rewrite Hcol.
  destruct (decide (offset_of img x y < List.length (bitmap img))%nat) as [Hlt|Hge].
  - by apply Forall_insert.
  - by rewrite list_insert_ge by lia.
Qed.

Lemma plot_painted (img : Image) (px py color : Z) :
  painted img → color ∈ palette →
  ∃ img', plot img px py color = Ok img' ∧ painted img'.
Proof.
  intros Hp Hcolor. unfold plot.
  destruct ((1 <=? px) && (px <=? targetSize) && (1 <=? py)
            && (py <=? targetSize)) eqn:E; [|by exists img].
  apply setPixelAt_painted; [done| |done].
  rewrite !andb_true_iff, !Z.leb_le in E. unfold on_canvas. lia.
Qed.

Lemma guarded_row_painted (img : Image) (x py color width : Z) :
  painted img → 1 <= py <= targetSize → color ∈ palette →
  ∃ img',
    for_range 0 width (λ dx outputImage,
      let px := x + dx in
      if (px <? 1) || (px >? targetSize) then Ok outputImage
      else setPixelAt outputImage px py color) img = Ok img'
    ∧ painted img'.
Proof.
  intros Hp Hpy Hcolor. apply for_range_preserves; [done|].
  intros dx img1 Hp1. cbv zeta.
  destruct ((x + dx <? 1) || (x + dx >? targetSize)) eqn:E;
    [by exists img1|].
  apply orb_false_iff in E as [E1 E2].
  apply setPixelAt_painted; [done| |done]. unfold on_canvas. lia.
Qed.

Lemma bar_colour (seed : Z) :
  default 0 (colors !! Z.to_nat (Z.rem seed 4)) ∈ palette.
Proof.
  pose proof (Z.rem_bound_abs seed 4 ltac:(lia)) as Hb.
  assert (Hi : (Z.to_nat (Z.rem seed 4) < 4)%nat) by lia.
  destruct (Z.to_nat (Z.rem seed 4)) as [|[|[|[|n]]]]; [| | | |lia];
    unfold palette, colors; cbn; set_solver.
Qed.

Lemma draw_bars_painted (env : Env) (seed : Z) (img : Image) :
  painted img →
  ∃ seed' img', draw_bars env seed img = Ok (seed', img') ∧ painted img'.
Proof.
  intros Hc. unfold draw_bars.
  destruct (for_range_preserves (λ st : Z * Image, painted st.2)
              (λ i '(seed, outputImage),
                 let seed := next_seed seed in
                 let barHeight := barHeight env i (Z.rem seed 700) in
                 let x := startX + i * (barWidth + gap) in
                 let seed := next_seed seed in
                 let color := default 0 (colors !! Z.to_nat (Z.rem seed 4)) in
                 match
                   for_range (- barHeight) (barHeight + 1) (λ dy outputImage,
                     let py := centerY + dy in
                     if (py <? 1) || (py >? targetSize) then Ok outputImage
                     else
                       for_range 0 barWidth (λ dx outputImage,
                         let px := x + dx in
                         if (px <? 1) || (px >? targetSize) then Ok outputImage
                         else setPixelAt outputImage px py color) outputImage)
                     outputImage
                 with
                 | Ok outputImage => Ok (seed, outputImage)
                 | Throw e => Throw e
                 end) 0 barCount (seed, img))
    as ([seed' img'] & Hrun & Hc'); [done | | by exists seed', img'].
  intros i [seed1 img1] Hc1. cbv zeta. simpl in Hc1.
  match goal with
  | |- context [for_range ?lo ?hi ?body img1] =>
      destruct (for_range_preserves painted body lo hi img1)
        as (img2 & -> & Hc2)
  end; [done | | by eexists (_, img2)].
  intros dy img2 Hc2. cbv zeta.
  destruct ((centerY + dy <? 1) || (centerY + dy >? targetSize)) eqn:E;
    [by exists img2|].
  apply orb_false_iff in E as [E1 E2].
  apply guarded_row_painted; [done | lia | apply bar_colour].
Qed.

Lemma draw_circle_painted (img : Image) :
  painted img → ∃ img', draw_circle img = Ok img' ∧ painted img'.
Proof.
  intros Hc. unfold draw_circle. cbv zeta.
  apply for_range_preserves; [done|]. intros dy img1 Hc1.
  apply for_range_preserves; [done|]. intros dx img2 Hc2.
  destruct (dx * dx + dy * dy <=? circleR * circleR); [|by exists img2].
  apply plot_painted; [done|]. unfold palette, colors. set_solver.
Qed.

Lemma draw_triangle_painted (env : Env) (img : Image) :
  painted img → ∃ img', draw_triangle env img = Ok img' ∧ painted img'.
Proof.
  intros Hc. unfold draw_triangle. cbv zeta.
  apply for_range_preserves; [done|]. intros row img1 Hc1.
  apply for_range_preserves; [done|]. intros col img2 Hc2.
  apply plot_painted; [done|]. unfold palette, colors. set_solver.
Qed.

(** X23. For every seed and whatever the floating-point helpers answer,
    the waveform is drawn without an error on a canvas of 1200 by 1200 and
    uses no other pixel value than the background, the four bar colours,
    the colour of the disc and the white of the play symbol. *)
Theorem waveform_palette (env : Env) (seed : Z) :
  ∃ img,
    waveform env seed = Ok img
    ∧ is_canvas img
    ∧ Forall (λ v, v ∈ palette) (bitmap img).
Proof.
  unfold waveform.
  destruct (fill_new_Image targetSize targetSize 0x14001fff)
    as (Hw & Hh & Hl & Hfill).
  destruct (draw_bars_painted env seed
              (fill (new_Image targetSize targetSize) 0x14001fff))
    as (seed' & img1 & -> & Hc1).
  { split.
    - unfold is_canvas. rewrite Hw, Hh, Hl. unfold targetSize. lia.
    - unfold fill. cbn [bitmap]. apply Forall_fmap, Forall_true.
      intros v. apply elem_of_cons. left. reflexivity. }
  destruct (draw_circle_painted img1 Hc1) as (img2 & -> & Hc2).
  destruct (draw_triangle_painted env img2 Hc2) as (img3 & -> & [Hc3 Hp3]).
  exists img3. split; [reflexivity|]. split; assumption.
Qed.

End Palette.

Lemma scale_is_quotient_witness :
  scale 64 32 = targetSize / Z.max 64 32
  ∧ (Z.max 64 32 <= targetSize →
     1 <= scale 64 32
     ∧ targetSize / 2 < Z.max (scaledWidth 64 32) (scaledHeight 64 32)
       <= targetSize).
Proof. apply (scale_is_quotient 64 32); lia. Defined.

(** ** The content URL of an HTML stamp *)

Section ContentUrl.

Lemma str_app (a b : list ascii) : str (a ++ b) = str a +:+ str b.
Proof. induction a as [|c a IH]; simpl; [done | by rewrite IH]. Qed.

Lemma prefix_app_long (sep : string) (l m : list ascii) :
  (String.length sep <= List.length l)%nat →
  String.prefix sep (str (l ++ m)) = String.prefix sep (str l).
Proof.
  revert l. induction sep as [|c sep IH]; intros l Hlen; [by rewrite !prefix_empty|].
  destruct l as [|d l]; simpl in Hlen; [lia|]. simpl.
  destruct (ascii_dec c d); [|done]. apply IH. lia.
Qed.

(** A string without the separator is one segment. *)
Lemma last_segment_whole (sep : string) (l acc : list ascii) :
  includes (str l) sep = false →
  last_segment sep l 0 acc = rev acc ++ l.
Proof.
  revert acc. induction l as [|c l IH]; intros acc Hno.
  - simpl. by rewrite app_nil_r.
  - change (str (c :: l)) with (String c (str l)) in Hno.
    rewrite includes_cons in Hno. apply orb_false_iff in Hno as [Hp Hno].
    simpl. change (String c (str l)) with (str (c :: l)) in Hp.
    simpl in Hp. rewrite Hp. rewrite IH by done. simpl.
    by rewrite <- app_assoc.
Qed.

(** The scan passes over a [base] in which no separator starts. *)
Lemma last_segment_base (base rest acc : list ascii) :
  includes (str (base ++ chars "/stamps")) "/stamps/" = false →
  last_segment "/stamps/" (base ++ chars "/stamps/" ++ rest) 0 acc
  = last_segment "/stamps/" rest 0 [].
Proof.
  revert acc. induction base as [|c base IH]; intros acc Hno.
  - clear Hno. simpl. rewrite prefix_empty. reflexivity.
  - change (str ((c :: base) ++ chars "/stamps"))
      with (String c (str (base ++ chars "/stamps"))) in Hno.
    rewrite includes_cons in Hno. apply orb_false_iff in Hno as [Hp Hno].
    change (String c (str (base ++ chars "/stamps")))
      with (str ((c :: base) ++ chars "/stamps")) in Hp.
    assert (Hp' : String.prefix "/stamps/"
                    (str ((c :: base) ++ chars "/stamps/" ++ rest)) = false).
    { replace ((c :: base) ++ chars "/stamps/" ++ rest)
        with (((c :: base) ++ chars "/stamps") ++ ("/"%char :: rest))
        by (by rewrite <- app_assoc).
      rewrite prefix_app_long; [done|].
      rewrite length_app. simpl. lia. }
    change ((c :: base) ++ chars "/stamps/" ++ rest)
      with (c :: (base ++ chars "/stamps/" ++ rest)) in *.
    cbn [last_segment]. rewrite Hp'. by apply IH.
Qed.

Lemma chars_toLowerCase (s : string) :
  chars (toLowerCase s) = lower <$> chars s.
Proof. unfold toLowerCase. apply chars_str. Qed.

Lemma length_toLowerCase (s : string) :
  String.length (toLowerCase s) = String.length s.
Proof.
  by rewrite <- !length_chars, chars_toLowerCase, length_fmap.
Qed.

Lemma toLowerCase_app (a b : string) :
  toLowerCase (a +:+ b) = toLowerCase a +:+ toLowerCase b.
Proof.
  unfold toLowerCase. by rewrite chars_app, fmap_app, str_app.
Qed.

Lemma endsWith_app (a x : string) : endsWith (a +:+ x) x = true.
Proof.
  unfold endsWith. rewrite chars_app, rev_app_distr, str_app.
  generalize (str (rev (chars x))) (str (rev (chars a))).
  intros p q. induction p as [|c p IH]; simpl; [apply prefix_empty|].
  by destruct (ascii_dec c c).
Qed.

Lemma drop_end_app (a x : string) : drop_end (String.length x) (a +:+ x) = a.
Proof.
  unfold drop_end. rewrite chars_app.
  rewrite <- (length_chars (a +:+ x)), chars_app, length_app, !length_chars.
  replace (String.length a + String.length x - String.length x)%nat
    with (List.length (chars a)) by (rewrite length_chars; lia).
  by rewrite take_app_length, str_chars.
Qed.

(** The extension is removed, in any letter case. *)
Lemma strip_html_extension_app (hash ext : string) :
  toLowerCase ext = ".html"%string ∨ toLowerCase ext = ".htm"%string →
  strip_html_extension (hash +:+ ext) = hash.
Proof.
  intros Hext. unfold strip_html_extension. rewrite toLowerCase_app.
  destruct Hext as [Hext | Hext]; rewrite Hext.
  - rewrite endsWith_app.
    replace 5%nat with (String.length ext)
      by (by rewrite <- length_toLowerCase, Hext).
    apply drop_end_app.
  - assert (Hno : endsWith (toLowerCase hash +:+ ".htm") ".html" = false).
    { unfold endsWith. rewrite chars_app, rev_app_distr, str_app. reflexivity. }
    rewrite Hno, endsWith_app.
    replace 4%nat with (String.length ext)
      by (by rewrite <- length_toLowerCase, Hext).
    apply drop_end_app.
Qed.

Lemma txHash_of_stamp_url (base name : string) :
  includes (base +:+ "/stamps") "/stamps/" = false →
  includes name "/stamps/" = false →
  txHash (base +:+ "/stamps/" +:+ name) = strip_html_extension name.
Proof.
  intros Hbase Hname. unfold txHash. f_equal.
  rewrite !chars_app.
  rewrite <- (str_chars (base +:+ "/stamps")), chars_app in Hbase.
  pose proof (last_segment_base (chars base) (chars name) [] Hbase) as Hscan.
  rewrite Hscan.
  rewrite last_segment_whole by (by rewrite str_chars).
  apply str_chars.
Qed.

(** X24. For a stamp URL of the usual shape, a base followed by
    [/stamps/], a name and the extension [.html] or [.htm] in any letter
    case, where [/stamps/] occurs nowhere else, the transaction hash is the
    name and the content URL is the [/content/] endpoint of stampchain.io
    followed by the name. *)
Theorem contentUrl_of_stamp_url (base hash ext : string) :
  includes (base +:+ "/stamps") "/stamps/" = false →
  includes (hash +:+ ext) "/stamps/" = false →
  toLowerCase ext = ".html"%string ∨ toLowerCase ext = ".htm"%string →
  hash ≠ EmptyString →
  txHash (base +:+ "/stamps/" +:+ hash +:+ ext) = hash
  ∧ contentUrl (base +:+ "/stamps/" +:+ hash +:+ ext)
    = "https://stampchain.io/content/" +:+ hash.
Proof.
  intros Hbase Hname Hext Hhash.
  assert (Htx : txHash (base +:+ "/stamps/" +:+ hash +:+ ext) = hash).
  { rewrite (txHash_of_stamp_url base (hash +:+ ext)) by done.
    by apply strip_html_extension_app. }
  split; [exact Htx|]. unfold contentUrl. rewrite Htx.
  apply String.eqb_neq in Hhash. by rewrite Hhash.
Qed.

(** X25. A stamp URL that does not contain [/stamps/] is taken whole: the
    content URL is the [/content/] endpoint followed by the complete URL,
    scheme and host included, less a final [.html] or [.htm]. *)
Theorem contentUrl_without_marker (stamp_url : string) :
  includes stamp_url "/stamps/" = false →
  strip_html_extension stamp_url ≠ EmptyString →
  contentUrl stamp_url
  = "https://stampchain.io/content/" +:+ strip_html_extension stamp_url.
Proof.
  intros Hno Hstrip.
  assert (Htx : txHash stamp_url = strip_html_extension stamp_url).
  { unfold txHash. f_equal.
    rewrite last_segment_whole by (by rewrite str_chars).
    apply str_chars. }
  unfold contentUrl. rewrite Htx.
  apply String.eqb_neq in Hstrip. by rewrite Hstrip.
Qed.

End ContentUrl.

Lemma contentUrl_of_stamp_url_witness :
  txHash "https://stampchain.io/stamps/abc.HTML" = "abc"%string
  ∧ contentUrl "https://stampchain.io/stamps/abc.HTML"
    = "https://stampchain.io/content/abc"%string.
Proof.
  apply (contentUrl_of_stamp_url "https://stampchain.io" "abc" ".HTML");
    [reflexivity | reflexivity | left; reflexivity | discriminate].
Defined.

Lemma contentUrl_without_marker_witness :
  contentUrl "https://example.org/x.html"
  = "https://stampchain.io/content/https://example.org/x"%string.
Proof.
  apply (contentUrl_without_marker "https://example.org/x.html");
    [reflexivity | discriminate].
Defined.
